(** * go-secoap: a shallow embedding of the SECOAP codec core

    The development follows the Go sources: the primitives of package
    [secoapcore] (validators, variable-length unsigned encoding, checksums),
    the option codec of [message_option.go], the legacy CoAP message of
    package [secoap] ([MarshalBinary] / [UnmarshalBinary]), the three wire
    coders [coderv0], [coderv1], [coderv2] and the pooled [message.Message]
    wrapper.

    Conventions.
    - A Go byte, uint16, uint32 or int is a [Z]; every narrowing conversion
      ([byte(x)], [uint16(x)], [uint32(x)]) is written out as a [mod].
      Go's [int] is 64 bits wide; lengths and option numbers stay far below
      that, so [int] arithmetic is plain [Z] arithmetic.
    - A Go [[]byte] that is only read, or written below its length, is the
      list of its bytes.  A function that writes into a caller's buffer
      returns the contents of that buffer after the call (same length).
    - A Go slice whose nil-ness is observable is an [option (list Z)],
      [None] being the nil slice.
    - A Go [(int, error)] result is a pair [Z * option error]. *)

From Stdlib Require Import String ZArith List Lia Bool Permutation DecimalString.
Import ListNotations.
Local Open Scope Z_scope.

(** ** Errors (secoapcore/errors.go) *)

Inductive error : Type :=
| ErrTooSmall
| ErrShortRead
| ErrInvalidOptionHeaderExt
| ErrInvalidTokenLen
| ErrInvalidValueLength
| ErrInvalidEncoding
| ErrOptionTruncated
| ErrOptionUnexpectedExtendMarker
| ErrOptionsTooSmall
| ErrOptionTooLong
| ErrOptionGapTooLarge
| ErrOptionNotFound
| ErrOptionDuplicate
| ErrMessageNil
| ErrMessageTruncated
| ErrMessageInvalidVersion
| ErrMessageInvalidRSUM8
| ErrInvalidRCRC16
| ErrorString (msg : string).   (* errors.New / fmt.Errorf values *)

(** ** Machine integers and byte slices *)

Definition byte (x : Z) : Z := x mod 256.
Definition uint16 (x : Z) : Z := x mod 65536.
Definition uint32 (x : Z) : Z := x mod 4294967296.

Definition is_byte (b : Z) : Prop := 0 <= b < 256.
Definition bytes_ok (l : list Z) : Prop := Forall is_byte l.

Definition len {A : Type} (l : list A) : Z := Z.of_nat (length l).

(** [copy(dst, src)]: the first [min(len dst, len src)] bytes of [dst] are
    overwritten, the length of [dst] is kept. *)
Definition copy (dst src : list Z) : list Z :=
  firstn (length dst) src ++ skipn (length src) dst.

(** [buf[i:]] and [buf[:i]] for [0 <= i <= len buf]. *)
Definition from (i : Z) (buf : list Z) : list Z := skipn (Z.to_nat i) buf.
Definition upto (i : Z) (buf : list Z) : list Z := firstn (Z.to_nat i) buf.

(** [buf[i]] for [i < len buf]. *)
Definition at_ (buf : list Z) (i : nat) : Z := nth i buf 0.

(** Writes through a sub-slice [buf[i:]] are writes into [buf]. *)
Definition splice (i : Z) (buf tail : list Z) : list Z := upto i buf ++ tail.

(** encoding/binary, big and little endian. *)
Definition BigEndian_bytes16 (v : Z) : list Z :=
  [byte (Z.shiftr v 8); byte v].
Definition BigEndian_bytes32 (v : Z) : list Z :=
  [byte (Z.shiftr v 24); byte (Z.shiftr v 16); byte (Z.shiftr v 8); byte v].
Definition LittleEndian_bytes16 (v : Z) : list Z :=
  [byte v; byte (Z.shiftr v 8)].

Definition BigEndian_Uint16 (b : list Z) : Z :=
  Z.lor (at_ b 1) (Z.shiftl (at_ b 0) 8).
Definition LittleEndian_Uint16 (b : list Z) : Z :=
  Z.lor (at_ b 0) (Z.shiftl (at_ b 1) 8).
Definition BigEndian_Uint32 (b : list Z) : Z :=
  Z.lor (Z.lor (Z.lor (at_ b 3) (Z.shiftl (at_ b 2) 8))
               (Z.shiftl (at_ b 1) 16))
        (Z.shiftl (at_ b 0) 24).

(** ** Validators (secoapcore/msg_type.go, msg_id.go, msg_ver.go, and the
    payload encoder file) *)

Definition MaxUint8 : Z := 255.
Definition MaxUint16 : Z := 65535.

(* func ValidateType(typ Type) bool { return typ >= 0 && typ <= math.MaxUint8 } *)
Definition ValidateType (typ : Z) : bool := (0 <=? typ) && (typ <=? MaxUint8).
(* func ValidateMID(mid int32) bool { return mid >= 0 && mid <= math.MaxUint16 } *)
Definition ValidateMID (mid : Z) : bool := (0 <=? mid) && (mid <=? MaxUint16).
(* func ValidateVer(typ Ver) bool { return typ >= 0 && typ <= (1<<2-1) } *)
Definition ValidateVer (ver : Z) : bool := (0 <=? ver) && (ver <=? Z.shiftl 1 2 - 1).
(* func ValidateEID(eid int32) bool { return eid >= 0 && eid <= (1<<4-1) } *)
Definition ValidateEID (eid : Z) : bool := (0 <=? eid) && (eid <=? Z.shiftl 1 4 - 1).
Definition ValidateETP (etp : Z) : bool := (0 <=? etp) && (etp <=? Z.shiftl 1 4 - 1).

(** Message types and versions. *)
Definition Unset : Z := -1.
Definition Confirmable : Z := 0.
Definition NonConfirmable : Z := 1.
Definition Acknowledgement : Z := 2.
Definition Reset : Z := 3.

Definition Version0 : Z := 0.
Definition Version1 : Z := 1.
Definition Version2 : Z := 2.

Definition MaxTokenSize : Z := 8.

(** ** Variable-length unsigned encoding (secoapcore/encode_decode_uint32.go) *)

Definition max1ByteNumber : Z := 255.        (* uint32(^uint8(0)) *)
Definition max2ByteNumber : Z := 65535.      (* uint32(^uint16(0)) *)
Definition max3ByteNumber : Z := 16777215.   (* uint32(0xffffff) *)

Definition EncodeUint32 (buf : list Z) (value : Z) : list Z * (Z * option error) :=
  if value =? 0 then (buf, (0, None))
  else if value <=? max1ByteNumber then
    if len buf <? 1 then (buf, (1, Some ErrTooSmall))
    else (copy buf [byte value], (1, None))
  else if value <=? max2ByteNumber then
    if len buf <? 2 then (buf, (2, Some ErrTooSmall))
    else (copy buf (BigEndian_bytes16 (uint16 value)), (2, None))
  else if value <=? max3ByteNumber then
    if len buf <? 3 then (buf, (3, Some ErrTooSmall))
    else
      let rv := BigEndian_bytes32 value in
      (copy buf (from 1 rv), (3, None))
  else
    if len buf <? 4 then (buf, (4, Some ErrTooSmall))
    else (copy buf (BigEndian_bytes32 value), (4, None)).

Definition DecodeUint32 (buf : list Z) : Z * Z * option error :=
  let buf := if 4 <? len buf then upto 4 buf else buf in
  let tmp := [0; 0; 0; 0] in
  let tmp := splice (4 - len buf) tmp (copy (from (4 - len buf) tmp) buf) in
  let value := BigEndian_Uint32 tmp in
  (value, len buf, None).

(** The bytes the spec prescribes for a value: its minimal big-endian form. *)
Definition minimal_big_endian (v : Z) : list Z :=
  if v =? 0 then []
  else if v <=? 255 then [v]
  else if v <=? 65535 then [v / 256; v mod 256]
  else if v <=? 16777215 then [v / 65536; (v / 256) mod 256; v mod 256]
  else [v / 16777216; (v / 65536) mod 256; (v / 256) mod 256; v mod 256].

(** ** Panics

    A Go call either returns or panics (an index out of range, a slice bound
    out of range, the [panic] of [Option.ToBytes]). *)

Inductive outcome (A : Type) : Type :=
| Done (a : A)
| Panics.
Arguments Done {A} a.
Arguments Panics {A}.

Definition bind {A B : Type} (c : outcome A) (k : A -> outcome B) : outcome B :=
  match c with
  | Done a => k a
  | Panics => Panics
  end.

Notation "x <- c ;; k" := (bind c (fun x => k))
  (at level 61, c at next level, right associativity).
Notation "' p <- c ;; k" := (bind c (fun x => let 'p := x in k))
  (at level 61, p pattern, c at next level, right associativity).

(** ** Checksums *)

(** Modelled from the spec: CRC16-MODBUS, computed by the external package
    github.com/GiterLab/crc16 through [crc16BytesModbus]; the glossary fixes
    it as the reflected polynomial 0xA001 with initial value 0xFFFF. *)
Fixpoint crc16_shift (n : nat) (crc : Z) : Z :=
  match n with
  | O => crc
  | S n' =>
      crc16_shift n'
        (if Z.testbit crc 0 then Z.lxor (Z.shiftr crc 1) 40961 (* 0xA001 *)
         else Z.shiftr crc 1)
  end.

Definition crc16_update (crc : Z) (b : Z) : Z :=
  crc16_shift 8 (Z.lxor crc (byte b)).

Definition crc16BytesModbus (data : list Z) : Z :=
  fold_left crc16_update data 65535 (* 0xFFFF *).

(* func CRC16Bytes(data []byte) uint16 { return crc16BytesModbus(data) } *)
Definition CRC16Bytes (data : list Z) : Z := crc16BytesModbus data.

(** Modelled from the spec: [RSUM8], whose file is not among the sources
    (only its test is): "sum += ~byte over all bytes, modulo 256".  The
    vectors of [TestRSUM8] are checked below. *)
Definition RSUM8 (data : list Z) : Z :=
  fold_left (fun sum b => byte (sum + byte (Z.lnot b))) data 0.

(** ** Option identifiers and the registry (message_option.go) *)

Definition IfMatch : Z := 1.
Definition URIHost : Z := 3.
Definition ETag : Z := 4.
Definition IfNoneMatch : Z := 5.
Definition Observe : Z := 6.
Definition URIPort : Z := 7.
Definition LocationPath : Z := 8.
Definition URIPath : Z := 11.
Definition ContentFormat : Z := 12.
Definition MaxAge : Z := 14.
Definition URIQuery : Z := 15.
Definition Accept : Z := 17.
Definition LocationQuery : Z := 20.
Definition Block2 : Z := 23.
Definition Block1 : Z := 27.
Definition Size2 : Z := 28.
Definition ProxyURI : Z := 35.
Definition ProxyScheme : Z := 39.
Definition Size1 : Z := 60.
Definition NoResponse : Z := 258.
Definition GiterLabID : Z := 65000.
Definition GiterLabKey : Z := 65001.
Definition AccessID : Z := 65002.
Definition AccessKey : Z := 65003.
Definition CheckCRC32 : Z := 65004.
Definition EncoderTypeOpt : Z := 65005.   (* OptionID EncoderType *)
Definition EncoderIDOpt : Z := 65006.     (* OptionID EncoderID *)
Definition PackageNumber : Z := 65100.

Inductive ValueFormat : Type :=
| ValueUnknown
| ValueEmpty
| ValueOpaque
| ValueUint
| ValueString.

Record OptionDef : Type := mkOptionDef {
  MinLen : Z;
  MaxLen : Z;
  Format : ValueFormat
}.

(** A Go [map[OptionID]OptionDef]: a lookup of a key that is absent gives
    [ok = false] and the zero [OptionDef]. *)
Definition OptionDefs : Type := list (Z * OptionDef).

Fixpoint lookup (defs : OptionDefs) (id : Z) : option OptionDef :=
  match defs with
  | [] => None
  | (k, d) :: rest => if k =? id then Some d else lookup rest id
  end.

Definition zeroOptionDef : OptionDef := mkOptionDef 0 0 ValueUnknown.

Definition index (defs : OptionDefs) (id : Z) : OptionDef :=
  match lookup defs id with
  | Some d => d
  | None => zeroOptionDef
  end.

Definition CoapOptionDefs : OptionDefs :=
  [ (IfMatch,       mkOptionDef 0 8 ValueOpaque);
    (URIHost,       mkOptionDef 1 255 ValueString);
    (ETag,          mkOptionDef 1 8 ValueOpaque);
    (IfNoneMatch,   mkOptionDef 0 0 ValueEmpty);
    (Observe,       mkOptionDef 0 3 ValueUint);
    (URIPort,       mkOptionDef 0 2 ValueUint);
    (LocationPath,  mkOptionDef 0 255 ValueString);
    (URIPath,       mkOptionDef 0 255 ValueString);
    (ContentFormat, mkOptionDef 0 2 ValueUint);
    (MaxAge,        mkOptionDef 0 4 ValueUint);
    (URIQuery,      mkOptionDef 0 255 ValueString);
    (Accept,        mkOptionDef 0 2 ValueUint);
    (LocationQuery, mkOptionDef 0 255 ValueString);
    (Block2,        mkOptionDef 0 3 ValueUint);
    (Block1,        mkOptionDef 0 3 ValueUint);
    (Size2,         mkOptionDef 0 4 ValueUint);
    (ProxyURI,      mkOptionDef 1 1034 ValueString);
    (ProxyScheme,   mkOptionDef 1 255 ValueString);
    (Size1,         mkOptionDef 0 4 ValueUint);
    (GiterLabID,    mkOptionDef 0 255 ValueString);
    (GiterLabKey,   mkOptionDef 0 255 ValueString);
    (AccessID,      mkOptionDef 0 255 ValueString);
    (AccessKey,     mkOptionDef 0 255 ValueString);
    (CheckCRC32,    mkOptionDef 0 4 ValueUint);
    (EncoderTypeOpt, mkOptionDef 0 4 ValueUint);
    (EncoderIDOpt,  mkOptionDef 0 4 ValueUint);
    (PackageNumber, mkOptionDef 0 2 ValueUint) ].

Definition VerifyOptLen (optionDefs : OptionDefs) (optionID : Z) (valueLen : Z) : bool :=
  let def := index optionDefs optionID in
  if (valueLen <? MinLen def) || (MaxLen def <? valueLen) then false else true.

(** ** Options and their values *)

(** The dynamic type of [Option.Value interface{}].  A Go string is the
    list of its bytes.  [VStrings] is a []string.  [VStringSeq] is any other
    slice or array whose element kind is string, which [AddOption] splits as
    well: an array [N]string or a named slice type of strings ([plain] is
    true, the elements are strings), or a slice or array of a named string
    type ([plain] is false).  [VOther] stands for the nil interface and for
    every other dynamic type that [ToBytes] does not list, a single value of
    a named string type among them. *)
Inductive OptionValue : Type :=
| VOther
| VString (s : list Z)
| VBytes (b : list Z)
| VMediaType (v : Z)
| VInt (v : Z)
| VInt32 (v : Z)
| VUint (v : Z)
| VUint32 (v : Z)
| VStrings (l : list (list Z))    (* []string, split by AddOption *)
| VStringSeq (plain : bool) (l : list (list Z)).

Record Option : Type := mkOption {
  ID : Z;
  Value : OptionValue
}.

Definition encodeInt (v : Z) : list Z :=
  if v =? 0 then []
  else if v <? 256 then [byte v]
  else if v <? 65536 then BigEndian_bytes16 (uint16 v)
  else if v <? 16777216 then from 1 (BigEndian_bytes32 (uint32 v))
  else BigEndian_bytes32 (uint32 v).

(** [decodeInt] is called on at most four bytes: the registry bounds every
    uint value by 4, and both callers check the bounds first. *)
Definition decodeInt (b : list Z) : Z :=
  let tmp := [0; 0; 0; 0] in
  let tmp := splice (4 - len b) tmp (copy (from (4 - len b) tmp) b) in
  BigEndian_Uint32 tmp.

Definition ExtendOptionByteCode : Z := 13.
Definition ExtendOptionByteAddend : Z := 13.
Definition ExtendOptionWordCode : Z := 14.
Definition ExtendOptionWordAddend : Z := 269.
Definition ExtendOptionError : Z := 15.

Definition extendOpt (opt : Z) : Z * Z :=
  let ext := 0 in
  if ExtendOptionByteAddend <=? opt then
    if ExtendOptionWordAddend <=? opt then
      (ExtendOptionWordCode, opt - ExtendOptionWordAddend)
    else
      (ExtendOptionByteCode, opt - ExtendOptionByteAddend)
  else (opt, ext).

(** Returns [(processed, opt, err)]. *)
Definition parseExtOpt (data : list Z) (opt : Z) : Z * Z * option error :=
  let processed := 0 in
  if opt =? ExtendOptionByteCode then
    if len data <? 1 then (0, -1, Some ErrOptionTruncated)
    else (1, at_ data 0 + ExtendOptionByteAddend, None)
  else if opt =? ExtendOptionWordCode then
    if len data <? 2 then (0, -1, Some ErrOptionTruncated)
    else (2, BigEndian_Uint16 (upto 2 data) + ExtendOptionWordAddend, None)
  else (processed, opt, None).

Definition marshalOptionHeaderExt (buf : list Z) (opt ext : Z)
  : list Z * (Z * option error) :=
  if opt =? ExtendOptionByteCode then
    if 0 <? len buf then (copy buf [byte ext], (1, None))
    else (buf, (1, Some ErrTooSmall))
  else if opt =? ExtendOptionWordCode then
    if 1 <? len buf then (copy buf (BigEndian_bytes16 (uint16 ext)), (2, None))
    else (buf, (2, Some ErrTooSmall))
  else (buf, (0, None)).

(** The idiom
    [switch { case err == nil: case errors.Is(err, ErrTooSmall): buf = nil
              default: return -1, err }]
    on the local variable [buf]; [isnil] tells whether [buf] is nil. *)
Definition too_small_or_fail (isnil : bool) (err : option error) : bool + error :=
  match err with
  | None => inl isnil
  | Some ErrTooSmall => inl true
  | Some e => inr e
  end.

(** [ext_into isnil size buf opt ext]: the call
    [marshalOptionHeaderExt(nil, ...)] when the local [buf] is nil, and
    [marshalOptionHeaderExt(buf[size:], ...)] otherwise. *)
Definition ext_into (isnil : bool) (size : Z) (buf : list Z) (opt ext : Z)
  : list Z * (Z * option error) :=
  if isnil then (buf, snd (marshalOptionHeaderExt [] opt ext))
  else
    let '(tail, r) := marshalOptionHeaderExt (from size buf) opt ext in
    (splice size buf tail, r).

Definition marshalOptionHeader (buf : list Z) (delta length : Z)
  : list Z * (Z * option error) :=
  let size := 0 in
  let '(d, dx) := extendOpt delta in
  let '(l, lx) := extendOpt length in
  let '(buf, isnil, size) :=
    if 0 <? len buf
    then (copy buf [Z.lor (byte (Z.shiftl d 4)) (byte l)], false, size + 1)
    else (buf, true, size + 1) in
  let '(buf, (lenBuf, err)) := ext_into isnil size buf d dx in
  match too_small_or_fail isnil err with
  | inr e => (buf, (-1, Some e))
  | inl isnil =>
      let size := size + lenBuf in
      let '(buf, (lenBuf, err)) := ext_into isnil size buf l lx in
      match too_small_or_fail isnil err with
      | inr e => (buf, (-1, Some e))
      | inl isnil =>
          let size := size + lenBuf in
          if isnil then (buf, (size, Some ErrTooSmall))
          else (buf, (size, None))
      end
  end.

(** [ToBytes] panics on a value of any other dynamic type. *)
Definition ToBytes (o : Option) : outcome (list Z) :=
  match Value o with
  | VString i => Done i
  | VBytes i => Done i
  | VMediaType i => Done (encodeInt (uint32 i))
  | VInt i => Done (encodeInt (uint32 i))
  | VInt32 i => Done (encodeInt (uint32 i))
  | VUint i => Done (encodeInt (uint32 i))
  | VUint32 i => Done (encodeInt i)
  | VOther | VStrings _ | VStringSeq _ _ => Panics
  end.

Definition MarshalValue (o : Option) (buf : list Z)
  : outcome (list Z * (Z * option error)) :=
  value <- ToBytes o ;;
  if len buf <? len value then Done (buf, (len value, Some ErrTooSmall))
  else Done (copy buf value, (len value, None)).

(** [o.MarshalValue(nil)] when the local [buf] is nil, and
    [o.MarshalValue(buf[length:])] otherwise. *)
Definition value_into (o : Option) (isnil : bool) (length : Z) (buf : list Z)
  : outcome (list Z * (Z * option error)) :=
  if isnil then
    '(_, r) <- MarshalValue o [] ;; Done (buf, r)
  else
    '(tail, r) <- MarshalValue o (from length buf) ;;
    Done (splice length buf tail, r).

Definition Option_Marshal (o : Option) (buf : list Z) (previousID : Z)
  : outcome (list Z * (Z * option error)) :=
  let delta := ID o - previousID in
  '(_, (lenBuf, err)) <- MarshalValue o [] ;;
  match err with
  | None | Some ErrTooSmall =>
      let '(buf, (lenBuf, err)) := marshalOptionHeader buf delta lenBuf in
      match too_small_or_fail false err with
      | inr e => Done (buf, (-1, Some e))
      | inl isnil =>
          let length := lenBuf in
          '(buf, (lenBuf, err)) <- value_into o isnil length buf ;;
          match too_small_or_fail isnil err with
          | inr e => Done (buf, (-1, Some e))
          | inl isnil =>
              let length := length + lenBuf in
              if isnil then Done (buf, (length, Some ErrTooSmall))
              else Done (buf, (length, None))
          end
      end
  | Some e => Done (buf, (-1, Some e))
  end.

Definition errInvalidOptionLength : error := ErrorString "invalid option length".
Definition errUnrecognizedOption : error := ErrorString "unrecognized option".

(** Returns the option after the call and [(processed, err)]. *)
Definition UnmarshalValue (o : Option) (optionDefs : OptionDefs) (buf : list Z)
  : Option * (Z * option error) :=
  match lookup optionDefs (ID o) with
  | Some def =>
      let valueLen := len buf in
      if negb (VerifyOptLen optionDefs (ID o) valueLen) then
        (o, (-1, Some errInvalidOptionLength))
      else
        let o :=
          match Format def with
          | ValueUint =>
              let intValue := decodeInt buf in
              let o :=
                if (ID o =? ContentFormat) || (ID o =? Accept)
                then mkOption (ID o) (VMediaType (uint16 intValue))
                else o in
              mkOption (ID o) (VUint32 intValue)
          | ValueString => mkOption (ID o) (VString buf)
          | ValueOpaque | ValueEmpty => mkOption (ID o) (VBytes buf)
          | ValueUnknown => o
          end in
        (o, (len buf, None))
  | None =>
      (* Skip unrecognized options (should never be reached) *)
      (o, (-1, Some errUnrecognizedOption))
  end.

Definition Option_Unmarshal (o : Option) (optionDefs : OptionDefs)
  (optionID : Z) (data : list Z) : Option * (Z * option error) :=
  match lookup optionDefs optionID with
  | Some def =>
      match Format def with
      | ValueUnknown =>
          (* Skip unrecognized options (RFC7252 section 5.4.1) *)
          (o, (len data, None))
      | _ =>
          let valueLen := len data in
          if negb (VerifyOptLen optionDefs optionID valueLen) then
            (* Skip options with illegal value length (RFC7252 section 5.4.3) *)
            (o, (valueLen, None))
          else
            let o := mkOption optionID (Value o) in
            let '(o, (proc, err)) := UnmarshalValue o optionDefs data in
            match err with
            | Some e => (o, (-1, Some e))
            | None => (o, (proc, None))
            end
      end
  | None => (o, (-1, Some errUnrecognizedOption))
  end.

(** [parseOptionValue] of the legacy decoder: [None] is the nil interface. *)
Definition parseOptionValue (optionID : Z) (valueBuf : list Z) : option OptionValue :=
  let def := index CoapOptionDefs optionID in
  match Format def with
  | ValueUnknown => None
  | fmt =>
      if (len valueBuf <? MinLen def) || (MaxLen def <? len valueBuf) then None
      else
        match fmt with
        | ValueUint =>
            let intValue := decodeInt valueBuf in
            if (optionID =? ContentFormat) || (optionID =? Accept)
            then Some (VMediaType (uint16 intValue))
            else Some (VUint32 intValue)
        | ValueString => Some (VString valueBuf)
        | ValueOpaque | ValueEmpty => Some (VBytes valueBuf)
        | ValueUnknown => None
        end
  end.

(** ** Option lists *)

(** Modelled from the spec: the ordering of [Options] ([Len], [Less],
    [Swap] live in the options file, which is not among the sources).
    Section 3: options serialize "in nondecreasing ID order using a stable
    sort"; a stable sort has one result, computed here by insertion. *)
Fixpoint insert_by_ID (o : Option) (l : list Option) : list Option :=
  match l with
  | [] => [o]
  | x :: rest => if ID o <=? ID x then o :: l else x :: insert_by_ID o rest
  end.

Definition sort_Stable (l : list Option) : list Option :=
  fold_right insert_by_ID [] l.

(** The slice header of a [secoapcore.Options]: its elements and its
    capacity. *)
Record Options : Type := mkOptions {
  items : list Option;
  capacity : Z
}.

(** One round of the marshalling loop: [o.Marshal(nil, previousID)] when the
    local [buf] is nil, [o.Marshal(buf[length:], previousID)] otherwise. *)
Definition option_into (o : Option) (isnil : bool) (length : Z) (buf : list Z)
  (previousID : Z) : outcome (list Z * (Z * option error)) :=
  if isnil then
    '(_, r) <- Option_Marshal o [] previousID ;; Done (buf, r)
  else
    '(tail, r) <- Option_Marshal o (from length buf) previousID ;;
    Done (splice length buf tail, r).

Fixpoint Options_Marshal_loop (options : list Option) (buf : list Z)
  (isnil : bool) (previousID length : Z) : outcome (list Z * (Z * option error)) :=
  match options with
  | [] =>
      if isnil then Done (buf, (length, Some ErrTooSmall))
      else Done (buf, (length, None))
  | o :: rest =>
      let isnil := isnil || (len buf <? length) in
      '(buf, (optionLength, err)) <- option_into o isnil length buf previousID ;;
      let previousID := ID o in
      match too_small_or_fail isnil err with
      | inr e => Done (buf, (-1, Some e))
      | inl isnil =>
          Options_Marshal_loop rest buf isnil previousID (length + optionLength)
      end
  end.

(** Modelled from the spec: [Options.Marshal], which is not among the
    sources.  Sections 3 and 4.3: the options are written in nondecreasing
    ID order (stable sort), each by [Option.Marshal] with the ID of the one
    before it (0 for the first) so that the delta is [id_current -
    id_previous]; a nil buffer, or one that cannot hold an option, yields
    the required total length together with [ErrTooSmall] ("size probe"),
    and the probe is carried through every header, extension and value
    write.  The argument is [None] for the nil slice. *)
Definition Options_Marshal (options : list Option) (buf : option (list Z))
  : outcome (list Z * (Z * option error)) :=
  let sorted := sort_Stable options in
  match buf with
  | None => Options_Marshal_loop sorted [] true 0 0
  | Some b => Options_Marshal_loop sorted b false 0 0
  end.

Definition zeroOption : Option := mkOption 0 VOther.

Fixpoint Options_Unmarshal_loop (fuel : nat) (options : Options)
  (optionDefs : OptionDefs) (data : list Z) (prev processed : Z)
  : Options * (Z * option error) :=
  match fuel, data with
  | O, _ | _, [] => (options, (processed, None))
  | S fuel, b0 :: _ =>
      if b0 =? 255 then (options, (processed + 1, None))
      else
        let delta := Z.shiftr b0 4 in
        let length := Z.land b0 15 in
        if (delta =? ExtendOptionError) || (length =? ExtendOptionError) then
          (options, (-1, Some ErrOptionUnexpectedExtendMarker))
        else
          let data := from 1 data in
          let processed := processed + 1 in
          let '(proc, delta, err) := parseExtOpt data delta in
          match err with
          | Some e => (options, (-1, Some e))
          | None =>
              let processed := processed + proc in
              let data := from proc data in
              let '(proc, length, err) := parseExtOpt data length in
              match err with
              | Some e => (options, (-1, Some e))
              | None =>
                  let processed := processed + proc in
                  let data := from proc data in
                  if len data <? length then
                    (options, (-1, Some ErrOptionTruncated))
                  else
                    let oid := uint32 (prev + delta) in
                    let '(o, (proc, err)) :=
                      Option_Unmarshal zeroOption optionDefs oid (upto length data) in
                    match err with
                    | Some e => (options, (-1, Some e))
                    | None =>
                        let processed := processed + proc in
                        let data := from proc data in
                        if ID o =? 0 then
                          (* skipped: unknown format or illegal length *)
                          Options_Unmarshal_loop fuel options optionDefs data oid processed
                        else if len (items options) =? capacity options then
                          (options, (-1, Some ErrOptionsTooSmall))
                        else
                          Options_Unmarshal_loop fuel
                            (mkOptions (items options ++ [o]) (capacity options))
                            optionDefs data oid processed
                    end
              end
          end
  end.

(** Modelled from the spec: [Options.Unmarshal], which is not among the
    sources.  Sections 4.3, 4.6 and 7: options are parsed until the buffer
    ends or a 0xFF byte is seen (the marker is counted as processed); a
    nibble 15 in the delta or the length gives
    [ErrOptionUnexpectedExtendMarker]; extension bytes or a value running off
    the input give [ErrOptionTruncated]; the running sum of the deltas
    restores the IDs; each value goes through [Option.Unmarshal], whose
    error is returned to the caller and whose silently skipped options are
    not stored; [ErrOptionsTooSmall] is returned when the container cannot
    hold one more option.  Parsed options are appended to the container.
    Every round consumes a byte, so [length data] rounds suffice. *)
Definition Options_Unmarshal (options : Options) (data : list Z)
  (optionDefs : OptionDefs) : Options * (Z * option error) :=
  Options_Unmarshal_loop (length data) options optionDefs data 0 0.

(** ** The legacy CoAP message of package secoap *)

Definition slen (s : option (list Z)) : Z :=
  match s with
  | None => 0
  | Some l => len l
  end.

Definition sbytes (s : option (list Z)) : list Z :=
  match s with
  | None => []
  | Some l => l
  end.

Definition GET : Z := 1.
Definition POST : Z := 2.
Definition PUT : Z := 3.
Definition DELETE : Z := 4.
Definition Empty : Z := 0.

Module secoap.

Record Message : Type := mkMessage {
  Token : option (list Z);
  Opts : list Option;
  Code : Z;
  Payload : option (list Z);
  MessageID : Z;
  Type_ : Z
}.

(** [Options] gets all the values for the given option. *)
Definition Options (m : Message) (o : Z) : list OptionValue :=
  map Value (filter (fun v => o =? ID v) (Opts m)).

(** [o.(string)] panics on a value that is not a string. *)
Fixpoint optionStrings_of (l : list OptionValue) : outcome (list (list Z)) :=
  match l with
  | [] => Done []
  | VString s :: rest => rv <- optionStrings_of rest ;; Done (s :: rv)
  | _ :: _ => Panics
  end.

Definition optionStrings (m : Message) (o : Z) : outcome (list (list Z)) :=
  optionStrings_of (Options m o).

(** [Option] gets the first value for the given option ID; [None] is the
    nil interface. *)
Fixpoint first_value (o : Z) (opts : list Option) : option OptionValue :=
  match opts with
  | [] => None
  | v :: rest => if o =? ID v then Some (Value v) else first_value o rest
  end.

Definition Option_ (m : Message) (o : Z) : option OptionValue :=
  first_value o (Opts m).

Definition Path (m : Message) : outcome (list (list Z)) :=
  optionStrings m URIPath.

(** [iv.Index(i).Interface()] for a slice or array whose element kind is
    string: a string when the element type is [string], a value of the
    named string type otherwise. *)
Definition element (plain : bool) (s : list Z) : OptionValue :=
  if plain then VString s else VOther.

(** [AddOption] adds an option; a slice or array whose element kind is
    string gives one option per element. *)
Definition AddOption (m : Message) (opID : Z) (val : OptionValue) : Message :=
  match val with
  | VStrings l =>
      mkMessage (Token m) (Opts m ++ map (fun s => mkOption opID (VString s)) l)
                (Code m) (Payload m) (MessageID m) (Type_ m)
  | VStringSeq plain l =>
      mkMessage (Token m) (Opts m ++ map (fun s => mkOption opID (element plain s)) l)
                (Code m) (Payload m) (MessageID m) (Type_ m)
  | _ =>
      mkMessage (Token m) (Opts m ++ [mkOption opID val])
                (Code m) (Payload m) (MessageID m) (Type_ m)
  end.

Definition writeExt (buf : list Z) (opt ext : Z) : list Z :=
  if opt =? ExtendOptionByteCode then buf ++ [byte ext]
  else if opt =? ExtendOptionWordCode then buf ++ BigEndian_bytes16 (uint16 ext)
  else buf.

Definition writeOptHeader (buf : list Z) (delta length : Z) : list Z :=
  let '(d, dx) := extendOpt delta in
  let '(l, lx) := extendOpt length in
  let buf := buf ++ [Z.lor (byte (Z.shiftl d 4)) (byte l)] in
  let buf := writeExt buf d dx in
  writeExt buf l lx.

Fixpoint writeOpts (buf : list Z) (prev : Z) (opts : list Option)
  : outcome (list Z) :=
  match opts with
  | [] => Done buf
  | o :: rest =>
      b <- ToBytes o ;;
      let buf := writeOptHeader buf (ID o - prev) (len b) in
      let buf := buf ++ b in
      writeOpts buf (ID o) rest
  end.

(** Returns the message (its options are sorted in place) and the bytes. *)
Definition MarshalBinary (m : Message)
  : outcome (Message * (list Z * option error)) :=
  let tmpbuf := BigEndian_bytes16 (uint16 (MessageID m)) in
  let buf :=
    [ Z.lor (Z.lor (Z.shiftl 1 6) (byte (Z.shiftl (byte (Type_ m)) 4)))
            (byte (Z.land 15 (slen (Token m))));
      byte (Code m);
      at_ tmpbuf 0; at_ tmpbuf 1 ] in
  let buf := buf ++ sbytes (Token m) in
  let m := mkMessage (Token m) (sort_Stable (Opts m)) (Code m) (Payload m)
                     (MessageID m) (Type_ m) in
  buf <- writeOpts buf 0 (Opts m) ;;
  let buf := if 0 <? slen (Payload m) then buf ++ [255] else buf in
  let buf := buf ++ sbytes (Payload m) in
  Done (m, (buf, None)).

Definition errShortPacket : error := ErrorString "short packet".
Definition errInvalidVersion : error := ErrorString "invalid version".
Definition errTruncated : error := ErrorString "truncated".
Definition errUnexpectedMarker : error :=
  ErrorString "unexpected extended option marker".

(** The closure [parseExtOpt] of [UnmarshalBinary]: it reads from, and
    advances, the captured [b].  Returns [b] after the call and
    [(opt, err)]. *)
Definition parseExtOpt (b : list Z) (opt : Z) : list Z * (Z * option error) :=
  if opt =? ExtendOptionByteCode then
    if len b <? 1 then (b, (-1, Some errTruncated))
    else (from 1 b, (at_ b 0 + ExtendOptionByteAddend, None))
  else if opt =? ExtendOptionWordCode then
    if len b <? 2 then (b, (-1, Some errTruncated))
    else (from 2 b, (BigEndian_Uint16 (upto 2 b) + ExtendOptionWordAddend, None))
  else (b, (opt, None)).

(** The option loop of [UnmarshalBinary]: returns the options, what is
    left of [b] (the payload) and the error.  Every round consumes a byte,
    so [length b] rounds suffice. *)
Fixpoint parseOptions (fuel : nat) (opts : list Option) (b : list Z) (prev : Z)
  : list Option * (list Z * option error) :=
  match fuel, b with
  | O, _ | _, [] => (opts, (b, None))
  | S fuel, b0 :: _ =>
      if b0 =? 255 then (opts, (from 1 b, None))
      else
        let delta := Z.shiftr b0 4 in
        let length := Z.land b0 15 in
        if (delta =? ExtendOptionError) || (length =? ExtendOptionError) then
          (opts, (b, Some errUnexpectedMarker))
        else
          let b := from 1 b in
          let '(b, (delta, err)) := parseExtOpt b delta in
          match err with
          | Some e => (opts, (b, Some e))
          | None =>
              let '(b, (length, err)) := parseExtOpt b length in
              match err with
              | Some e => (opts, (b, Some e))
              | None =>
                  if len b <? length then (opts, (b, Some errTruncated))
                  else
                    let oid := uint32 (prev + delta) in
                    let opval := parseOptionValue oid (upto length b) in
                    let b := from length b in
                    let prev := oid in
                    match opval with
                    | Some v => parseOptions fuel (opts ++ [mkOption oid v]) b prev
                    | None => parseOptions fuel opts b prev
                    end
              end
          end
  end.

(** Returns the message after the call and the error. *)
Definition UnmarshalBinary (m : Message) (data : list Z)
  : Message * option error :=
  if len data <? 4 then (m, Some errShortPacket)
  else if negb (Z.shiftr (at_ data 0) 6 =? 1) then (m, Some errInvalidVersion)
  else
    let m := mkMessage (Token m) (Opts m) (Code m) (Payload m) (MessageID m)
                       (Z.land (Z.shiftr (at_ data 0) 4) 3) in
    let tokenLen := Z.land (at_ data 0) 15 in
    if 8 <? tokenLen then (m, Some ErrInvalidTokenLen)
    else
      let messageid := BigEndian_Uint16 (upto 2 (from 2 data)) in
      let m := mkMessage (Token m) (Opts m) (at_ data 1) (Payload m)
                         messageid (Type_ m) in
      let m :=
        if 0 <? tokenLen
        then mkMessage (Some (repeat 0 (Z.to_nat tokenLen))) (Opts m) (Code m)
                       (Payload m) (MessageID m) (Type_ m)
        else m in
      if len data <? 4 + tokenLen then (m, Some errTruncated)
      else
        let m :=
          match Token m with
          | Some t =>
              mkMessage (Some (copy t (upto tokenLen (from 4 data)))) (Opts m)
                        (Code m) (Payload m) (MessageID m) (Type_ m)
          | None => m
          end in
        let b := from (4 + tokenLen) data in
        let '(opts, (b, err)) := parseOptions (length b) (Opts m) b 0 in
        let m := mkMessage (Token m) opts (Code m) (Payload m) (MessageID m)
                           (Type_ m) in
        match err with
        | Some e => (m, Some e)
        | None =>
            (mkMessage (Token m) (Opts m) (Code m) (Some b) (MessageID m)
                       (Type_ m), None)
        end.

Definition zeroMessage : Message := mkMessage None [] 0 None 0 0.

End secoap.

(** ** The SECOAP message (secoapcore.Message) *)

Module secoapcore.

Record Message : Type := mkMessage {
  Ver : Z;
  Token : option (list Z);
  Opts : Options;
  Code : Z;
  Payload : option (list Z);
  MessageID : Z;
  Type_ : Z;
  EncoderID : Z;
  EncoderType : Z;
  Crc16 : Z;
  Rsum8 : Z
}.

Definition set_Opts (m : Message) (o : Options) : Message :=
  mkMessage (Ver m) (Token m) o (Code m) (Payload m) (MessageID m) (Type_ m)
            (EncoderID m) (EncoderType m) (Crc16 m) (Rsum8 m).

Definition set_Crc16 (m : Message) (c : Z) : Message :=
  mkMessage (Ver m) (Token m) (Opts m) (Code m) (Payload m) (MessageID m)
            (Type_ m) (EncoderID m) (EncoderType m) c (Rsum8 m).

End secoapcore.
Import secoapcore.

(** ** Writing through a moving slice

    The encoders advance their buffer variable ([buf = buf[4:]]); [written]
    holds the bytes the variable has moved past, [window] the bytes it
    still covers.  Indexing and slicing out of range panic. *)

Record cursor : Type := mkCursor {
  written : list Z;
  window : list Z
}.

Definition whole (c : cursor) : list Z := written c ++ window c.

(** [buf[i] = v] *)
Definition store (c : cursor) (i v : Z) : outcome cursor :=
  if (0 <=? i) && (i <? len (window c)) then
    Done (mkCursor (written c) (upto i (window c) ++ v :: from (i + 1) (window c)))
  else Panics.

(** [buf = buf[k:]] *)
Definition advance (c : cursor) (k : Z) : outcome cursor :=
  if (0 <=? k) && (k <=? len (window c)) then
    Done (mkCursor (written c ++ upto k (window c)) (from k (window c)))
  else Panics.

(** [copy(buf, src)] *)
Definition copy_into (c : cursor) (src : list Z) : cursor :=
  mkCursor (written c) (copy (window c) src).

Definition errInvalidMessageID : error := ErrorString "invalid MessageID".
Definition errInvalidType : error := ErrorString "invalid Type".
Definition errInvalidEncoderID : error := ErrorString "invalid EncoderID".
Definition errInvalidEncoderType : error := ErrorString "invalid EncoderType".

(** ** Version 0 (package coderv0) *)

Module coderv0.

Definition Size (m : Message) : Z * option error :=
  let size := 4 in
  let payloadLen := slen (Payload m) in
  (size + payloadLen, None).

Definition Encode (m : Message) (buf : list Z)
  : outcome (list Z * (Z * option error)) :=
  if negb (ValidateType (Type_ m)) then Done (buf, (-1, Some errInvalidType))
  else if negb (ValidateEID (EncoderID m)) then Done (buf, (-1, Some errInvalidEncoderID))
  else if negb (ValidateETP (EncoderType m)) then Done (buf, (-1, Some errInvalidEncoderType))
  else
    let '(size, err) := Size m in
    match err with
    | Some e => Done (buf, (-1, Some e))
    | None =>
        if len buf <? size then Done (buf, (size, Some ErrTooSmall))
        else
          let m := set_Crc16 m (CRC16Bytes (sbytes (Payload m))) in
          let tmpbufCRC16 := LittleEndian_bytes16 (Crc16 m) in
          let pbuf := mkCursor [] buf in
          pbuf <- store pbuf 0 (byte (Type_ m)) ;;
          pbuf <- store pbuf 1 (Z.lor (byte (Z.shiftl (EncoderID m) 4))
                                      (byte (EncoderType m))) ;;
          pbuf <- store pbuf 2 (at_ tmpbufCRC16 0) ;;
          pbuf <- store pbuf 3 (at_ tmpbufCRC16 1) ;;
          pbuf <- advance pbuf 4 ;;
          let pbuf := copy_into pbuf (sbytes (Payload m)) in
          Done (whole pbuf, (size, None))
    end.

(** Returns the message after the call and [(n, err)]. *)
Definition Decode (data : list Z) (m : Message) : Message * (Z * option error) :=
  let size := len data in
  if size <? 4 then (m, (-1, Some ErrMessageTruncated))
  else if negb (Z.shiftr (at_ data 0) 6 =? 0) then
    (m, (-1, Some ErrMessageInvalidVersion))
  else
    let typ := Z.land (at_ data 0) 3 in
    let eid := Z.shiftr (at_ data 1) 4 in
    let etp := Z.land (at_ data 1) 15 in
    let crc16 := LittleEndian_Uint16 (upto 2 (from 2 data)) in
    let data := from 4 data in
    let m := mkMessage Version0 (Token m) (Opts m) (Code m) (Some data)
                       (MessageID m) typ eid etp crc16 (Rsum8 m) in
    if negb (Crc16 m =? CRC16Bytes (sbytes (Payload m))) then
      (m, (-1, Some ErrInvalidRCRC16))
    else (m, (size, None)).

End coderv0.

(** ** Version 1 (package coderv1) *)

Module coderv1.

Definition Size (m : Message) : outcome (Z * option error) :=
  if MaxTokenSize <? slen (Token m) then Done (-1, Some ErrInvalidTokenLen)
  else
    let size := 4 + slen (Token m) in
    let payloadLen := slen (Payload m) in
    '(_, (optionsLen, err)) <- Options_Marshal (items (Opts m)) None ;;
    match err with
    | Some ErrTooSmall =>
        let payloadLen := if 0 <? payloadLen then payloadLen + 1 else payloadLen in
        Done (size + (payloadLen + optionsLen), None)
    | _ => Done (-1, err)
    end.

Definition Encode (m : Message) (buf : list Z)
  : outcome (list Z * (Z * option error)) :=
  if negb (ValidateMID (MessageID m)) then Done (buf, (-1, Some errInvalidMessageID))
  else if negb (ValidateType (Type_ m)) then Done (buf, (-1, Some errInvalidType))
  else
    '(size, err) <- Size m ;;
    match err with
    | Some e => Done (buf, (-1, Some e))
    | None =>
        if len buf <? size then Done (buf, (size, Some ErrTooSmall))
        else
          let tmpbufMessageID := BigEndian_bytes16 (uint16 (MessageID m)) in
          let buf := mkCursor [] buf in
          buf <- store buf 0
                   (Z.lor (Z.lor (Z.shiftl 1 6) (byte (Z.shiftl (byte (Type_ m)) 4)))
                          (byte (Z.land 15 (slen (Token m))))) ;;
          buf <- store buf 1 (byte (Code m)) ;;
          buf <- store buf 2 (at_ tmpbufMessageID 0) ;;
          buf <- store buf 3 (at_ tmpbufMessageID 1) ;;
          buf <- advance buf 4 ;;
          if MaxTokenSize <? slen (Token m) then
            Done (whole buf, (-1, Some ErrInvalidTokenLen))
          else
            let buf := copy_into buf (sbytes (Token m)) in
            buf <- advance buf (slen (Token m)) ;;
            '(w, (optionsLen, err)) <-
               Options_Marshal (items (Opts m)) (Some (window buf)) ;;
            let buf := mkCursor (written buf) w in
            match err with
            | None =>
                buf <- advance buf optionsLen ;;
                buf <- (if 0 <? slen (Payload m)
                        then buf <- store buf 0 255 ;; advance buf 1
                        else Done buf) ;;
                let buf := copy_into buf (sbytes (Payload m)) in
                Done (whole buf, (size, None))
            | Some ErrTooSmall => Done (whole buf, (size, Some ErrTooSmall))
            | Some e => Done (whole buf, (-1, Some e))
            end
    end.

(** Returns the message after the call and [(n, err)]. *)
Definition Decode (data : list Z) (m : Message) : Message * (Z * option error) :=
  let size := len data in
  if size <? 4 then (m, (-1, Some ErrMessageTruncated))
  else if negb (Z.shiftr (at_ data 0) 6 =? 1) then
    (m, (-1, Some ErrMessageInvalidVersion))
  else
    let typ := Z.land (Z.shiftr (at_ data 0) 4) 3 in
    let tokenLen := Z.land (at_ data 0) 15 in
    if 8 <? tokenLen then (m, (-1, Some ErrInvalidTokenLen))
    else
      let code := at_ data 1 in
      let messageID := BigEndian_Uint16 (upto 2 (from 2 data)) in
      let data := from 4 data in
      if len data <? tokenLen then (m, (-1, Some ErrMessageTruncated))
      else
        let token := upto tokenLen data in
        let token := if len token =? 0 then None else Some token in
        let data := from tokenLen data in
        let optionDefs := CoapOptionDefs in
        let '(opts, (proc, err)) := Options_Unmarshal (Opts m) data optionDefs in
        let m := set_Opts m opts in
        match err with
        | Some e => (m, (-1, Some e))
        | None =>
            let data := from proc data in
            let data := if len data =? 0 then None else Some data in
            (mkMessage Version1 token (Opts m) code data messageID typ
                       (EncoderID m) (EncoderType m) (Crc16 m) (Rsum8 m),
             (size, None))
        end.

End coderv1.

(** ** Version 2 (package coderv2) *)

(** The header bytes of a version-2 frame, byte 7 (RSUM8) still zero. *)
Definition v2_header (m : Message) : list Z :=
  let tmpbufCRC16 := BigEndian_bytes16 (Crc16 m) in
  let tmpbufMessageID := BigEndian_bytes16 (uint16 (MessageID m)) in
  [ Z.lor (Z.lor (Z.shiftl 2 6) (byte (Z.shiftl (byte (Z.land 15 (slen (Token m)))) 2)))
          (byte (Type_ m));
    Z.lor (byte (Z.shiftl (EncoderID m) 4)) (byte (EncoderType m));
    at_ tmpbufCRC16 0; at_ tmpbufCRC16 1;
    at_ tmpbufMessageID 0; at_ tmpbufMessageID 1;
    byte (Code m);
    0 ].

(** [buf[0] = ...; ...; buf[7] = 0x00] *)
Definition store_v2_header (c : cursor) (m : Message) : outcome cursor :=
  let h := v2_header m in
  c <- store c 0 (at_ h 0) ;;
  c <- store c 1 (at_ h 1) ;;
  c <- store c 2 (at_ h 2) ;;
  c <- store c 3 (at_ h 3) ;;
  c <- store c 4 (at_ h 4) ;;
  c <- store c 5 (at_ h 5) ;;
  c <- store c 6 (at_ h 6) ;;
  store c 7 (at_ h 7).

Definition v2_Size (m : Message) : outcome (Z * option error) :=
  if MaxTokenSize <? slen (Token m) then Done (-1, Some ErrInvalidTokenLen)
  else
    let size := 8 + slen (Token m) in
    let payloadLen := slen (Payload m) in
    '(_, (optionsLen, err)) <- Options_Marshal (items (Opts m)) None ;;
    match err with
    | Some ErrTooSmall =>
        let payloadLen := if 0 <? payloadLen then payloadLen + 1 else payloadLen in
        Done (size + (payloadLen + optionsLen), None)
    | _ => Done (-1, err)
    end.

(** The checks that open both versions of [Encode]; [None] when they pass. *)
Definition v2_validate (m : Message) : option error :=
  if negb (ValidateMID (MessageID m)) then Some errInvalidMessageID
  else if negb (ValidateType (Type_ m)) then Some errInvalidType
  else if negb (ValidateEID (EncoderID m)) then Some errInvalidEncoderID
  else if negb (ValidateETP (EncoderType m)) then Some errInvalidEncoderType
  else None.

(** Both versions of [Decode] up to the assignments to [m]: the parsed
    fields, or the error. *)
Record v2_parsed : Type := mkParsed {
  p_typ : Z; p_token : option (list Z); p_eid : Z; p_etp : Z; p_crc16 : Z;
  p_messageID : Z; p_code : Z; p_payload : option (list Z)
}.

Definition v2_parse (data : list Z) (m : Message)
  : Message * (error + v2_parsed) :=
  let size := len data in
  if size <? 8 then (m, inl ErrMessageTruncated)
  else if negb (RSUM8 data =? 0) then (m, inl ErrMessageInvalidRSUM8)
  else if negb (Z.shiftr (at_ data 0) 6 =? 2) then (m, inl ErrMessageInvalidVersion)
  else
    let typ := Z.land (at_ data 0) 3 in
    let tokenLen := Z.land (Z.shiftr (at_ data 0) 2) 15 in
    if 8 <? tokenLen then (m, inl ErrInvalidTokenLen)
    else
      let eid := Z.shiftr (at_ data 1) 4 in
      let etp := Z.land (at_ data 1) 15 in
      let crc16 := BigEndian_Uint16 (upto 2 (from 2 data)) in
      let messageID := BigEndian_Uint16 (upto 2 (from 4 data)) in
      let code := at_ data 6 in
      let data := from 8 data in
      if len data <? tokenLen then (m, inl ErrMessageTruncated)
      else
        let token := upto tokenLen data in
        let token := if len token =? 0 then None else Some token in
        let data := from tokenLen data in
        let optionDefs := CoapOptionDefs in
        let '(opts, (proc, err)) := Options_Unmarshal (Opts m) data optionDefs in
        let m := set_Opts m opts in
        match err with
        | Some e => (m, inl e)
        | None =>
            let data := from proc data in
            let data := if len data =? 0 then None else Some data in
            (m, inr (mkParsed typ token eid etp crc16 messageID code data))
        end.

(** src/coder/coderv2/coder.go *)
Module coderv2.

Definition Size := v2_Size.

(** [spare] holds the bytes of the backing array between [len(buf)] and
    [cap(buf)]: the last statement slices the advanced [buf] up to [size]
    and that may reach past its length. *)
Definition Encode (m : Message) (buf spare : list Z)
  : outcome (list Z * (Z * option error)) :=
  match v2_validate m with
  | Some e => Done (buf, (-1, Some e))
  | None =>
      '(size, err) <- Size m ;;
      match err with
      | Some e => Done (buf, (-1, Some e))
      | None =>
          if len buf <? size then Done (buf, (size, Some ErrTooSmall))
          else
            let m := set_Crc16 m (CRC16Bytes (sbytes (Payload m))) in
            let buf := mkCursor [] buf in
            buf <- store_v2_header buf m ;;
            buf <- advance buf 8 ;;
            if MaxTokenSize <? slen (Token m) then
              Done (whole buf, (-1, Some ErrInvalidTokenLen))
            else
              let buf := copy_into buf (sbytes (Token m)) in
              buf <- advance buf (slen (Token m)) ;;
              '(w, (optionsLen, err)) <-
                 Options_Marshal (items (Opts m)) (Some (window buf)) ;;
              let buf := mkCursor (written buf) w in
              match err with
              | None =>
                  buf <- advance buf optionsLen ;;
                  buf <- (if 0 <? slen (Payload m)
                          then buf <- store buf 0 255 ;; advance buf 1
                          else Done buf) ;;
                  let buf := copy_into buf (sbytes (Payload m)) in
                  (* buf[7] = secoapcore.RSUM8(buf[:size]) *)
                  if (0 <=? size) && (size <=? len (window buf) + len spare) then
                    let sum := RSUM8 (upto size (window buf ++ spare)) in
                    buf <- store buf 7 sum ;;
                    Done (whole buf, (size, None))
                  else Panics
              | Some ErrTooSmall => Done (whole buf, (size, Some ErrTooSmall))
              | Some e => Done (whole buf, (-1, Some e))
              end
      end
  end.

Definition Decode (data : list Z) (m : Message) : Message * (Z * option error) :=
  let size := len data in
  match v2_parse data m with
  | (m, inl e) => (m, (-1, Some e))
  | (m, inr p) =>
      let m := mkMessage (Ver m) (p_token p) (Opts m) (p_code p) (p_payload p)
                         (p_messageID p) (p_typ p) (p_eid p) (p_etp p)
                         (p_crc16 p) (Rsum8 m) in
      if negb (Crc16 m =? CRC16Bytes (sbytes (Payload m))) then
        (m, (-1, Some ErrInvalidRCRC16))
      else (m, (size, None))
  end.

End coderv2.

(** src/unnamed/part_001: the same package with the header and the body
    written through a second variable [pbuf], [buf] staying on the whole
    frame, and with [m.Ver] set by [Decode]. *)
Module coderv2_pbuf.

Definition Size := v2_Size.

Definition Encode (m : Message) (buf : list Z)
  : outcome (list Z * (Z * option error)) :=
  match v2_validate m with
  | Some e => Done (buf, (-1, Some e))
  | None =>
      '(size, err) <- Size m ;;
      match err with
      | Some e => Done (buf, (-1, Some e))
      | None =>
          if len buf <? size then Done (buf, (size, Some ErrTooSmall))
          else
            let m := set_Crc16 m (CRC16Bytes (sbytes (Payload m))) in
            let pbuf := mkCursor [] buf in
            pbuf <- store_v2_header pbuf m ;;
            pbuf <- advance pbuf 8 ;;
            if MaxTokenSize <? slen (Token m) then
              Done (whole pbuf, (-1, Some ErrInvalidTokenLen))
            else
              let pbuf := copy_into pbuf (sbytes (Token m)) in
              pbuf <- advance pbuf (slen (Token m)) ;;
              '(w, (optionsLen, err)) <-
                 Options_Marshal (items (Opts m)) (Some (window pbuf)) ;;
              let pbuf := mkCursor (written pbuf) w in
              match err with
              | None =>
                  pbuf <- advance pbuf optionsLen ;;
                  pbuf <- (if 0 <? slen (Payload m)
                           then pbuf <- store pbuf 0 255 ;; advance pbuf 1
                           else Done pbuf) ;;
                  let pbuf := copy_into pbuf (sbytes (Payload m)) in
                  (* buf[7] = secoapcore.RSUM8(buf[0:size]) *)
                  let buf := mkCursor [] (whole pbuf) in
                  if (0 <=? size) && (size <=? len (window buf)) then
                    let sum := RSUM8 (upto size (window buf)) in
                    buf <- store buf 7 sum ;;
                    Done (whole buf, (size, None))
                  else Panics
              | Some ErrTooSmall => Done (whole pbuf, (size, Some ErrTooSmall))
              | Some e => Done (whole pbuf, (-1, Some e))
              end
      end
  end.

Definition Decode (data : list Z) (m : Message) : Message * (Z * option error) :=
  let size := len data in
  match v2_parse data m with
  | (m, inl e) => (m, (-1, Some e))
  | (m, inr p) =>
      let m := mkMessage Version2 (p_token p) (Opts m) (p_code p) (p_payload p)
                         (p_messageID p) (p_typ p) (p_eid p) (p_etp p)
                         (p_crc16 p) (Rsum8 m) in
      if negb (Crc16 m =? CRC16Bytes (sbytes (Payload m))) then
        (m, (-1, Some ErrInvalidRCRC16))
      else (m, (size, None))
  end.

End coderv2_pbuf.

(** ** The pooled message wrapper (package message) *)

Module message.

(** The wrapper around [secoapcore.Message]; the context and the body
    reader are left out, no accessor below reads them. *)
Record Message : Type := mkMessage {
  msg : secoapcore.Message;
  hijacked : bool;
  isModified : bool;
  valueBuffer : list Z;
  sequence : Z;
  bufferUnmarshal : list Z;
  bufferMarshal : list Z
}.

Definition with_msg (r : Message) (m : secoapcore.Message) (modified : bool)
  : Message :=
  mkMessage m (hijacked r) modified (valueBuffer r) (sequence r)
            (bufferUnmarshal r) (bufferMarshal r).

Definition Version (r : Message) : Z := Ver (msg r).

(** SetVersion only 0 to 2^2-1 are valid. *)
Definition SetVersion (r : Message) (ver : Z) : Message :=
  let m := msg r in
  with_msg r
    (secoapcore.mkMessage ver (Token m) (Opts m) (Code m) (Payload m)
       (MessageID m) (Type_ m) (EncoderID m) (EncoderType m) (Crc16 m) (Rsum8 m))
    true.

Definition UpsertVersion (r : Message) (ver : Z) : Message :=
  if ValidateVer ver then r else SetVersion r ver.

Definition MessageID (r : Message) : Z := secoapcore.MessageID (msg r).

(** SetMessageID only 0 to 2^16-1 are valid. *)
Definition SetMessageID (r : Message) (mid : Z) : Message :=
  let m := msg r in
  with_msg r
    (secoapcore.mkMessage (Ver m) (Token m) (Opts m) (Code m) (Payload m)
       mid (Type_ m) (EncoderID m) (EncoderType m) (Crc16 m) (Rsum8 m))
    true.

(** UpsertMessageID set value only when origin value is invalid. *)
Definition UpsertMessageID (r : Message) (mid : Z) : Message :=
  if ValidateMID (secoapcore.MessageID (msg r)) then r else SetMessageID r mid.

Definition Type_ (r : Message) : Z := secoapcore.Type_ (msg r).

Definition SetType (r : Message) (typ : Z) : Message :=
  let m := msg r in
  with_msg r
    (secoapcore.mkMessage (Ver m) (Token m) (Opts m) (Code m) (Payload m)
       (secoapcore.MessageID m) typ (EncoderID m) (EncoderType m) (Crc16 m) (Rsum8 m))
    true.

(** UpsertType set value only when origin value is invalid. *)
Definition UpsertType (r : Message) (typ : Z) : Message :=
  if ValidateType (secoapcore.Type_ (msg r)) then r else SetType r typ.

Definition SetEncoderID (r : Message) (eid : Z) : Message :=
  let m := msg r in
  with_msg r
    (secoapcore.mkMessage (Ver m) (Token m) (Opts m) (Code m) (Payload m)
       (secoapcore.MessageID m) (secoapcore.Type_ m) eid (EncoderType m)
       (Crc16 m) (Rsum8 m))
    true.

Definition UpsertEncoderID (r : Message) (eid : Z) : Message :=
  if ValidateEID (secoapcore.EncoderID (msg r)) then r else SetEncoderID r eid.

Definition EncoderID (r : Message) : Z := secoapcore.EncoderID (msg r).

Definition SetEncoderType (r : Message) (etp : Z) : Message :=
  let m := msg r in
  with_msg r
    (secoapcore.mkMessage (Ver m) (Token m) (Opts m) (Code m) (Payload m)
       (secoapcore.MessageID m) (secoapcore.Type_ m) (secoapcore.EncoderID m) etp
       (Crc16 m) (Rsum8 m))
    true.

Definition UpsertEncoderType (r : Message) (etp : Z) : Message :=
  if ValidateETP (secoapcore.EncoderType (msg r)) then r else SetEncoderType r etp.

Definition EncoderType (r : Message) : Z := secoapcore.EncoderType (msg r).

(** The [Decode] method of the interface [Decoder]. *)
Definition Decoder : Type :=
  list Z -> secoapcore.Message -> secoapcore.Message * (Z * option error).

(** [errors.Is(err, secoapcore.ErrOptionsTooSmall)]; the decoders return
    the error values themselves, none wraps one. *)
Definition is_ErrOptionsTooSmall (err : option error) : bool :=
  match err with
  | Some ErrOptionsTooSmall => true
  | _ => false
  end.

(** [decode]: the loop has no bound in the source; [None] says that [fuel]
    rounds did not end it. *)
Fixpoint decode (decoder : Decoder) (fuel : nat) (r : Message)
  : option (Message * (Z * option error)) :=
  match fuel with
  | O => None
  | S fuel =>
      let '(m, (n, err)) := decoder (bufferUnmarshal r) (msg r) in
      let r := with_msg r m (isModified r) in
      if is_ErrOptionsTooSmall err then
        (* increase buffer size and try again *)
        let opts := mkOptions [] (len (items (Opts (msg r))) * 2) in
        decode decoder fuel (with_msg r (set_Opts (msg r) opts) (isModified r))
      else Some (r, (n, err))
  end.

End message.

(** ** The option wire format (section 4.3 of the spec)

    The bytes an option occupies on the wire, written down as the format
    describes them; the encoders are compared with these below. *)

Definition ext_wire (opt ext : Z) : list Z :=
  if opt =? ExtendOptionByteCode then [byte ext]
  else if opt =? ExtendOptionWordCode then BigEndian_bytes16 (uint16 ext)
  else [].

Definition header_wire (delta length : Z) : list Z :=
  let '(d, dx) := extendOpt delta in
  let '(l, lx) := extendOpt length in
  [Z.lor (byte (Z.shiftl d 4)) (byte l)] ++ ext_wire d dx ++ ext_wire l lx.

Definition option_wire (prev : Z) (o : Option) (value : list Z) : list Z :=
  header_wire (ID o - prev) (len value) ++ value.

(** The options in the order given, each delta taken from the one before. *)
Fixpoint options_wire (prev : Z) (opts : list Option) : outcome (list Z) :=
  match opts with
  | [] => Done []
  | o :: rest =>
      value <- ToBytes o ;;
      w <- options_wire (ID o) rest ;;
      Done (option_wire prev o value ++ w)
  end.

(** The 0xFF separator and the payload. *)
Definition payload_wire (payload : option (list Z)) : list Z :=
  if 0 <? slen payload then 255 :: sbytes payload else [].

(** What a decoder makes of a token or payload: nil when empty. *)
Definition nil_if_empty (s : option (list Z)) : option (list Z) :=
  if slen s =? 0 then None else Some (sbytes s).

(** The version-0 frame of a message. *)
Definition v0_header (m : Message) : list Z :=
  [ byte (Type_ m);
    Z.lor (byte (Z.shiftl (EncoderID m) 4)) (byte (EncoderType m)) ]
  ++ LittleEndian_bytes16 (CRC16Bytes (sbytes (Payload m))).

Definition v0_frame (m : Message) : list Z :=
  v0_header m ++ sbytes (Payload m).

(** A version-0 message of type 4, a value [ValidateType] accepts. *)
Definition coreV0Type4 : Message :=
  mkMessage 0 None (mkOptions [] 16) Empty (Some [0; 1; 2]) 0 4 0 0 0 0.

(** A version-1 message of type 4. *)
Definition coreV1Type4 : Message :=
  mkMessage 0 None (mkOptions [] 16) GET None 4660 4 0 0 0 0.

(** A version-1 message of type 8. *)
Definition coreV1Type8 : Message :=
  mkMessage 0 None (mkOptions [] 16) GET None 4660 8 0 0 0 0.

(** Version 2, NonConfirmable POST, message id 1, encoder id 5, encoder
    type 0, no token, no option, payload "hi". *)
Definition coreV2PostHi : Message :=
  mkMessage 0 None (mkOptions [] 16) POST (Some [104; 105]) 1
            NonConfirmable 5 0 0 0.

(** A version-1 GET whose only option has number 2, which the registry does
    not list: 40 01 12 34 20. *)
Definition frameUnknownOption : list Z := [64; 1; 18; 52; 32].

(** A version-1 GET with an ETag of nine bytes, one more than the registry
    allows: 40 01 12 34 49 then the nine bytes. *)
Definition frameLongETag : list Z := [64; 1; 18; 52; 73; 1; 2; 3; 4; 5; 6; 7; 8; 9].

(** A version-1 GET with a Uri-Host option whose value is the empty
    string; the registry wants 1 to 255 bytes. *)
Definition coreEmptyHost : Message :=
  mkMessage 0 None (mkOptions [mkOption URIHost (VString [])] 16)
            GET None 4660 Confirmable 0 0 0 0.

(** A version-1 GET with Observe = 16777216, which takes four bytes; the
    registry allows three. *)
Definition coreWideObserve : Message :=
  mkMessage 0 None (mkOptions [mkOption Observe (VUint32 16777216)] 16)
            GET None 4660 Confirmable 0 0 0 0.

(** A version-1 POST with token, options out of order and a payload. *)
Definition coreFull : Message :=
  mkMessage 0 (Some [1; 2; 3])
    (mkOptions [mkOption URIQuery (VString [122; 61; 49]);
                mkOption URIPath (VString [112]);
                mkOption GiterLabID (VString [105; 100]);
                mkOption Observe (VUint32 256);
                mkOption URIPath (VString [113])] 16)
    POST (Some [104; 105]) 4660 NonConfirmable 0 0 0 0.

(** The version-2 frame of a message whose sorted options occupy [W],
    byte 7 still zero, and the frame with RSUM8 stored at byte 7. *)
Definition v2_frame0 (m : Message) (W : list Z) : list Z :=
  v2_header (set_Crc16 m (CRC16Bytes (sbytes (Payload m)))) ++
  sbytes (Token m) ++ W ++ payload_wire (Payload m).

Definition v2_frame (m : Message) (W : list Z) : list Z :=
  upto 7 (v2_header (set_Crc16 m (CRC16Bytes (sbytes (Payload m))))) ++
  RSUM8 (v2_frame0 m W) ::
  sbytes (Token m) ++ W ++ payload_wire (Payload m).

(** The separator before a payload: [0xff] iff the payload is not empty. *)
Definition separator (payload : option (list Z)) : list Z :=
  if 0 <? slen payload then [255] else [].

(** The sum that [RSUM8] reduces modulo 256. *)
Fixpoint complement_sum (data : list Z) : Z :=
  match data with
  | [] => 0
  | b :: data => Z.lnot b + complement_sum data
  end.

(** An Acknowledgement with the Empty code, message id 0x1234, no token,
    no option and no payload. *)
Definition coreEmptyAck : Message :=
  mkMessage 0 None (mkOptions [] 16) Empty None 4660 Acknowledgement 0 0 0 0.

(** An option whose value has a dynamic type that [ToBytes] accepts. *)
Definition marshalable (o : Option) : Prop := exists v, ToBytes o = Done v.

(** An option as [Option.Unmarshal] gives it back: its ID is in the
    registry, its value has the Go type the registered format decodes to
    (string, []byte, uint32), and the length of its bytes is within the
    registered bounds.  ContentFormat and Accept are left aside:
    [UnmarshalValue] assigns them a MediaType and then overwrites it with
    the uint32. *)
Definition canonical (o : Option) : Prop :=
  match lookup CoapOptionDefs (ID o) with
  | Some def =>
      match Format def, Value o with
      | ValueString, VString s => MinLen def <= len s <= MaxLen def
      | ValueOpaque, VBytes b => MinLen def <= len b <= MaxLen def
      | ValueEmpty, VBytes b => MinLen def <= len b <= MaxLen def
      | ValueUint, VUint32 v =>
          0 <= v < 4294967296 /\
          MinLen def <= len (encodeInt v) <= MaxLen def /\
          ID o <> ContentFormat /\ ID o <> Accept
      | _, _ => False
      end
  | None => False
  end.

(** IDs in nondecreasing order, starting at or above [prev]. *)
Fixpoint nondecreasing_from (prev : Z) (opts : list Option) : Prop :=
  match opts with
  | [] => True
  | o :: rest => prev <= ID o /\ nondecreasing_from (ID o) rest
  end.

(** The options with a given ID, in the order they have in the list. *)
Definition with_ID (id : Z) (opts : list Option) : list Option :=
  filter (fun o => ID o =? id) opts.

(** The version-1 frame of a message whose sorted options occupy [W]. *)
Definition v1_header (m : Message) : list Z :=
  [ Z.lor (Z.lor (Z.shiftl 1 6) (byte (Z.shiftl (byte (Type_ m)) 4)))
          (byte (Z.land 15 (slen (Token m))));
    byte (Code m) ] ++ BigEndian_bytes16 (uint16 (MessageID m)).

Definition v1_frame (m : Message) (W : list Z) : list Z :=
  v1_header m ++ sbytes (Token m) ++ W ++ payload_wire (Payload m).

(** ** Sample messages *)

(** [[]byte(s)] for a string literal. *)
Fixpoint bytes_of_string (s : string) : list Z :=
  match s with
  | EmptyString => []
  | String c s' => Z.of_nat (Ascii.nat_of_ascii c) :: bytes_of_string s'
  end.

(** A message as [message.NewMessage] makes it: no options yet, room for
    16, message id and type unset. *)
Definition sampleCore : Message :=
  mkMessage 0 None (mkOptions [] 16) 0 None (-1) Unset 0 0 0 0.

Definition sampleWrapper : message.Message :=
  message.mkMessage sampleCore false false [] 0 [] [].

(** Confirmable GET of /a/b, message id 0x1234, no token, no payload. *)
Definition legacyGetAB : secoap.Message :=
  secoap.AddOption
    (secoap.mkMessage None [] GET None 4660 Confirmable)
    URIPath (VStrings [bytes_of_string "a"; bytes_of_string "b"]).

Definition coreGetAB : Message :=
  mkMessage 0 None
    (mkOptions [mkOption URIPath (VString (bytes_of_string "a"));
                mkOption URIPath (VString (bytes_of_string "b"))] 16)
    GET None 4660 Confirmable 0 0 0 0.

(** A version-0 message: NonConfirmable, encoder id 5, encoder type 2,
    payload 00 01 02. *)
Definition coreV0Sample : Message :=
  mkMessage 0 None (mkOptions [] 16) Empty (Some [0; 1; 2]) 0 NonConfirmable
            5 2 0 0.

(** The number a byte string denotes, most significant byte first. *)
Definition big_endian_value (b : list Z) : Z :=
  fold_left (fun acc x => acc * 256 + x) b 0.

(** What [UnmarshalValue] stores for a value of a registered format
    ([ValueUnknown] is the format of no entry). *)
Definition stored_value (def : OptionDef) (data : list Z) : OptionValue :=
  match Format def with
  | ValueUint => VUint32 (decodeInt data)
  | ValueString => VString data
  | ValueOpaque | ValueEmpty | ValueUnknown => VBytes data
  end.

(** ** The version of a frame (secoapcore/msg_ver.go) *)

Definition errEmptyPayload : error := ErrorString "empty payload".

(** GetVersion gets the version from the payload. *)
Definition GetVersion (payload : list Z) : Z * option error :=
  if len payload =? 0 then (0, Some errEmptyPayload)
  else (Z.shiftr (at_ payload 0) 6, None).

(** The first byte a cursor has left behind it. *)
Definition has_first (b0 : Z) (c : cursor) : Prop :=
  exists tl, written c = b0 :: tl.

(** ** Payload encodings (the payload encoder file of secoapcore) *)

Definition EncoderTypeNoneUserDefine : string := "none/userdefine".
Definition EncoderTypeTextBase64 : string := "text/base64".
Definition EncoderTypeTextPlain : string := "text/plain".
Definition EncoderTypeTextHex : string := "text/hex".
Definition EncoderTypeApplicationOctetStream : string := "application/octet-stream".
Definition EncoderTypeApplicationProtobuf : string := "application/protobuf".
Definition EncoderTypeApplicationJson : string := "application/json".

(** Every inner [switch encoderID] has the one case 0; a call that matches
    no case falls through to the last [return]. *)
Definition GetEncoderType (encoderType encoderID : Z) : string :=
  let inner (name : string) :=
    if encoderID =? 0 then name else EncoderTypeNoneUserDefine in
  if encoderType =? 0 then inner EncoderTypeNoneUserDefine
  else if encoderType =? 1 then inner EncoderTypeTextBase64
  else if encoderType =? 2 then inner EncoderTypeTextPlain
  else if encoderType =? 3 then inner EncoderTypeTextHex
  else if encoderType =? 4 then inner EncoderTypeApplicationOctetStream
  else if encoderType =? 5 then inner EncoderTypeApplicationProtobuf
  else if encoderType =? 6 then inner EncoderTypeApplicationJson
  else EncoderTypeNoneUserDefine.

(** Returns [(encoderType, encoderID)]. *)
Definition GetEncoder (encoderTypeX : string) : Z * Z :=
  if String.eqb encoderTypeX EncoderTypeNoneUserDefine then (0, 0)
  else if String.eqb encoderTypeX EncoderTypeTextBase64 then (1, 0)
  else if String.eqb encoderTypeX EncoderTypeTextPlain then (2, 0)
  else if String.eqb encoderTypeX EncoderTypeTextHex then (3, 0)
  else if String.eqb encoderTypeX EncoderTypeApplicationOctetStream then (4, 0)
  else if String.eqb encoderTypeX EncoderTypeApplicationProtobuf then (5, 0)
  else if String.eqb encoderTypeX EncoderTypeApplicationJson then (6, 0)
  else (0, 0).

(** The names [GetEncoder] knows. *)
Definition encoder_names : list string :=
  [ EncoderTypeNoneUserDefine; EncoderTypeTextBase64; EncoderTypeTextPlain;
    EncoderTypeTextHex; EncoderTypeApplicationOctetStream;
    EncoderTypeApplicationProtobuf; EncoderTypeApplicationJson ].

(** An option as the legacy [parseOptionValue] gives it back: its ID is in
    the registry, its value has the Go type the registered format decodes
    to (string, []byte, uint32, and MediaType for ContentFormat and
    Accept), and the length of its bytes is within the registered
    bounds. *)
Definition legacy_canonical (o : Option) : Prop :=
  match lookup CoapOptionDefs (ID o) with
  | Some def =>
      match Format def, Value o with
      | ValueString, VString s => MinLen def <= len s <= MaxLen def
      | ValueOpaque, VBytes b => MinLen def <= len b <= MaxLen def
      | ValueEmpty, VBytes b => MinLen def <= len b <= MaxLen def
      | ValueUint, VUint32 v =>
          0 <= v < 4294967296 /\
          MinLen def <= len (encodeInt v) <= MaxLen def /\
          ID o <> ContentFormat /\ ID o <> Accept
      | ValueUint, VMediaType v =>
          0 <= v < 65536 /\
          MinLen def <= len (encodeInt v) <= MaxLen def /\
          (ID o = ContentFormat \/ ID o = Accept)
      | _, _ => False
      end
  | None => False
  end.

(** The legacy frame of a message whose sorted options occupy [W]. *)
Definition legacy_frame (m : secoap.Message) (W : list Z) : list Z :=
  [ Z.lor (Z.lor (Z.shiftl 1 6) (byte (Z.shiftl (byte (secoap.Type_ m)) 4)))
          (byte (Z.land 15 (slen (secoap.Token m))));
    byte (secoap.Code m) ] ++
  BigEndian_bytes16 (uint16 (secoap.MessageID m)) ++
  sbytes (secoap.Token m) ++ W ++ payload_wire (secoap.Payload m).

(** GET of /a/b with a one-byte token, an Observe option and a payload,
    the options not in order. *)
Definition legacySample : secoap.Message :=
  secoap.mkMessage (Some [7])
    [mkOption URIPath (VString [97]); mkOption Observe (VUint32 5);
     mkOption URIPath (VString [98]); mkOption ContentFormat (VMediaType 50)]
    GET (Some [104; 105]) 4660 NonConfirmable.

(** An option on the wire, before any registry is consulted: its number
    and its value bytes. *)
Definition raw_option (r : Z * list Z) : Option :=
  mkOption (fst r) (VBytes (snd r)).

(** Numbers in nondecreasing order whose gaps and value lengths the option
    header can carry. *)
Fixpoint encodable_from (prev : Z) (raws : list (Z * list Z)) : Prop :=
  match raws with
  | [] => True
  | r :: rest =>
      0 <= fst r - prev <= 65804 /\ fst r < 4294967296 /\
      len (snd r) <= 65804 /\ encodable_from (fst r) rest
  end.

(** The options the legacy decoder keeps of those on the wire. *)
Definition kept_by_legacy (raws : list (Z * list Z)) : list Option :=
  flat_map (fun r => match parseOptionValue (fst r) (snd r) with
                     | Some v => [mkOption (fst r) v]
                     | None => []
                     end) raws.

(** A frame with an option the registry does not list (number 2), an ETag
    that is too long (9 bytes) and a Uri-Path. *)
Definition rawSample : list (Z * list Z) :=
  [ (2, [1]); (ETag, [1; 2; 3; 4; 5; 6; 7; 8; 9]); (URIPath, [97]) ].

(** An option with a value that [parseOptionValue] returns for its ID. *)
Definition parsed_value (o : Option) : Prop :=
  exists b, parseOptionValue (ID o) b = Some (Value o).

(** ** Names of types, versions and options *)

(** A Go map with string values.  The literal lists the entries; [range]
    visits them in an order the language does not fix, so a function that
    ranges over such a map takes the order of the visit as an argument. *)
Definition names : Type := list (Z * string).

(** [str, ok := m[k]] *)
Fixpoint name_of (m : names) (k : Z) : option string :=
  match m with
  | [] => None
  | (key, val) :: rest => if key =? k then Some val else name_of rest k
  end.

(** [for key, val := range m { if val == v { return key, nil } }]
    and then [return 0, errors.New(...)]. *)
Fixpoint range_find (visit : names) (v : string) : Z * option error :=
  match visit with
  | [] => (0, Some (ErrorString "not found"))
  | (key, val) :: rest =>
      if String.eqb val v then (key, None) else range_find rest v
  end.

(** [strconv.FormatInt(i, 10)] *)
Definition FormatInt10 (i : Z) : string := NilZero.string_of_int (Z.to_int i).

Definition typeToString : names :=
  [ (Unset, "Unset"%string);
    (Confirmable, "Confirmable"%string);
    (NonConfirmable, "NonConfirmable"%string);
    (Acknowledgement, "Acknowledgement"%string);
    (Reset, "Reset"%string) ].

Definition Type_String (c : Z) : string :=
  match name_of typeToString c with
  | None => String.append "Type(" (String.append (FormatInt10 c) ")")
  | Some str => str
  end.

Definition ToType (visit : names) (v : string) : Z * option error :=
  range_find visit v.

Definition verToString : names :=
  [ (Version0, "Ver0"%string); (Version1, "Ver1"%string); (Version2, "Ver2"%string) ].

Definition Ver_String (c : Z) : string :=
  match name_of verToString c with
  | None => String.append "Ver(" (String.append (FormatInt10 c) ")")
  | Some str => str
  end.

Definition ToVer (visit : names) (v : string) : Z * option error :=
  range_find visit v.

Definition optionIDToString : names :=
  [ (IfMatch, "IfMatch"%string);
    (URIHost, "URIHost"%string);
    (ETag, "ETag"%string);
    (IfNoneMatch, "IfNoneMatch"%string);
    (Observe, "Observe"%string);
    (URIPort, "URIPort"%string);
    (LocationPath, "LocationPath"%string);
    (URIPath, "URIPath"%string);
    (ContentFormat, "ContentFormat"%string);
    (MaxAge, "MaxAge"%string);
    (URIQuery, "URIQuery"%string);
    (Accept, "Accept"%string);
    (LocationQuery, "LocationQuery"%string);
    (Block2, "Block2"%string);
    (Block1, "Block1"%string);
    (Size2, "Size2"%string);
    (ProxyURI, "ProxyURI"%string);
    (ProxyScheme, "ProxyScheme"%string);
    (Size1, "Size1"%string);
    (NoResponse, "NoResponse"%string);
    (GiterLabID, "GiterLabID"%string);
    (GiterLabKey, "GiterLabKey"%string);
    (AccessID, "AccessID"%string);
    (AccessKey, "AccessKey"%string);
    (CheckCRC32, "CheckCRC32"%string);
    (EncoderTypeOpt, "EncoderType"%string);
    (EncoderIDOpt, "EncoderID"%string);
    (PackageNumber, "PackageNumber"%string) ].

Definition OptionID_String (o : Z) : string :=
  match name_of optionIDToString o with
  | None => String.append "Option(" (String.append (FormatInt10 o) ")")
  | Some str => str
  end.

Definition ToOptionID (visit : names) (v : string) : Z * option error :=
  range_find visit v.

(** * Properties *)

(** ** Byte arithmetic *)

Lemma land_mul_pow2_small (a b n : Z) :
  0 <= n -> 0 <= b < 2 ^ n -> Z.land (a * 2 ^ n) b = 0.
Proof.
  intros Hn Hb.
  apply Z.bits_inj'. intros k Hk. rewrite Z.land_spec, Z.bits_0.
  destruct (Z.lt_ge_cases k n) as [Hlt | Hge].
  - rewrite Z.mul_pow2_bits_low by assumption. reflexivity.
  - assert (Z.testbit b k = false) as ->; [|apply andb_false_r].
    destruct (Z.eq_dec b 0) as [-> | Hnz]; [apply Z.bits_0|].
    apply Z.bits_above_log2; [lia|].
    apply Z.log2_lt_pow2; [lia|].
    apply Z.lt_le_trans with (2 ^ n); [lia|].
    apply Z.pow_le_mono_r; lia.
Qed.

Lemma lor_shiftl_add (a b n : Z) :
  0 <= n -> 0 <= b < 2 ^ n -> Z.lor b (Z.shiftl a n) = a * 2 ^ n + b.
Proof.
  intros Hn Hb.
  rewrite Z.shiftl_mul_pow2 by assumption.
  pose proof (land_mul_pow2_small a b n Hn Hb) as Hland.
  rewrite Z.lor_comm, <- Z.lxor_lor by assumption.
  symmetry. apply Z.add_nocarry_lxor. assumption.
Qed.

Lemma len_nil {A} : len (@nil A) = 0.
Proof. reflexivity. Qed.

Lemma len_cons {A} (x : A) l : len (x :: l) = 1 + len l.
Proof. unfold len. cbn [length]. lia. Qed.

Lemma len_app {A} (l1 l2 : list A) : len (l1 ++ l2) = len l1 + len l2.
Proof. unfold len. rewrite length_app. lia. Qed.

Lemma len_nonneg {A} (l : list A) : 0 <= len l.
Proof. unfold len. lia. Qed.

Lemma copy_prefix (src buf : list Z) :
  (length src <= length buf)%nat ->
  copy buf src = src ++ skipn (length src) buf.
Proof.
  intros H. unfold copy. rewrite firstn_all2 by assumption. reflexivity.
Qed.

Lemma copy_length (dst src : list Z) : length (copy dst src) = length dst.
Proof.
  unfold copy. rewrite length_app, length_firstn, length_skipn. lia.
Qed.

Lemma byte_small (x : Z) : 0 <= x < 256 -> byte x = x.
Proof. intros H. unfold byte. apply Z.mod_small. assumption. Qed.

Lemma byte_range (x : Z) : 0 <= byte x < 256.
Proof. unfold byte. apply Z.mod_pos_bound. lia. Qed.

Lemma BigEndian_Uint16_bytes (a b : Z) :
  0 <= b < 256 -> BigEndian_Uint16 [a; b] = a * 256 + b.
Proof.
  intros Hb. unfold BigEndian_Uint16, at_. cbn [nth].
  rewrite lor_shiftl_add by lia. reflexivity.
Qed.

Lemma LittleEndian_Uint16_bytes (a b : Z) :
  0 <= a < 256 -> LittleEndian_Uint16 [a; b] = b * 256 + a.
Proof.
  intros Ha. unfold LittleEndian_Uint16, at_. cbn [nth].
  rewrite lor_shiftl_add by lia. reflexivity.
Qed.

Lemma BigEndian_Uint32_bytes (a b c d : Z) :
  0 <= b < 256 -> 0 <= c < 256 -> 0 <= d < 256 ->
  BigEndian_Uint32 [a; b; c; d] = a * 16777216 + b * 65536 + c * 256 + d.
Proof.
  intros Hb Hc Hd. unfold BigEndian_Uint32, at_. cbn [nth].
  rewrite (lor_shiftl_add c d 8) by lia.
  rewrite (lor_shiftl_add b _ 16) by lia.
  rewrite (lor_shiftl_add a _ 24) by lia.
  lia.
Qed.

Lemma shiftr_8 (v : Z) : Z.shiftr v 8 = v / 256.
Proof. rewrite Z.shiftr_div_pow2 by lia. reflexivity. Qed.

Lemma shiftr_16 (v : Z) : Z.shiftr v 16 = v / 65536.
Proof. rewrite Z.shiftr_div_pow2 by lia. reflexivity. Qed.

Lemma shiftr_24 (v : Z) : Z.shiftr v 24 = v / 16777216.
Proof. rewrite Z.shiftr_div_pow2 by lia. reflexivity. Qed.

Lemma BigEndian_bytes16_small (v : Z) :
  0 <= v < 65536 -> BigEndian_bytes16 v = [v / 256; v mod 256].
Proof.
  intros H. unfold BigEndian_bytes16. rewrite shiftr_8. unfold byte.
  rewrite (Z.mod_small (v / 256)); [reflexivity|].
  split; [apply Z.div_pos; lia | apply Z.div_lt_upper_bound; lia].
Qed.

Lemma BigEndian_bytes32_small (v : Z) :
  0 <= v < 4294967296 ->
  BigEndian_bytes32 v =
    [v / 16777216; (v / 65536) mod 256; (v / 256) mod 256; v mod 256].
Proof.
  intros H. unfold BigEndian_bytes32. rewrite shiftr_8, shiftr_16, shiftr_24.
  unfold byte.
  rewrite (Z.mod_small (v / 16777216)); [reflexivity|].
  split; [apply Z.div_pos; lia | apply Z.div_lt_upper_bound; lia].
Qed.

Lemma upto_app (l rest : list Z) : upto (len l) (l ++ rest) = l.
Proof.
  unfold upto, len. rewrite Nat2Z.id, firstn_app, Nat.sub_diag, firstn_all.
  cbn [firstn]. apply app_nil_r.
Qed.

Lemma from_app (l rest : list Z) : from (len l) (l ++ rest) = rest.
Proof.
  unfold from, len. rewrite Nat2Z.id, skipn_app, Nat.sub_diag, skipn_all.
  reflexivity.
Qed.

Lemma copy_fits (buf src : list Z) :
  len src <= len buf -> copy buf src = src ++ from (len src) buf.
Proof.
  intros H. unfold from, len in *. rewrite Nat2Z.id. apply copy_prefix. lia.
Qed.

(** ** Variable-length unsigned integers *)

Lemma minimal_big_endian_len (v : Z) :
  0 <= v ->
  len (minimal_big_endian v) =
    if v =? 0 then 0 else if v <=? 255 then 1 else if v <=? 65535 then 2
    else if v <=? 16777215 then 3 else 4.
Proof.
  intros _. unfold minimal_big_endian.
  repeat match goal with |- context [if ?c then _ else _] => destruct c end;
    reflexivity.
Qed.

Lemma EncodeUint32_writes (v : Z) (buf : list Z) :
  0 <= v < 4294967296 ->
  len (minimal_big_endian v) <= len buf ->
  EncodeUint32 buf v =
    (minimal_big_endian v ++ from (len (minimal_big_endian v)) buf,
     (len (minimal_big_endian v), None)).
Proof.
  intros Hv Hfit. pose proof (len_nonneg buf) as Hnn.
  unfold EncodeUint32, minimal_big_endian, max1ByteNumber, max2ByteNumber,
    max3ByteNumber in *.
  destruct (Z.eqb_spec v 0) as [-> | Hnz]; [reflexivity|].
  destruct (Z.leb_spec v 255) as [H1 | H1].
  { change (len [v]) with 1 in *.
    destruct (Z.ltb_spec (len buf) 1); [lia|].
    rewrite byte_small by lia. rewrite copy_fits by (change (len [v]) with 1; lia).
    reflexivity. }
  destruct (Z.leb_spec v 65535) as [H2 | H2].
  { change (len [v / 256; v mod 256]) with 2 in *.
    destruct (Z.ltb_spec (len buf) 2); [lia|].
    unfold uint16. rewrite (Z.mod_small v) by lia.
    rewrite BigEndian_bytes16_small by lia.
    rewrite copy_fits by (change (len [v / 256; v mod 256]) with 2; lia).
    reflexivity. }
  destruct (Z.leb_spec v 16777215) as [H3 | H3].
  { change (len [v / 65536; (v / 256) mod 256; v mod 256]) with 3 in *.
    destruct (Z.ltb_spec (len buf) 3); [lia|].
    rewrite BigEndian_bytes32_small by lia.
    change (from 1 [v / 16777216; (v / 65536) mod 256; (v / 256) mod 256; v mod 256])
      with [(v / 65536) mod 256; (v / 256) mod 256; v mod 256].
    rewrite (Z.mod_small (v / 65536)).
    2:{ split; [apply Z.div_pos; lia | apply Z.div_lt_upper_bound; lia]. }
    rewrite copy_fits
      by (change (len [v / 65536; (v / 256) mod 256; v mod 256]) with 3; lia).
    reflexivity. }
  change (len [v / 16777216; (v / 65536) mod 256; (v / 256) mod 256; v mod 256])
    with 4 in *.
  destruct (Z.ltb_spec (len buf) 4); [lia|].
  rewrite BigEndian_bytes32_small by lia.
  rewrite copy_fits
    by (change (len [v / 16777216; (v / 65536) mod 256; (v / 256) mod 256; v mod 256])
          with 4; lia).
  reflexivity.
Qed.

Lemma DecodeUint32_1 (d : Z) :
  DecodeUint32 [d] = (BigEndian_Uint32 [0; 0; 0; d], 1, None).
Proof. reflexivity. Qed.

Lemma DecodeUint32_2 (c d : Z) :
  DecodeUint32 [c; d] = (BigEndian_Uint32 [0; 0; c; d], 2, None).
Proof. reflexivity. Qed.

Lemma DecodeUint32_3 (b c d : Z) :
  DecodeUint32 [b; c; d] = (BigEndian_Uint32 [0; b; c; d], 3, None).
Proof. reflexivity. Qed.

Lemma DecodeUint32_4 (a b c d : Z) :
  DecodeUint32 [a; b; c; d] = (BigEndian_Uint32 [a; b; c; d], 4, None).
Proof. reflexivity. Qed.

Lemma div_256_range (v k : Z) : 0 <= v < 256 * k -> 0 < k -> 0 <= v / k < 256.
Proof.
  intros Hv Hk. split; [apply Z.div_pos; lia | apply Z.div_lt_upper_bound; lia].
Qed.

Lemma DecodeUint32_minimal (v : Z) :
  0 <= v < 4294967296 ->
  DecodeUint32 (minimal_big_endian v) = (v, len (minimal_big_endian v), None).
Proof.
  intros Hv. unfold minimal_big_endian.
  pose proof (Z.mod_pos_bound v 256 ltac:(lia)) as B0.
  pose proof (Z.mod_pos_bound (v / 256) 256 ltac:(lia)) as B1.
  pose proof (Z.mod_pos_bound (v / 65536) 256 ltac:(lia)) as B2.
  pose proof (Z.div_mod v 256 ltac:(lia)) as D0.
  pose proof (Z.div_mod (v / 256) 256 ltac:(lia)) as D1.
  pose proof (Z.div_mod (v / 65536) 256 ltac:(lia)) as D2.
  assert (v / 256 / 256 = v / 65536) as E1 by (rewrite Z.div_div by lia; reflexivity).
  assert (v / 65536 / 256 = v / 16777216) as E2 by (rewrite Z.div_div by lia; reflexivity).
  destruct (Z.eqb_spec v 0) as [-> | Hnz]; [reflexivity|].
  destruct (Z.leb_spec v 255) as [H1 | H1].
  { rewrite DecodeUint32_1, BigEndian_Uint32_bytes by lia. reflexivity. }
  destruct (Z.leb_spec v 65535) as [H2 | H2].
  { pose proof (div_256_range v 256 ltac:(lia) ltac:(lia)).
    rewrite DecodeUint32_2, BigEndian_Uint32_bytes by lia.
    f_equal. f_equal. lia. }
  destruct (Z.leb_spec v 16777215) as [H3 | H3].
  { pose proof (div_256_range v 65536 ltac:(lia) ltac:(lia)).
    rewrite DecodeUint32_3, BigEndian_Uint32_bytes by lia.
    f_equal. f_equal. lia. }
  rewrite DecodeUint32_4, BigEndian_Uint32_bytes by lia.
  f_equal. f_equal. lia.
Qed.

(** C8.  For every uint32 value, [EncodeUint32] writes the minimal
    big-endian encoding (no byte for 0, one byte up to 255, two up to 65535,
    three up to 16777215 with the high byte dropped, four above) and returns
    that count; [DecodeUint32] on exactly those bytes returns the value. *)
Theorem EncodeUint32_minimal_and_DecodeUint32_inverse (v : Z) (buf : list Z) :
  0 <= v < 4294967296 ->
  len (minimal_big_endian v) <= len buf ->
  let n := len (minimal_big_endian v) in
  EncodeUint32 buf v = (minimal_big_endian v ++ from n buf, (n, None)) /\
  (v = 0 -> n = 0) /\
  (1 <= v <= 255 -> n = 1) /\
  (256 <= v <= 65535 -> n = 2) /\
  (65536 <= v <= 16777215 -> n = 3) /\
  (16777216 <= v -> n = 4) /\
  DecodeUint32 (upto n (fst (EncodeUint32 buf v))) = (v, n, None).
Proof.
  intros Hv Hfit n.
  pose proof (minimal_big_endian_len v ltac:(lia)) as Hn. fold n in Hn.
  rewrite EncodeUint32_writes by assumption. fold n.
  split; [reflexivity|].
  assert (forall k, (if v =? 0 then 0 else if v <=? 255 then 1
                     else if v <=? 65535 then 2
                     else if v <=? 16777215 then 3 else 4) = k -> n = k) as Hk
    by (intros k <-; exact Hn).
  repeat (split;
    [intros Hr; apply Hk;
     repeat match goal with
            | |- context [?a =? ?b] => destruct (Z.eqb_spec a b); try lia
            | |- context [?a <=? ?b] => destruct (Z.leb_spec a b); try lia
            end; reflexivity|]).
  cbn [fst]. unfold n. rewrite upto_app. apply DecodeUint32_minimal. assumption.
Qed.

Lemma EncodeUint32_minimal_and_DecodeUint32_inverse_witness :
  EncodeUint32 [9; 9; 9; 9] 65536 = ([1; 0; 0; 9], (3, None)) /\
  DecodeUint32 [1; 0; 0] = (65536, 3, None).
Proof.
  destruct (EncodeUint32_minimal_and_DecodeUint32_inverse 65536 [9; 9; 9; 9])
    as (He & _ & _ & _ & _ & _ & Hd).
  - lia.
  - vm_compute. intros H; discriminate H.
  - split; [exact He | exact Hd].
Defined.

(** ** The upsert accessors of the message wrapper *)

Lemma ValidateVer_spec (v : Z) : ValidateVer v = true <-> 0 <= v <= 3.
Proof.
  unfold ValidateVer. change (Z.shiftl 1 2 - 1) with 3.
  rewrite andb_true_iff, !Z.leb_le. reflexivity.
Qed.

Lemma ValidateMID_spec (v : Z) : ValidateMID v = true <-> 0 <= v <= 65535.
Proof.
  unfold ValidateMID, MaxUint16.
  rewrite andb_true_iff, !Z.leb_le. reflexivity.
Qed.

Lemma ValidateType_spec (v : Z) : ValidateType v = true <-> 0 <= v <= 255.
Proof.
  unfold ValidateType, MaxUint8.
  rewrite andb_true_iff, !Z.leb_le. reflexivity.
Qed.

Lemma ValidateEID_spec (v : Z) : ValidateEID v = true <-> 0 <= v <= 15.
Proof.
  unfold ValidateEID. change (Z.shiftl 1 4 - 1) with 15.
  rewrite andb_true_iff, !Z.leb_le. reflexivity.
Qed.

Lemma ValidateETP_spec (v : Z) : ValidateETP v = true <-> 0 <= v <= 15.
Proof.
  unfold ValidateETP. change (Z.shiftl 1 4 - 1) with 15.
  rewrite andb_true_iff, !Z.leb_le. reflexivity.
Qed.

(** C10.  [UpsertVersion] validates its argument, not the stored version:
    a valid argument (0..3) leaves the message as it is, an invalid one is
    assigned through [SetVersion]; so whenever the call changes the stored
    version the new version is invalid.  [UpsertMessageID] and [UpsertType]
    test the stored field instead and fill it in while it is unset. *)
Theorem UpsertVersion_validates_argument (r : message.Message) (ver : Z) :
  (0 <= ver <= 3 -> message.UpsertVersion r ver = r) /\
  (~ 0 <= ver <= 3 ->
   message.UpsertVersion r ver = message.SetVersion r ver /\
   message.Version (message.UpsertVersion r ver) = ver /\
   message.isModified (message.UpsertVersion r ver) = true) /\
  (message.Version (message.UpsertVersion r ver) <> message.Version r ->
   ValidateVer (message.Version (message.UpsertVersion r ver)) = false) /\
  (forall mid, ValidateMID (message.MessageID r) = false ->
     message.MessageID (message.UpsertMessageID r mid) = mid) /\
  (forall typ, ValidateType (message.Type_ r) = false ->
     message.Type_ (message.UpsertType r typ) = typ).
Proof.
  unfold message.UpsertVersion, message.UpsertMessageID, message.UpsertType.
  repeat split.
  - intros Hv. apply ValidateVer_spec in Hv. rewrite Hv. reflexivity.
  - destruct (ValidateVer ver) eqn:E; [|reflexivity].
    apply ValidateVer_spec in E. contradiction.
  - destruct (ValidateVer ver) eqn:E; [|reflexivity].
    apply ValidateVer_spec in E. contradiction.
  - destruct (ValidateVer ver) eqn:E; [|reflexivity].
    apply ValidateVer_spec in E. contradiction.
  - destruct (ValidateVer ver) eqn:E; [intros Hne; contradiction Hne; reflexivity|].
    intros _. exact E.
  - intros mid Hm. unfold message.MessageID in *. rewrite Hm. reflexivity.
  - intros typ Ht. unfold message.Type_ in *. rewrite Ht. reflexivity.
Qed.

Lemma UpsertVersion_validates_argument_witness :
  message.UpsertVersion sampleWrapper 2 = sampleWrapper /\
  message.Version (message.UpsertVersion sampleWrapper 7) = 7 /\
  message.MessageID (message.UpsertMessageID sampleWrapper 4660) = 4660 /\
  message.Type_ (message.UpsertType sampleWrapper 1) = 1.
Proof.
  destruct (UpsertVersion_validates_argument sampleWrapper 2) as (H2 & _ & _ & Hm & Ht).
  destruct (UpsertVersion_validates_argument sampleWrapper 7) as (_ & H7 & _).
  split; [apply H2; lia|].
  split; [apply H7; lia|].
  split; [apply Hm; reflexivity | apply Ht; reflexivity].
Defined.

(** ** Extended option deltas and lengths *)

Lemma extendOpt_direct (v : Z) : v <= 12 -> extendOpt v = (v, 0).
Proof.
  intros H. unfold extendOpt, ExtendOptionByteAddend.
  destruct (Z.leb_spec 13 v); [lia | reflexivity].
Qed.

Lemma extendOpt_byte (v : Z) : 13 <= v <= 268 -> extendOpt v = (13, v - 13).
Proof.
  intros H. unfold extendOpt, ExtendOptionByteAddend, ExtendOptionWordAddend.
  destruct (Z.leb_spec 13 v); [|lia].
  destruct (Z.leb_spec 269 v); [lia | reflexivity].
Qed.

Lemma extendOpt_word (v : Z) : 269 <= v -> extendOpt v = (14, v - 269).
Proof.
  intros H. unfold extendOpt, ExtendOptionByteAddend, ExtendOptionWordAddend.
  destruct (Z.leb_spec 13 v); [|lia].
  destruct (Z.leb_spec 269 v); [reflexivity | lia].
Qed.

Lemma marshalOptionHeaderExt_direct (buf : list Z) (opt ext : Z) :
  opt <> 13 -> opt <> 14 -> marshalOptionHeaderExt buf opt ext = (buf, (0, None)).
Proof.
  intros H13 H14. unfold marshalOptionHeaderExt, ExtendOptionByteCode, ExtendOptionWordCode.
  destruct (Z.eqb_spec opt 13); [contradiction|].
  destruct (Z.eqb_spec opt 14); [contradiction|]. reflexivity.
Qed.

Lemma marshalOptionHeaderExt_byte (buf : list Z) (ext : Z) :
  1 <= len buf -> 0 <= ext < 256 ->
  marshalOptionHeaderExt buf 13 ext = (ext :: from 1 buf, (1, None)).
Proof.
  intros Hl He. unfold marshalOptionHeaderExt. cbn [ExtendOptionByteCode Z.eqb Pos.eqb].
  destruct (Z.ltb_spec 0 (len buf)); [|lia].
  rewrite byte_small by assumption.
  rewrite copy_fits by (change (len [ext]) with 1; lia). reflexivity.
Qed.

Lemma marshalOptionHeaderExt_word (buf : list Z) (ext : Z) :
  2 <= len buf -> 0 <= ext < 65536 ->
  marshalOptionHeaderExt buf 14 ext = (ext / 256 :: ext mod 256 :: from 2 buf, (2, None)).
Proof.
  intros Hl He. unfold marshalOptionHeaderExt.
  cbn [ExtendOptionByteCode ExtendOptionWordCode Z.eqb Pos.eqb].
  destruct (Z.ltb_spec 1 (len buf)); [|lia].
  unfold uint16. rewrite Z.mod_small by assumption.
  rewrite BigEndian_bytes16_small by assumption.
  rewrite copy_fits by (change (len [ext / 256; ext mod 256]) with 2; lia).
  reflexivity.
Qed.

Lemma parseExtOpt_direct (data : list Z) (opt : Z) :
  opt <> 13 -> opt <> 14 -> parseExtOpt data opt = (0, opt, None).
Proof.
  intros H13 H14. unfold parseExtOpt, ExtendOptionByteCode, ExtendOptionWordCode.
  destruct (Z.eqb_spec opt 13); [contradiction|].
  destruct (Z.eqb_spec opt 14); [contradiction|]. reflexivity.
Qed.

Lemma parseExtOpt_byte (x : Z) (rest : list Z) :
  parseExtOpt (x :: rest) 13 = (1, x + 13, None).
Proof.
  unfold parseExtOpt. cbn [ExtendOptionByteCode Z.eqb Pos.eqb].
  rewrite len_cons. pose proof (len_nonneg rest).
  destruct (Z.ltb_spec (1 + len rest) 1); [lia | reflexivity].
Qed.

Lemma parseExtOpt_word (a b : Z) (rest : list Z) :
  0 <= b < 256 ->
  parseExtOpt (a :: b :: rest) 14 = (2, a * 256 + b + 269, None).
Proof.
  intros Hb. unfold parseExtOpt.
  cbn [ExtendOptionByteCode ExtendOptionWordCode Z.eqb Pos.eqb].
  rewrite !len_cons. pose proof (len_nonneg rest).
  destruct (Z.ltb_spec (1 + (1 + len rest)) 2); [lia|].
  change (upto 2 (a :: b :: rest)) with [a; b].
  rewrite BigEndian_Uint16_bytes by assumption. reflexivity.
Qed.

Lemma parseOptions_reserved_nibble (fuel : nat) (opts : list Option)
  (b0 : Z) (rest : list Z) (prev : Z) :
  b0 <> 255 ->
  Z.shiftr b0 4 = 15 \/ Z.land b0 15 = 15 ->
  secoap.parseOptions (S fuel) opts (b0 :: rest) prev =
    (opts, (b0 :: rest, Some secoap.errUnexpectedMarker)).
Proof.
  intros Hff Hn. cbn [secoap.parseOptions].
  destruct (Z.eqb_spec b0 255); [contradiction|].
  unfold ExtendOptionError.
  destruct Hn as [-> | ->]; [reflexivity|].
  rewrite orb_true_r. reflexivity.
Qed.

(** C7 (as amended).  For a delta or length [v] between 0 and 65804:
    up to 12 it is its own nibble and no extension byte is written; from 13
    to 268 the nibble is 13 and one extension byte carries [v - 13]; from
    269 on the nibble is 14 and two big-endian extension bytes carry
    [v - 269]; [parseExtOpt] reads [v] back from what was written.  In the
    option loop of the decoder a header byte other than 0xFF with nibble 15
    as delta or as length stops the parse with the unexpected-marker
    error. *)
Theorem extendOpt_parseExtOpt_inverse_within_word :
  (forall (v : Z) (buf rest : list Z),
     0 <= v <= 65804 ->
     (v <= 12 ->
      extendOpt v = (v, 0) /\
      marshalOptionHeaderExt buf v 0 = (buf, (0, None)) /\
      parseExtOpt rest v = (0, v, None)) /\
     (13 <= v <= 268 ->
      extendOpt v = (13, v - 13) /\
      (1 <= len buf ->
       marshalOptionHeaderExt buf 13 (v - 13) = ((v - 13) :: from 1 buf, (1, None))) /\
      parseExtOpt ((v - 13) :: rest) 13 = (1, v, None)) /\
     (269 <= v ->
      extendOpt v = (14, v - 269) /\
      (2 <= len buf ->
       marshalOptionHeaderExt buf 14 (v - 269) =
         ((v - 269) / 256 :: (v - 269) mod 256 :: from 2 buf, (2, None))) /\
      parseExtOpt ((v - 269) / 256 :: (v - 269) mod 256 :: rest) 14 = (2, v, None))) /\
  (forall (fuel : nat) (opts : list Option) (b0 : Z) (rest : list Z) (prev : Z),
     b0 <> 255 ->
     Z.shiftr b0 4 = 15 \/ Z.land b0 15 = 15 ->
     secoap.parseOptions (S fuel) opts (b0 :: rest) prev =
       (opts, (b0 :: rest, Some secoap.errUnexpectedMarker))).
Proof.
  split; [|exact parseOptions_reserved_nibble].
  intros v buf rest Hv. split; [|split].
  - intros H. split; [apply extendOpt_direct; assumption|].
    split; [apply marshalOptionHeaderExt_direct; lia | apply parseExtOpt_direct; lia].
  - intros H. split; [apply extendOpt_byte; assumption|].
    split; [intros Hl; apply marshalOptionHeaderExt_byte; lia|].
    rewrite parseExtOpt_byte. f_equal. f_equal. lia.
  - intros H. split; [apply extendOpt_word; assumption|].
    split; [intros Hl; apply marshalOptionHeaderExt_word; lia|].
    pose proof (Z.mod_pos_bound (v - 269) 256 ltac:(lia)).
    rewrite parseExtOpt_word by assumption. f_equal. f_equal.
    pose proof (Z.div_mod (v - 269) 256 ltac:(lia)). lia.
Qed.

Lemma extendOpt_parseExtOpt_inverse_within_word_witness :
  (extendOpt 12 = (12, 0) /\ parseExtOpt [7] 12 = (0, 12, None)) /\
  (extendOpt 13 = (13, 0) /\
   marshalOptionHeaderExt [9; 9] 13 0 = ([0; 9], (1, None)) /\
   parseExtOpt [0; 7] 13 = (1, 13, None)) /\
  (extendOpt 270 = (14, 1) /\
   marshalOptionHeaderExt [9; 9] 14 1 = ([0; 1], (2, None)) /\
   parseExtOpt [0; 1; 7] 14 = (2, 270, None)) /\
  secoap.parseOptions 2 [] [241; 0] 0 = ([], ([241; 0], Some secoap.errUnexpectedMarker)).
Proof.
  destruct extendOpt_parseExtOpt_inverse_within_word as [Hv Hn].
  destruct (Hv 12 [9; 9] [7] ltac:(lia)) as (H12 & _ & _).
  destruct (Hv 13 [9; 9] [7] ltac:(lia)) as (_ & H13 & _).
  destruct (Hv 270 [9; 9] [7] ltac:(lia)) as (_ & _ & H270).
  destruct (H12 ltac:(lia)) as (A1 & _ & A3).
  destruct (H13 ltac:(lia)) as (B1 & B2 & B3).
  destruct (H270 ltac:(lia)) as (C1 & C2 & C3).
  split; [split; assumption|].
  split; [split; [exact B1 | split; [apply B2; vm_compute; discriminate | exact B3]]|].
  split; [split; [exact C1 | split; [apply C2; vm_compute; discriminate | exact C3]]|].
  apply Hn; [lia | left; reflexivity].
Defined.

(** C7, counterexample.  At [v = 65805] the two extension bytes cannot
    carry [v - 269 = 65536]: [marshalOptionHeaderExt] writes [uint16(ext)],
    that is 00 00, and [parseExtOpt] reads 269 back. *)
Lemma extendOpt_word_extension_wraps :
  extendOpt 65805 = (14, 65536) /\
  marshalOptionHeaderExt [9; 9] 14 65536 = ([0; 0], (2, None)) /\
  parseExtOpt [0; 0] 14 = (2, 269, None) /\
  ~ (exists b, fst (marshalOptionHeaderExt [9; 9] (fst (extendOpt 65805))
                      (snd (extendOpt 65805))) = b /\
               BigEndian_Uint16 b = 65805 - 269 /\
               parseExtOpt b (fst (extendOpt 65805)) = (2, 65805, None)).
Proof.
  split; [reflexivity|]. split; [reflexivity|]. split; [reflexivity|].
  intros (b & Hb & Hcarry & _). vm_compute in Hb. subst b.
  vm_compute in Hcarry. discriminate Hcarry.
Qed.

(** ** The end-to-end scenario GET /a/b *)

(** C6 (as amended).  The Confirmable GET of /a/b with message id 0x1234,
    no token and no payload is encoded as 40 01 12 34 B1 61 01 62: byte 0
    is 0x40 (version 1, type 0, token length 0), then the code, the message
    id, URIPath "a" with delta 11 and URIPath "b" with delta 0.  Both the
    legacy [MarshalBinary] and the version-1 coder produce these bytes, and
    both decoders read them back as GET with path a, b. *)
Theorem get_a_b_wire_bytes :
  let frame := [64; 1; 18; 52; 177; 97; 1; 98] in
  secoap.MarshalBinary legacyGetAB = Done (legacyGetAB, (frame, None)) /\
  at_ frame 0 = Z.lor (Z.shiftl 1 6) (Z.lor (Z.shiftl Confirmable 4) 0) /\
  secoap.UnmarshalBinary secoap.zeroMessage frame =
    (secoap.mkMessage None (secoap.Opts legacyGetAB) GET (Some []) 4660 Confirmable,
     None) /\
  secoap.Path (fst (secoap.UnmarshalBinary secoap.zeroMessage frame)) =
    Done [bytes_of_string "a"; bytes_of_string "b"] /\
  coderv1.Encode coreGetAB (repeat 0 8) = Done (frame, (8, None)) /\
  coderv1.Decode frame sampleCore =
    (mkMessage Version1 None (Opts coreGetAB) GET None 4660 Confirmable 0 0 0 0,
     (8, None)).
Proof. vm_compute. repeat split. Qed.

(** C6, counterexample.  The encoders do not produce 41 01 12 34 B1 61 01
    62, and those bytes do not decode: 0x41 announces a one-byte token, the
    parser then reads B1 as the token, 61 01 as an Observe option and finds
    the option 62 truncated. *)
Lemma get_a_b_first_byte_is_not_0x41 :
  let claimed := [65; 1; 18; 52; 177; 97; 1; 98] in
  (forall m, secoap.MarshalBinary legacyGetAB <> Done (m, (claimed, None))) /\
  coderv1.Encode coreGetAB (repeat 0 8) <> Done (claimed, (8, None)) /\
  snd (secoap.UnmarshalBinary secoap.zeroMessage claimed) = Some secoap.errTruncated /\
  snd (coderv1.Decode claimed sampleCore) = (-1, Some ErrOptionTruncated).
Proof.
  cbv zeta. split; [|split; [|split]].
  - intros m H. vm_compute in H. discriminate H.
  - intros H. vm_compute in H. discriminate H.
  - vm_compute. reflexivity.
  - vm_compute. reflexivity.
Qed.

(** ** Slices of a buffer *)

Lemma from_0 (l : list Z) : from 0 l = l.
Proof. reflexivity. Qed.

Lemma upto_0 (l : list Z) : upto 0 l = [].
Proof. reflexivity. Qed.

Lemma splice_app (done x tail : list Z) :
  splice (len done) (done ++ x) tail = done ++ tail.
Proof. unfold splice. rewrite upto_app. reflexivity. Qed.

Lemma copy_app (pre rest src : list Z) :
  len pre = len src -> copy (pre ++ rest) src = src ++ rest.
Proof.
  intros H. rewrite copy_fits by (rewrite len_app; pose proof (len_nonneg rest); lia).
  rewrite <- H, from_app. reflexivity.
Qed.

Lemma split_at (n : Z) (buf : list Z) :
  0 <= n <= len buf ->
  exists pre rest, buf = pre ++ rest /\ len pre = n.
Proof.
  intros H. exists (upto n buf), (from n buf). split.
  - unfold upto, from. symmetry. apply firstn_skipn.
  - unfold upto, len in *. rewrite length_firstn. lia.
Qed.

Lemma len_0_nil {A} (l : list A) : len l = 0 -> l = [].
Proof. destruct l; [reflexivity|]. unfold len. cbn [length]. lia. Qed.

Lemma len_1_inv (l : list Z) : len l = 1 -> exists x, l = [x].
Proof.
  destruct l as [|x [|y l]]; unfold len; cbn [length]; try lia.
  intros _. exists x. reflexivity.
Qed.

Lemma len_2_inv (l : list Z) : len l = 2 -> exists x y, l = [x; y].
Proof.
  destruct l as [|x [|y [|z l]]]; unfold len; cbn [length]; try lia.
  intros _. exists x, y. reflexivity.
Qed.

Lemma len_split (l : list Z) (a b : Z) :
  0 <= a -> 0 <= b -> len l = a + b ->
  exists l1 l2, l = l1 ++ l2 /\ len l1 = a /\ len l2 = b.
Proof.
  intros Ha Hb H. destruct (split_at a l ltac:(lia)) as (l1 & l2 & -> & H1).
  exists l1, l2. rewrite len_app in H. repeat split; lia.
Qed.

(** ** Marshalling an option header *)

Lemma ext_wire_len (opt ext : Z) :
  len (ext_wire opt ext) = 0 \/ len (ext_wire opt ext) = 1 \/ len (ext_wire opt ext) = 2.
Proof.
  unfold ext_wire. destruct (opt =? ExtendOptionByteCode); [right; left; reflexivity|].
  destruct (opt =? ExtendOptionWordCode); [right; right; reflexivity | left; reflexivity].
Qed.

Lemma marshalOptionHeaderExt_fits (pre rest : list Z) (opt ext : Z) :
  len pre = len (ext_wire opt ext) ->
  marshalOptionHeaderExt (pre ++ rest) opt ext =
    (ext_wire opt ext ++ rest, (len (ext_wire opt ext), None)).
Proof.
  intros H. pose proof (len_nonneg rest) as Hr.
  unfold marshalOptionHeaderExt, ext_wire in *.
  destruct (opt =? ExtendOptionByteCode).
  { change (len [byte ext]) with 1 in *. rewrite len_app.
    destruct (Z.ltb_spec 0 (len pre + len rest)); [|lia].
    rewrite copy_app by exact H. reflexivity. }
  destruct (opt =? ExtendOptionWordCode).
  { change (len (BigEndian_bytes16 (uint16 ext))) with 2 in *. rewrite len_app.
    destruct (Z.ltb_spec 1 (len pre + len rest)); [|lia].
    rewrite copy_app by exact H. reflexivity. }
  apply len_0_nil in H. subst pre. reflexivity.
Qed.

Lemma marshalOptionHeaderExt_nil (opt ext : Z) :
  snd (marshalOptionHeaderExt [] opt ext) =
    (len (ext_wire opt ext),
     if len (ext_wire opt ext) =? 0 then None else Some ErrTooSmall).
Proof.
  unfold marshalOptionHeaderExt, ext_wire.
  destruct (opt =? ExtendOptionByteCode); [reflexivity|].
  destruct (opt =? ExtendOptionWordCode); reflexivity.
Qed.

Lemma ext_into_fits (done pre rest : list Z) (opt ext : Z) :
  len pre = len (ext_wire opt ext) ->
  ext_into false (len done) (done ++ pre ++ rest) opt ext =
    (done ++ ext_wire opt ext ++ rest, (len (ext_wire opt ext), None)).
Proof.
  intros H. unfold ext_into. rewrite from_app.
  rewrite marshalOptionHeaderExt_fits by exact H.
  rewrite splice_app. reflexivity.
Qed.

Lemma ext_into_nil (size : Z) (buf : list Z) (opt ext : Z) :
  ext_into true size buf opt ext =
    (buf, (len (ext_wire opt ext),
           if len (ext_wire opt ext) =? 0 then None else Some ErrTooSmall)).
Proof. unfold ext_into. rewrite marshalOptionHeaderExt_nil. reflexivity. Qed.

Lemma header_wire_len (delta length : Z) :
  1 <= len (header_wire delta length) <= 5.
Proof.
  unfold header_wire.
  destruct (extendOpt delta) as [d dx], (extendOpt length) as [l lx].
  rewrite !len_app. change (len [Z.lor (byte (Z.shiftl d 4)) (byte l)]) with 1.
  pose proof (ext_wire_len d dx). pose proof (ext_wire_len l lx). lia.
Qed.

Lemma marshalOptionHeader_fits (pre rest : list Z) (delta length : Z) :
  len pre = len (header_wire delta length) ->
  marshalOptionHeader (pre ++ rest) delta length =
    (header_wire delta length ++ rest, (len (header_wire delta length), None)).
Proof.
  unfold marshalOptionHeader, header_wire.
  destruct (extendOpt delta) as [d dx], (extendOpt length) as [l lx].
  set (b0 := Z.lor (byte (Z.shiftl d 4)) (byte l)).
  pose proof (len_nonneg (ext_wire d dx)) as H1.
  pose proof (len_nonneg (ext_wire l lx)) as H2.
  pose proof (len_nonneg rest) as Hr.
  intros H. rewrite !len_app in H. change (len [b0]) with 1 in H.
  destruct (len_split pre 1 (len (ext_wire d dx) + len (ext_wire l lx))
              ltac:(lia) ltac:(lia) H) as (p0 & p12 & -> & Hp0 & Hp12).
  destruct (len_split p12 _ _ H1 H2 Hp12) as (p1 & p2 & -> & Hp1 & Hp2).
  destruct (len_1_inv p0 Hp0) as (x & ->).
  rewrite <- !app_assoc.
  assert ((0 <? len ([x] ++ p1 ++ p2 ++ rest)) = true) as ->.
  { rewrite len_app. change (len [x]) with 1.
    pose proof (len_nonneg (p1 ++ p2 ++ rest)). apply Z.ltb_lt. lia. }
  rewrite (copy_app [x] (p1 ++ p2 ++ rest) [b0]) by reflexivity.
  change (0 + 1) with (len [b0]).
  rewrite (ext_into_fits [b0] p1 (p2 ++ rest) d dx Hp1).
  cbn [too_small_or_fail].
  replace (len [b0] + len (ext_wire d dx)) with (len ([b0] ++ ext_wire d dx))
    by (rewrite len_app; reflexivity).
  rewrite (app_assoc [b0] (ext_wire d dx) (p2 ++ rest)).
  rewrite (ext_into_fits ([b0] ++ ext_wire d dx) p2 rest l lx Hp2).
  cbn [too_small_or_fail].
  rewrite <- !app_assoc, !len_app. change (len [b0]) with 1.
  f_equal. f_equal. lia.
Qed.

Lemma marshalOptionHeader_nil (delta length : Z) :
  marshalOptionHeader [] delta length =
    ([], (len (header_wire delta length), Some ErrTooSmall)).
Proof.
  unfold marshalOptionHeader, header_wire.
  destruct (extendOpt delta) as [d dx], (extendOpt length) as [l lx].
  change (0 <? len []) with false. cbv iota.
  rewrite ext_into_nil.
  assert (forall e : Z, too_small_or_fail true (if e =? 0 then None else Some ErrTooSmall)
                        = inl true) as Hts
    by (intros e; destruct (e =? 0); reflexivity).
  rewrite Hts, ext_into_nil, Hts.
  rewrite !len_app. change (len [Z.lor (byte (Z.shiftl d 4)) (byte l)]) with 1.
  f_equal. f_equal. lia.
Qed.

(** ** Marshalling an option and a list of options *)

Lemma MarshalValue_nil (o : Option) (v : list Z) :
  ToBytes o = Done v ->
  MarshalValue o [] =
    Done ([], (len v, if len v =? 0 then None else Some ErrTooSmall)).
Proof.
  intros Hv. unfold MarshalValue. rewrite Hv. cbn [bind].
  change (len (@nil Z)) with 0. pose proof (len_nonneg v).
  destruct (Z.ltb_spec 0 (len v)), (Z.eqb_spec (len v) 0); try lia; [reflexivity|].
  rewrite (len_0_nil v) by assumption. reflexivity.
Qed.

Lemma MarshalValue_fits (o : Option) (v pre rest : list Z) :
  ToBytes o = Done v -> len pre = len v ->
  MarshalValue o (pre ++ rest) = Done (v ++ rest, (len v, None)).
Proof.
  intros Hv H. unfold MarshalValue. rewrite Hv. cbn [bind].
  rewrite len_app. pose proof (len_nonneg rest).
  destruct (Z.ltb_spec (len pre + len rest) (len v)); [lia|].
  rewrite copy_app by assumption. reflexivity.
Qed.

Lemma option_wire_len (prev : Z) (o : Option) (v : list Z) :
  len (option_wire prev o v) = len (header_wire (ID o - prev) (len v)) + len v.
Proof. unfold option_wire. apply len_app. Qed.

Lemma Option_Marshal_fits (o : Option) (v : list Z) (prev : Z) (pre rest : list Z) :
  ToBytes o = Done v ->
  len pre = len (option_wire prev o v) ->
  Option_Marshal o (pre ++ rest) prev =
    Done (option_wire prev o v ++ rest, (len (option_wire prev o v), None)).
Proof.
  intros Hv H. rewrite option_wire_len in H.
  pose proof (header_wire_len (ID o - prev) (len v)) as Hh.
  pose proof (len_nonneg v) as Hvn.
  destruct (len_split pre (len (header_wire (ID o - prev) (len v))) (len v)
              ltac:(lia) Hvn H) as (ph & pv & -> & Hph & Hpv).
  unfold Option_Marshal. rewrite (MarshalValue_nil o v Hv). cbn [bind].
  rewrite <- app_assoc.
  destruct (len v =? 0);
    cbv iota;
    rewrite (marshalOptionHeader_fits ph (pv ++ rest) _ _ Hph);
    cbn [too_small_or_fail]; unfold value_into;
    rewrite from_app, (MarshalValue_fits o v pv rest Hv Hpv); cbn [bind];
    rewrite splice_app; cbn [too_small_or_fail];
    unfold option_wire; rewrite <- app_assoc, len_app; reflexivity.
Qed.

Lemma Option_Marshal_nil (o : Option) (v : list Z) (prev : Z) :
  ToBytes o = Done v ->
  Option_Marshal o [] prev =
    Done ([], (len (option_wire prev o v), Some ErrTooSmall)).
Proof.
  intros Hv. unfold Option_Marshal. rewrite (MarshalValue_nil o v Hv). cbn [bind].
  destruct (len v =? 0) eqn:E;
    cbv iota;
    rewrite marshalOptionHeader_nil; cbn [too_small_or_fail];
    unfold value_into; rewrite (MarshalValue_nil o v Hv); cbn [bind];
    rewrite E; cbn [too_small_or_fail];
    rewrite option_wire_len; reflexivity.
Qed.

Lemma Options_Marshal_loop_probe (opts : list Option) :
  forall (prev : Z) (W buf : list Z) (length : Z),
    options_wire prev opts = Done W ->
    Options_Marshal_loop opts buf true prev length =
      Done (buf, (length + len W, Some ErrTooSmall)).
Proof.
  induction opts as [|o opts IH]; intros prev W buf length HW.
  - cbn in HW. injection HW as <-. cbn. rewrite Z.add_0_r. reflexivity.
  - cbn [options_wire] in HW.
    destruct (ToBytes o) as [v|] eqn:Hv; [|discriminate HW]. cbn [bind] in HW.
    destruct (options_wire (ID o) opts) as [w|] eqn:Hw; [|discriminate HW].
    cbn [bind] in HW. injection HW as <-.
    cbn [Options_Marshal_loop orb]. unfold option_into.
    rewrite (Option_Marshal_nil o v prev Hv). cbn [bind too_small_or_fail].
    rewrite (IH (ID o) w buf _ Hw). rewrite len_app. f_equal. f_equal. f_equal. lia.
Qed.

Lemma Options_Marshal_loop_fits (opts : list Option) :
  forall (prev : Z) (W done pre rest : list Z),
    options_wire prev opts = Done W ->
    len pre = len W ->
    Options_Marshal_loop opts (done ++ pre ++ rest) false prev (len done) =
      Done (done ++ W ++ rest, (len done + len W, None)).
Proof.
  induction opts as [|o opts IH]; intros prev W done pre rest HW Hlen.
  - cbn in HW. injection HW as <-. apply len_0_nil in Hlen. subst pre.
    cbn. rewrite Z.add_0_r. reflexivity.
  - cbn [options_wire] in HW.
    destruct (ToBytes o) as [v|] eqn:Hv; [|discriminate HW]. cbn [bind] in HW.
    destruct (options_wire (ID o) opts) as [w|] eqn:Hw; [|discriminate HW].
    cbn [bind] in HW. injection HW as <-.
    rewrite len_app in Hlen.
    destruct (len_split pre _ _ (len_nonneg _) (len_nonneg _) Hlen)
      as (po & pw & -> & Hpo & Hpw).
    cbn [Options_Marshal_loop orb].
    assert ((len (done ++ (po ++ pw) ++ rest) <? len done) = false) as ->.
    { apply Z.ltb_ge. rewrite len_app. pose proof (len_nonneg ((po ++ pw) ++ rest)). lia. }
    unfold option_into. rewrite from_app, <- app_assoc.
    rewrite (Option_Marshal_fits o v prev po (pw ++ rest) Hv Hpo). cbn [bind].
    rewrite splice_app. cbn [too_small_or_fail].
    replace (len done + len (option_wire prev o v))
      with (len (done ++ option_wire prev o v)) by apply len_app.
    rewrite (app_assoc done (option_wire prev o v) (pw ++ rest)).
    rewrite (IH (ID o) w (done ++ option_wire prev o v) pw rest Hw Hpw).
    rewrite <- !app_assoc, !len_app. f_equal. f_equal. f_equal. lia.
Qed.

(** Values of a dynamic type that [ToBytes] accepts. *)
Lemma options_wire_defined (opts : list Option) :
  Forall (fun o => exists v, ToBytes o = Done v) opts ->
  forall prev, exists W, options_wire prev opts = Done W.
Proof.
  induction 1 as [|o opts (v & Hv) _ IH]; intros prev.
  - exists []. reflexivity.
  - destruct (IH (ID o)) as (w & Hw). exists (option_wire prev o v ++ w).
    cbn [options_wire]. rewrite Hv. cbn [bind]. rewrite Hw. reflexivity.
Qed.

(** ** Writing through a cursor *)

Lemma store_app (w pre : list Z) (x : Z) (rest : list Z) (v : Z) :
  store (mkCursor w (pre ++ x :: rest)) (len pre) v =
    Done (mkCursor w (pre ++ v :: rest)).
Proof.
  unfold store. cbn [window written].
  pose proof (len_nonneg pre). pose proof (len_nonneg rest).
  rewrite len_app, len_cons.
  destruct (Z.leb_spec 0 (len pre)); [|lia].
  destruct (Z.ltb_spec (len pre) (len pre + (1 + len rest))); [|lia].
  cbn [andb]. rewrite upto_app.
  replace (len pre + 1) with (len (pre ++ [x])) by (rewrite len_app; reflexivity).
  change (pre ++ x :: rest) with (pre ++ [x] ++ rest).
  rewrite app_assoc, from_app. reflexivity.
Qed.

Lemma store_panics (c : cursor) (i v : Z) :
  len (window c) <= i -> store c i v = Panics.
Proof.
  intros H. unfold store.
  destruct (Z.ltb_spec i (len (window c))); [lia|].
  rewrite andb_false_r. reflexivity.
Qed.

Lemma advance_app (w pre rest : list Z) :
  advance (mkCursor w (pre ++ rest)) (len pre) = Done (mkCursor (w ++ pre) rest).
Proof.
  unfold advance. cbn [window written].
  pose proof (len_nonneg pre). pose proof (len_nonneg rest).
  rewrite len_app.
  destruct (Z.leb_spec 0 (len pre)); [|lia].
  destruct (Z.leb_spec (len pre) (len pre + len rest)); [|lia].
  cbn [andb]. rewrite upto_app, from_app. reflexivity.
Qed.

Lemma copy_into_app (w pre rest src : list Z) :
  len pre = len src ->
  copy_into (mkCursor w (pre ++ rest)) src = mkCursor w (src ++ rest).
Proof.
  intros H. unfold copy_into. cbn [window written].
  rewrite copy_app by assumption. reflexivity.
Qed.

Lemma store_exact (w pre : list Z) (x : Z) (rest : list Z) (i v : Z) :
  len pre = i ->
  store (mkCursor w (pre ++ x :: rest)) i v = Done (mkCursor w (pre ++ v :: rest)).
Proof. intros <-. apply store_app. Qed.

Lemma advance_exact (w pre rest : list Z) (n : Z) :
  len pre = n ->
  advance (mkCursor w (pre ++ rest)) n = Done (mkCursor (w ++ pre) rest).
Proof. intros <-. apply advance_app. Qed.

Lemma len_4_inv (l : list Z) :
  len l = 4 -> exists a b c d, l = [a; b; c; d].
Proof.
  destruct l as [|a [|b [|c [|d [|e l]]]]]; unfold len; cbn [length]; try lia.
  intros _. exists a, b, c, d. reflexivity.
Qed.

(** Rewriting with an instance of a lemma after its appends are computed. *)
Ltac rewrite_app H :=
  let E := fresh "E" in
  pose proof H as E; cbn [app] in E;
  change (len (@nil Z)) with 0 in E; rewrite ?Z.add_0_l in E;
  rewrite E; clear E.

Lemma store4_advance {B : Type} (w p rest : list Z) (v0 v1 v2 v3 : Z)
  (k : cursor -> outcome B) :
  len p = 4 ->
  (c <- store (mkCursor w (p ++ rest)) 0 v0 ;;
   c <- store c 1 v1 ;;
   c <- store c 2 v2 ;;
   c <- store c 3 v3 ;;
   c <- advance c 4 ;;
   k c) = k (mkCursor (w ++ [v0; v1; v2; v3]) rest).
Proof.
  intros H. destruct (len_4_inv p H) as (a & b & c & d & ->). cbn [app].
  rewrite_app (store_exact w [] a (b :: c :: d :: rest) 0 v0 eq_refl). cbn [bind].
  rewrite_app (store_exact w [v0] b (c :: d :: rest) 1 v1 eq_refl). cbn [bind].
  rewrite_app (store_exact w [v0; v1] c (d :: rest) 2 v2 eq_refl). cbn [bind].
  rewrite_app (store_exact w [v0; v1; v2] d rest 3 v3 eq_refl). cbn [bind].
  rewrite_app (advance_exact w [v0; v1; v2; v3] rest 4 eq_refl). reflexivity.
Qed.

(** ** Sorting keeps the options *)

Lemma insert_by_ID_Forall (P : Option -> Prop) (o : Option) (l : list Option) :
  P o -> Forall P l -> Forall P (insert_by_ID o l).
Proof.
  intros Ho Hl. induction Hl as [|x l Hx Hl IH]; cbn [insert_by_ID].
  - constructor; [assumption | constructor].
  - destruct (ID o <=? ID x).
    + constructor; [assumption|]. constructor; assumption.
    + constructor; assumption.
Qed.

Lemma sort_Stable_Forall (P : Option -> Prop) (l : list Option) :
  Forall P l -> Forall P (sort_Stable l).
Proof.
  induction 1 as [|x l Hx Hl IH]; cbn [sort_Stable fold_right].
  - constructor.
  - apply insert_by_ID_Forall; assumption.
Qed.

Lemma insert_by_ID_length (o : Option) (l : list Option) :
  length (insert_by_ID o l) = S (length l).
Proof.
  induction l as [|x l IH]; cbn [insert_by_ID]; [reflexivity|].
  destruct (ID o <=? ID x); cbn [length]; [reflexivity | rewrite IH; reflexivity].
Qed.

Lemma sort_Stable_length (l : list Option) :
  length (sort_Stable l) = length l.
Proof.
  induction l as [|x l IH]; cbn [sort_Stable fold_right]; [reflexivity|].
  fold (sort_Stable l). rewrite insert_by_ID_length, IH. reflexivity.
Qed.

(** ** The size probe of the version-1 coder *)

Lemma payload_wire_len (p : option (list Z)) :
  len (payload_wire p) = if 0 <? slen p then slen p + 1 else slen p.
Proof.
  unfold payload_wire. destruct (Z.ltb_spec 0 (slen p)) as [H|H].
  - rewrite len_cons. destruct p; cbn [slen sbytes] in *; lia.
  - destruct p as [l|]; cbn [slen] in *; [|reflexivity].
    pose proof (len_nonneg l). change (len (@nil Z)) with 0. lia.
Qed.

Lemma v1_frame_len (m : Message) (W : list Z) :
  len (v1_frame m W) =
    4 + slen (Token m) + len W + len (payload_wire (Payload m)).
Proof.
  unfold v1_frame, v1_header. rewrite !len_app.
  change (len [_; _]) with 2. change (len (BigEndian_bytes16 _)) with 2.
  destruct (Token m); cbn [slen sbytes]; [lia|].
  change (len (@nil Z)) with 0. lia.
Qed.

Lemma slen_sbytes (s : option (list Z)) : len (sbytes s) = slen s.
Proof. destruct s; reflexivity. Qed.

Lemma v1_Size_probe (m : Message) (W : list Z) :
  slen (Token m) <= 8 ->
  options_wire 0 (sort_Stable (items (Opts m))) = Done W ->
  coderv1.Size m = Done (len (v1_frame m W), None).
Proof.
  intros Htok HW. unfold coderv1.Size, MaxTokenSize.
  destruct (Z.ltb_spec 8 (slen (Token m))); [lia|].
  unfold Options_Marshal.
  rewrite (Options_Marshal_loop_probe _ 0 W [] 0 HW). cbn [bind].
  rewrite v1_frame_len, payload_wire_len. f_equal. f_equal. lia.
Qed.

Lemma v1_Encode_too_small (m : Message) (W buf : list Z) :
  ValidateMID (MessageID m) = true ->
  ValidateType (Type_ m) = true ->
  slen (Token m) <= 8 ->
  options_wire 0 (sort_Stable (items (Opts m))) = Done W ->
  len buf < len (v1_frame m W) ->
  coderv1.Encode m buf = Done (buf, (len (v1_frame m W), Some ErrTooSmall)).
Proof.
  intros Hmid Htyp Htok HW Hlen. unfold coderv1.Encode.
  rewrite Hmid, Htyp. cbn [negb].
  rewrite (v1_Size_probe m W Htok HW). cbn [bind].
  destruct (Z.ltb_spec (len buf) (len (v1_frame m W))); [reflexivity | lia].
Qed.

Lemma v1_Encode_fits (m : Message) (W buf : list Z) :
  ValidateMID (MessageID m) = true ->
  ValidateType (Type_ m) = true ->
  slen (Token m) <= 8 ->
  options_wire 0 (sort_Stable (items (Opts m))) = Done W ->
  len (v1_frame m W) <= len buf ->
  coderv1.Encode m buf =
    Done (v1_frame m W ++ from (len (v1_frame m W)) buf,
          (len (v1_frame m W), None)).
Proof.
  intros Hmid Htyp Htok HW Hlen. unfold coderv1.Encode.
  rewrite Hmid, Htyp. cbn [negb].
  rewrite (v1_Size_probe m W Htok HW). cbn [bind].
  destruct (Z.ltb_spec (len buf) (len (v1_frame m W))); [lia|].
  destruct (split_at (len (v1_frame m W)) buf ltac:(pose proof (len_nonneg (v1_frame m W)); lia))
    as (pre & rest & -> & Hpre).
  rewrite <- Hpre at 1. rewrite from_app.
  rewrite v1_frame_len in Hpre.
  pose proof (len_nonneg W) as HWn. pose proof (len_nonneg (payload_wire (Payload m))) as HPn.
  assert (0 <= slen (Token m)) as Htn by (rewrite <- slen_sbytes; apply len_nonneg).
  destruct (len_split pre 4 (slen (Token m) + len W + len (payload_wire (Payload m)))
              ltac:(lia) ltac:(lia) ltac:(lia)) as (ph & p1 & -> & Hph & Hp1).
  destruct (len_split p1 (slen (Token m)) (len W + len (payload_wire (Payload m)))
              ltac:(lia) ltac:(lia) ltac:(lia)) as (pt & p2 & -> & Hpt & Hp2).
  destruct (len_split p2 (len W) (len (payload_wire (Payload m)))
              ltac:(lia) ltac:(lia) ltac:(lia)) as (po & pp & -> & Hpo & Hpp).
  rewrite <- !app_assoc.
  rewrite (store4_advance [] ph _ _ _ _ _ _ Hph).
  unfold MaxTokenSize. destruct (Z.ltb_spec 8 (slen (Token m))); [lia|].
  rewrite (copy_into_app _ pt _ (sbytes (Token m))) by (rewrite slen_sbytes; exact Hpt).
  rewrite (advance_exact _ (sbytes (Token m)) _ (slen (Token m)) (slen_sbytes _)).
  cbn [bind window written].
  unfold Options_Marshal.
  rewrite_app (Options_Marshal_loop_fits _ 0 W [] po (pp ++ rest) HW Hpo).
  cbn [bind app].
  rewrite (advance_exact _ W _ (len W) eq_refl). cbn [bind].
  unfold v1_frame, v1_header, payload_wire in *.
  destruct (Z.ltb_spec 0 (slen (Payload m))) as [Hpay | Hpay].
  - rewrite len_cons in Hpp.
    destruct (len_split pp 1 (len (sbytes (Payload m))) ltac:(lia) (len_nonneg _) Hpp)
      as (ps & pb & -> & Hps & Hpb).
    destruct (len_1_inv ps Hps) as (x & ->). cbn [app].
    match goal with
    | |- context [store (mkCursor ?w _) 0 255] =>
        rewrite_app (store_exact w [] x (pb ++ rest) 0 255 eq_refl); cbn [bind];
        rewrite_app (advance_exact w [255] (pb ++ rest) 1 eq_refl); cbn [bind]
    end.
    rewrite (copy_into_app _ pb rest _ Hpb). unfold whole. cbn [written window].
    unfold BigEndian_bytes16, at_. cbn [nth app].
    rewrite <- !app_assoc. reflexivity.
  - apply len_0_nil in Hpp. subst pp. cbn [app bind].
    assert (sbytes (Payload m) = []) as ->.
    { apply len_0_nil. rewrite slen_sbytes.
      assert (0 <= slen (Payload m)) by (rewrite <- slen_sbytes; apply len_nonneg). lia. }
    unfold copy_into, whole. cbn [written window].
    assert (copy rest [] = rest) as -> by (unfold copy; destruct rest; reflexivity).
    unfold BigEndian_bytes16, at_. cbn [nth app].
    rewrite <- !app_assoc. reflexivity.
Qed.

(** C4.  For a message with a valid message id and type, a token of at most
    8 bytes and option values that [ToBytes] accepts (the option list may be
    empty), the required size is 4 + token + marshalled options + payload,
    plus one for the 0xFF separator iff the payload is non-empty;
    [Coder.Size] returns it; [Encode] into a shorter (or nil) buffer returns
    it with [ErrTooSmall]; [Encode] into a buffer of exactly that size
    returns it with no error and the buffer then holds the frame; a longer
    buffer is written up to that size and no further. *)
Theorem v1_size_probe_then_exact_encode (m : Message) :
  ValidateMID (MessageID m) = true ->
  ValidateType (Type_ m) = true ->
  slen (Token m) <= 8 ->
  Forall marshalable (items (Opts m)) ->
  exists W,
    options_wire 0 (sort_Stable (items (Opts m))) = Done W /\
    let size := 4 + slen (Token m) + len W +
                (if 0 <? slen (Payload m) then slen (Payload m) + 1 else 0) in
    coderv1.Size m = Done (size, None) /\
    (forall buf, len buf < size ->
       coderv1.Encode m buf = Done (buf, (size, Some ErrTooSmall))) /\
    (forall buf, len buf = size ->
       coderv1.Encode m buf = Done (v1_frame m W, (size, None)) /\
       len (v1_frame m W) = size) /\
    (forall buf, size <= len buf ->
       coderv1.Encode m buf = Done (v1_frame m W ++ from size buf, (size, None))).
Proof.
  intros Hmid Htyp Htok Hopts.
  destruct (options_wire_defined _ (sort_Stable_Forall _ _ Hopts) 0) as (W & HW).
  exists W. split; [exact HW|].
  assert (len (v1_frame m W) =
          4 + slen (Token m) + len W +
          (if 0 <? slen (Payload m) then slen (Payload m) + 1 else 0)) as Hsize.
  { rewrite v1_frame_len, payload_wire_len.
    destruct (Z.ltb_spec 0 (slen (Payload m))); [reflexivity|].
    assert (0 <= slen (Payload m)) by (rewrite <- slen_sbytes; apply len_nonneg). lia. }
  cbv zeta. rewrite <- Hsize.
  split; [apply v1_Size_probe; assumption|].
  split; [intros buf Hb; apply v1_Encode_too_small; assumption|].
  split.
  - intros buf Hb. split; [|reflexivity].
    rewrite (v1_Encode_fits m W buf) by (assumption || lia).
    assert (from (len (v1_frame m W)) buf = []) as ->.
    { unfold from, len in *. apply skipn_all2. lia. }
    rewrite app_nil_r. reflexivity.
  - intros buf Hb. apply v1_Encode_fits; assumption.
Qed.

Lemma v1_size_probe_then_exact_encode_witness :
  coderv1.Size coreEmptyAck = Done (4, None) /\
  coderv1.Encode coreEmptyAck [] = Done ([], (4, Some ErrTooSmall)) /\
  coderv1.Encode coreEmptyAck [9; 9; 9; 9] = Done ([96; 0; 18; 52], (4, None)).
Proof.
  destruct (v1_size_probe_then_exact_encode coreEmptyAck)
    as (W & HW & Hsize & Hsmall & Hexact & _).
  - reflexivity.
  - reflexivity.
  - vm_compute. discriminate.
  - constructor.
  - vm_compute in HW. injection HW as <-.
    split; [exact Hsize|].
    split; [apply (Hsmall []); reflexivity|].
    apply (Hexact [9; 9; 9; 9]). reflexivity.
Defined.

(** ** Facts checked over a finite range *)

Lemma forallb_range (P : Z -> bool) (n : nat) :
  forallb P (map Z.of_nat (seq 0 n)) = true ->
  forall z, 0 <= z < Z.of_nat n -> P z = true.
Proof.
  intros H z Hz. rewrite forallb_forall in H. apply H.
  apply in_map_iff. exists (Z.to_nat z). split; [lia|].
  apply in_seq. lia.
Qed.

Lemma forallb_range2 (P : Z -> Z -> bool) (n k : nat) :
  forallb (fun a => forallb (P a) (map Z.of_nat (seq 0 k)))
          (map Z.of_nat (seq 0 n)) = true ->
  forall a b, 0 <= a < Z.of_nat n -> 0 <= b < Z.of_nat k -> P a b = true.
Proof.
  intros H a b Ha Hb.
  apply (forallb_range (P a) k); [|exact Hb].
  exact (forallb_range _ n H a Ha).
Qed.

(** ** The checksum fits sixteen bits *)

Lemma lxor_below_pow2 (a b n : Z) :
  0 < n -> 0 <= a < 2 ^ n -> 0 <= b < 2 ^ n -> 0 <= Z.lxor a b < 2 ^ n.
Proof.
  intros Hn Ha Hb. split; [apply Z.lxor_nonneg; split; lia|].
  destruct (Z.eq_dec (Z.lxor a b) 0) as [E | Hnz].
  { rewrite E. lia. }
  assert (0 <= Z.lxor a b) as Hnn by (apply Z.lxor_nonneg; split; lia).
  assert (0 < Z.lxor a b) as Hpos by lia.
  apply Z.log2_lt_pow2; [exact Hpos|].
  pose proof (Z.log2_lxor a b ltac:(lia) ltac:(lia)) as Hl.
  assert (Z.log2 a < n) as Hla.
  { destruct (Z.eq_dec a 0) as [-> | ?]; [cbn; lia|].
    apply Z.log2_lt_pow2; lia. }
  assert (Z.log2 b < n) as Hlb.
  { destruct (Z.eq_dec b 0) as [-> | ?]; [cbn; lia|].
    apply Z.log2_lt_pow2; lia. }
  lia.
Qed.

Lemma crc16_shift_range (n : nat) (crc : Z) :
  0 <= crc < 65536 -> 0 <= crc16_shift n crc < 65536.
Proof.
  revert crc. induction n as [|n IH]; intros crc H; cbn [crc16_shift]; [exact H|].
  apply IH.
  assert (0 <= Z.shiftr crc 1 < 32768) as Hs.
  { rewrite Z.shiftr_div_pow2 by lia. change (2 ^ 1) with 2.
    split; [apply Z.div_pos; lia | apply Z.div_lt_upper_bound; lia]. }
  destruct (Z.testbit crc 0); [|lia].
  apply (lxor_below_pow2 _ _ 16); lia.
Qed.

Lemma crc16_update_range (crc b : Z) :
  0 <= crc < 65536 -> 0 <= crc16_update crc b < 65536.
Proof.
  intros H. unfold crc16_update. apply crc16_shift_range.
  pose proof (byte_range b). apply (lxor_below_pow2 _ _ 16); lia.
Qed.

Lemma CRC16Bytes_range (data : list Z) : 0 <= CRC16Bytes data < 65536.
Proof.
  unfold CRC16Bytes, crc16BytesModbus.
  assert (forall crc, 0 <= crc < 65536 ->
                      0 <= fold_left crc16_update data crc < 65536) as H.
  { induction data as [|b data IH]; intros crc Hc; cbn [fold_left]; [exact Hc|].
    apply IH. apply crc16_update_range. exact Hc. }
  apply H. lia.
Qed.

Lemma LittleEndian_roundtrip (v : Z) :
  0 <= v < 65536 -> LittleEndian_Uint16 (LittleEndian_bytes16 v) = v.
Proof.
  intros H. unfold LittleEndian_bytes16.
  pose proof (byte_range v).
  rewrite LittleEndian_Uint16_bytes by assumption.
  rewrite shiftr_8. unfold byte.
  rewrite (Z.mod_small (v / 256)) by (apply div_256_range; lia).
  pose proof (Z.div_mod v 256 ltac:(lia)). lia.
Qed.

Lemma BigEndian_roundtrip (v : Z) :
  0 <= v < 65536 -> BigEndian_Uint16 (BigEndian_bytes16 v) = v.
Proof.
  intros H. rewrite BigEndian_bytes16_small by assumption.
  rewrite BigEndian_Uint16_bytes by (apply Z.mod_pos_bound; lia).
  pose proof (Z.div_mod v 256 ltac:(lia)). lia.
Qed.

(** ** The version-0 coder *)

Lemma v0_frame_len (m : Message) : len (v0_frame m) = 4 + slen (Payload m).
Proof.
  unfold v0_frame, v0_header. rewrite !len_app, slen_sbytes.
  change (len [_; _]) with 2. change (len (LittleEndian_bytes16 _)) with 2. lia.
Qed.

Lemma v0_Encode_fits (m : Message) (buf : list Z) :
  ValidateType (Type_ m) = true ->
  ValidateEID (EncoderID m) = true ->
  ValidateETP (EncoderType m) = true ->
  len (v0_frame m) <= len buf ->
  coderv0.Encode m buf =
    Done (v0_frame m ++ from (len (v0_frame m)) buf, (len (v0_frame m), None)).
Proof.
  intros Htyp Heid Hetp Hlen. unfold coderv0.Encode, coderv0.Size.
  rewrite Htyp, Heid, Hetp. cbn [negb].
  rewrite <- v0_frame_len.
  destruct (Z.ltb_spec (len buf) (len (v0_frame m))); [lia|].
  destruct (split_at (len (v0_frame m)) buf
              ltac:(pose proof (len_nonneg (v0_frame m)); lia))
    as (pre & rest & -> & Hpre).
  rewrite <- Hpre at 1. rewrite from_app.
  rewrite v0_frame_len in Hpre.
  assert (0 <= slen (Payload m)) as Hpn by (rewrite <- slen_sbytes; apply len_nonneg).
  destruct (len_split pre 4 (slen (Payload m)) ltac:(lia) Hpn Hpre)
    as (ph & pp & -> & Hph & Hpp).
  rewrite <- app_assoc.
  rewrite (store4_advance [] ph _ _ _ _ _ _ Hph).
  rewrite (copy_into_app _ pp rest (sbytes (Payload m)))
    by (rewrite slen_sbytes; exact Hpp).
  unfold whole, v0_frame, v0_header, LittleEndian_bytes16, at_.
  cbn [written window nth app Crc16 set_Crc16 Type_ EncoderID EncoderType Payload].
  reflexivity.
Qed.

(** Splits a checked conjunction of integer equalities. *)
Ltac andb_eqs :=
  repeat match goal with
         | H : _ && _ = true |- _ => apply andb_prop in H; destruct H
         | H : (_ =? _) = true |- _ => apply Z.eqb_eq in H
         end.

Lemma v0_header_bits :
  forall t e p, 0 <= t < 256 -> 0 <= e < 16 -> 0 <= p < 16 ->
    byte t = t /\
    Z.shiftr t 6 = t / 64 /\
    Z.land t 3 = t mod 4 /\
    Z.shiftr (Z.lor (byte (Z.shiftl e 4)) (byte p)) 4 = e /\
    Z.land (Z.lor (byte (Z.shiftl e 4)) (byte p)) 15 = p.
Proof.
  intros t e p Ht He Hp.
  pose proof (forallb_range
    (fun t => (byte t =? t) && (Z.shiftr t 6 =? t / 64) && (Z.land t 3 =? t mod 4))
    256 ltac:(vm_compute; reflexivity) t Ht) as H1.
  pose proof (forallb_range2
    (fun e p => (Z.shiftr (Z.lor (byte (Z.shiftl e 4)) (byte p)) 4 =? e) &&
                (Z.land (Z.lor (byte (Z.shiftl e 4)) (byte p)) 15 =? p))
    16 16 ltac:(vm_compute; reflexivity) e p He Hp) as H2.
  cbv beta in H1, H2.
  andb_eqs. repeat split; assumption.
Qed.

Lemma v0_Decode_rejected (m dst : Message) :
  64 <= Type_ m <= 255 ->
  coderv0.Decode (v0_frame m) dst = (dst, (-1, Some ErrMessageInvalidVersion)).
Proof.
  intros Ht. unfold coderv0.Decode. rewrite v0_frame_len.
  assert (0 <= slen (Payload m)) as Hpn by (rewrite <- slen_sbytes; apply len_nonneg).
  destruct (Z.ltb_spec (4 + slen (Payload m)) 4); [lia|].
  assert (at_ (v0_frame m) 0 = byte (Type_ m)) as -> by reflexivity.
  destruct (v0_header_bits (Type_ m) 0 0 ltac:(lia) ltac:(lia) ltac:(lia))
    as (-> & -> & _).
  assert (1 <= Type_ m / 64) by (apply Z.div_le_lower_bound; lia).
  destruct (Z.eqb_spec (Type_ m / 64) 0); [lia | reflexivity].
Qed.

Lemma v0_Decode_accepted (m dst : Message) :
  0 <= Type_ m < 64 ->
  ValidateEID (EncoderID m) = true ->
  ValidateETP (EncoderType m) = true ->
  coderv0.Decode (v0_frame m) dst =
    (mkMessage Version0 (Token dst) (Opts dst) (Code dst)
       (Some (sbytes (Payload m))) (MessageID dst) (Type_ m mod 4)
       (EncoderID m) (EncoderType m) (CRC16Bytes (sbytes (Payload m))) (Rsum8 dst),
     (len (v0_frame m), None)).
Proof.
  intros Ht Heid Hetp. apply ValidateEID_spec in Heid. apply ValidateETP_spec in Hetp.
  unfold coderv0.Decode. rewrite v0_frame_len.
  assert (0 <= slen (Payload m)) as Hpn by (rewrite <- slen_sbytes; apply len_nonneg).
  destruct (Z.ltb_spec (4 + slen (Payload m)) 4); [lia|].
  assert (at_ (v0_frame m) 0 = byte (Type_ m)) as -> by reflexivity.
  assert (at_ (v0_frame m) 1 =
          Z.lor (byte (Z.shiftl (EncoderID m) 4)) (byte (EncoderType m))) as ->
    by reflexivity.
  assert (upto 2 (from 2 (v0_frame m)) =
          LittleEndian_bytes16 (CRC16Bytes (sbytes (Payload m)))) as -> by reflexivity.
  assert (from 4 (v0_frame m) = sbytes (Payload m)) as -> by reflexivity.
  destruct (v0_header_bits (Type_ m) (EncoderID m) (EncoderType m)
              ltac:(lia) ltac:(lia) ltac:(lia)) as (-> & -> & -> & -> & ->).
  rewrite Z.div_small by lia. cbn [Z.eqb negb].
  rewrite LittleEndian_roundtrip by apply CRC16Bytes_range.
  cbn [Crc16 Payload sbytes]. rewrite Z.eqb_refl. reflexivity.
Qed.

(** ** The first byte of a version-1 frame *)

Lemma v1_header_bits (t k : Z) :
  0 <= t < 256 -> 0 <= k < 9 ->
  let b0 := Z.lor (Z.lor (Z.shiftl 1 6) (byte (Z.shiftl (byte t) 4)))
                  (byte (Z.land 15 k)) in
  Z.shiftr b0 6 = (if Z.testbit t 3 then 3 else 1) /\
  Z.land (Z.shiftr b0 4) 3 = t mod 4 /\
  Z.land b0 15 = k.
Proof.
  intros Ht Hk.
  pose proof (forallb_range2
    (fun t k =>
       let b0 := Z.lor (Z.lor (Z.shiftl 1 6) (byte (Z.shiftl (byte t) 4)))
                       (byte (Z.land 15 k)) in
       (Z.shiftr b0 6 =? (if Z.testbit t 3 then 3 else 1)) &&
       (Z.land (Z.shiftr b0 4) 3 =? t mod 4) &&
       (Z.land b0 15 =? k))
    256 9 ltac:(vm_compute; reflexivity) t k Ht Hk) as H.
  cbv beta zeta in H. andb_eqs. cbv zeta. repeat split; assumption.
Qed.

Lemma v1_frame_at_0 (m : Message) (W : list Z) :
  at_ (v1_frame m W) 0 =
    Z.lor (Z.lor (Z.shiftl 1 6) (byte (Z.shiftl (byte (Type_ m)) 4)))
          (byte (Z.land 15 (slen (Token m)))).
Proof. reflexivity. Qed.

Lemma slen_nonneg (s : option (list Z)) : 0 <= slen s.
Proof. rewrite <- slen_sbytes. apply len_nonneg. Qed.

Lemma v1_Decode_rejected (m dst : Message) (W : list Z) :
  0 <= Type_ m <= 255 -> slen (Token m) <= 8 ->
  Z.testbit (Type_ m) 3 = true ->
  coderv1.Decode (v1_frame m W) dst = (dst, (-1, Some ErrMessageInvalidVersion)).
Proof.
  intros Ht Htok Hbit. unfold coderv1.Decode.
  rewrite v1_frame_len.
  pose proof (slen_nonneg (Token m)). pose proof (len_nonneg W).
  pose proof (len_nonneg (payload_wire (Payload m))).
  destruct (Z.ltb_spec (4 + slen (Token m) + len W + len (payload_wire (Payload m))) 4);
    [lia|].
  rewrite v1_frame_at_0.
  destruct (v1_header_bits (Type_ m) (slen (Token m)) ltac:(lia) ltac:(lia))
    as (-> & _ & _).
  rewrite Hbit. reflexivity.
Qed.

Lemma v1_Decode_success (data : list Z) (dst m' : Message) (n : Z) :
  coderv1.Decode data dst = (m', (n, None)) ->
  Ver m' = Version1 /\
  Type_ m' = Z.land (Z.shiftr (at_ data 0) 4) 3 /\
  Code m' = at_ data 1 /\
  n = len data.
Proof.
  unfold coderv1.Decode.
  destruct (len data <? 4); [discriminate|].
  destruct (negb (Z.shiftr (at_ data 0) 6 =? 1)); [discriminate|].
  destruct (8 <? Z.land (at_ data 0) 15); [discriminate|].
  destruct (len (from 4 data) <? Z.land (at_ data 0) 15); [discriminate|].
  destruct (Options_Unmarshal _ _ _) as (opts & (proc & [e|])); [discriminate|].
  intros H. injection H as <- <-. repeat split.
Qed.

(** ** The message type on the wire *)

(** C9 (as amended).  [ValidateType] accepts exactly 0..255, and the
    version-0 and version-1 encoders succeed for every such type and write
    it unmasked: byte 0 is the type itself in version 0, and
    [0x40 | byte(type)<<4 | TKL] in version 1.  The version bits of the
    frame are then [type / 64] in version 0 and 1 or 3 (bit 3 of the type)
    in version 1; [Decode] rejects the frame with
    [ErrMessageInvalidVersion] when they differ from its version (type 64
    and above in version 0, bit 3 set in version 1).  Otherwise the frame
    passes the version check, and a decoded message carries [type mod 4],
    which is the type that was encoded only for types 0..3. *)
Theorem type_is_written_unmasked_by_v0_and_v1 :
  (forall t, ValidateType t = true <-> 0 <= t <= 255) /\
  (forall (m dst : Message) (buf : list Z),
     ValidateType (Type_ m) = true ->
     ValidateEID (EncoderID m) = true ->
     ValidateETP (EncoderType m) = true ->
     len (v0_frame m) <= len buf ->
     coderv0.Encode m buf =
       Done (v0_frame m ++ from (len (v0_frame m)) buf, (len (v0_frame m), None)) /\
     at_ (v0_frame m) 0 = Type_ m /\
     Z.shiftr (at_ (v0_frame m) 0) 6 = Type_ m / 64 /\
     (64 <= Type_ m ->
      coderv0.Decode (v0_frame m) dst = (dst, (-1, Some ErrMessageInvalidVersion))) /\
     (Type_ m < 64 ->
      snd (coderv0.Decode (v0_frame m) dst) = (len (v0_frame m), None)) /\
     (forall m' n,
        coderv0.Decode (v0_frame m) dst = (m', (n, None)) ->
        Type_ m' = Type_ m mod 4 /\ (4 <= Type_ m -> Type_ m' <> Type_ m))) /\
  (forall (m dst : Message) (W buf : list Z),
     ValidateType (Type_ m) = true ->
     ValidateMID (MessageID m) = true ->
     slen (Token m) <= 8 ->
     options_wire 0 (sort_Stable (items (Opts m))) = Done W ->
     len (v1_frame m W) <= len buf ->
     coderv1.Encode m buf =
       Done (v1_frame m W ++ from (len (v1_frame m W)) buf,
             (len (v1_frame m W), None)) /\
     Z.shiftr (at_ (v1_frame m W) 0) 6 = (if Z.testbit (Type_ m) 3 then 3 else 1) /\
     (Z.testbit (Type_ m) 3 = true ->
      coderv1.Decode (v1_frame m W) dst = (dst, (-1, Some ErrMessageInvalidVersion))) /\
     (forall m' n,
        coderv1.Decode (v1_frame m W) dst = (m', (n, None)) ->
        Type_ m' = Type_ m mod 4 /\ (4 <= Type_ m -> Type_ m' <> Type_ m))).
Proof.
  split; [exact ValidateType_spec|]. split.
  - intros m dst buf Htyp Heid Hetp Hlen.
    pose proof (proj1 (ValidateType_spec _) Htyp) as Ht.
    destruct (v0_header_bits (Type_ m) 0 0 ltac:(lia) ltac:(lia) ltac:(lia))
      as (Hb & Hs & _).
    assert (at_ (v0_frame m) 0 = Type_ m) as H0 by exact Hb.
    split; [apply v0_Encode_fits; assumption|].
    split; [exact H0|].
    split; [rewrite H0; exact Hs|].
    split; [intros H64; apply v0_Decode_rejected; lia|].
    split.
    + intros H64. rewrite v0_Decode_accepted by (assumption || lia). reflexivity.
    + intros m' n Hdec.
      destruct (Z.lt_ge_cases (Type_ m) 64) as [H64 | H64].
      * rewrite v0_Decode_accepted in Hdec by (assumption || lia).
        injection Hdec as <- _. cbn [Type_].
        pose proof (Z.mod_pos_bound (Type_ m) 4 ltac:(lia)).
        split; [reflexivity | lia].
      * rewrite v0_Decode_rejected in Hdec by lia. discriminate Hdec.
  - intros m dst W buf Htyp Hmid Htok HW Hlen.
    pose proof (proj1 (ValidateType_spec _) Htyp) as Ht.
    pose proof (slen_nonneg (Token m)) as Htn.
    destruct (v1_header_bits (Type_ m) (slen (Token m)) ltac:(lia) ltac:(lia))
      as (Hv & Hty & _).
    split; [apply v1_Encode_fits; assumption|].
    split; [rewrite v1_frame_at_0; exact Hv|].
    split; [intros Hbit; apply v1_Decode_rejected; assumption || lia|].
    intros m' n Hdec.
    destruct (v1_Decode_success _ _ _ _ Hdec) as (_ & Hty' & _).
    rewrite v1_frame_at_0, Hty in Hty'.
    pose proof (Z.mod_pos_bound (Type_ m) 4 ltac:(lia)).
    split; [exact Hty' | lia].
Qed.

Lemma type_is_written_unmasked_by_v0_and_v1_witness :
  (coderv0.Encode coreV0Type4 (repeat 0 7) = Done ([4; 0; 241; 145; 0; 1; 2], (7, None)) /\
   snd (coderv0.Decode [4; 0; 241; 145; 0; 1; 2] sampleCore) = (7, None)) /\
  (coderv1.Encode coreV1Type8 (repeat 0 4) = Done ([192; 1; 18; 52], (4, None)) /\
   coderv1.Decode [192; 1; 18; 52] sampleCore =
     (sampleCore, (-1, Some ErrMessageInvalidVersion))).
Proof.
  destruct type_is_written_unmasked_by_v0_and_v1 as (_ & H0 & H1).
  destruct (H0 coreV0Type4 sampleCore (repeat 0 7)) as (He & _ & _ & _ & Ha & _);
    [reflexivity | reflexivity | reflexivity | vm_compute; discriminate |].
  destruct (H1 coreV1Type8 sampleCore [] (repeat 0 4)) as (He1 & _ & Hr & _);
    [reflexivity | reflexivity | vm_compute; discriminate | reflexivity
    | vm_compute; discriminate |].
  split.
  - split; [exact He | apply Ha; vm_compute; reflexivity].
  - split; [exact He1 | apply Hr; reflexivity].
Defined.

(** C9, counterexample.  Type 4 passes [ValidateType]; the version-0 frame
    of such a message starts with 0x04 and the version-1 frame with 0x40, so
    the version bits are those of the encoder and [Decode] accepts the
    frame, with type 0. *)
Lemma type_4_frames_pass_the_version_check :
  ValidateType 4 = true /\
  (exists frame,
     coderv0.Encode coreV0Type4 (repeat 0 7) = Done (frame, (7, None)) /\
     Z.shiftr (at_ frame 0) 6 = Version0 /\
     snd (coderv0.Decode frame sampleCore) = (7, None) /\
     Type_ (fst (coderv0.Decode frame sampleCore)) = 0) /\
  (exists frame,
     coderv1.Encode coreV1Type4 (repeat 0 4) = Done (frame, (4, None)) /\
     Z.shiftr (at_ frame 0) 6 = Version1 /\
     snd (coderv1.Decode frame sampleCore) = (4, None) /\
     Type_ (fst (coderv1.Decode frame sampleCore)) = 0).
Proof.
  split; [reflexivity|]. split.
  - exists [4; 0; 241; 145; 0; 1; 2]. vm_compute. repeat split.
  - exists [64; 1; 18; 52]. vm_compute. repeat split.
Qed.

(** ** What a failed decode leaves in the message *)

Lemma v2_parse_failure (data : list Z) (m m' : Message) (e : error) :
  v2_parse data m = (m', inl e) ->
  (e = ErrMessageTruncated /\ len data < 8 /\ m' = m) \/
  (e = ErrMessageInvalidRSUM8 /\ RSUM8 data <> 0 /\ m' = m) \/
  (e = ErrMessageInvalidVersion /\ Z.shiftr (at_ data 0) 6 <> 2 /\ m' = m) \/
  (e = ErrInvalidTokenLen /\ 8 < Z.land (Z.shiftr (at_ data 0) 2) 15 /\ m' = m) \/
  (e = ErrMessageTruncated /\
   len (from 8 data) < Z.land (Z.shiftr (at_ data 0) 2) 15 /\ m' = m) \/
  (exists opts proc,
     Options_Unmarshal (Opts m)
       (from (Z.land (Z.shiftr (at_ data 0) 2) 15) (from 8 data)) CoapOptionDefs =
       (opts, (proc, Some e)) /\
     m' = set_Opts m opts).
Proof.
  unfold v2_parse.
  destruct (Z.ltb_spec (len data) 8).
  { intros Hret. injection Hret as <- <-. left. auto. }
  destruct (Z.eqb_spec (RSUM8 data) 0); cbn [negb].
  2:{ intros Hret. injection Hret as <- <-. right. left. auto. }
  destruct (Z.eqb_spec (Z.shiftr (at_ data 0) 6) 2); cbn [negb].
  2:{ intros Hret. injection Hret as <- <-. right. right. left. auto. }
  destruct (Z.ltb_spec 8 (Z.land (Z.shiftr (at_ data 0) 2) 15)).
  { intros Hret. injection Hret as <- <-. right. right. right. left. auto. }
  destruct (Z.ltb_spec (len (from 8 data)) (Z.land (Z.shiftr (at_ data 0) 2) 15)).
  { intros Hret. injection Hret as <- <-. right. right. right. right. left. auto. }
  destruct (Options_Unmarshal _ _ _) as (opts & (proc & [e'|])) eqn:HU.
  - intros Hret. injection Hret as <- <-. do 5 right. exists opts, proc. auto.
  - intros Hret. discriminate Hret.
Qed.

(** From a failure back to its cause: a failed [Decode] returned -1, and
    its error names a check that the input did not pass. *)
Lemma decode_failure_causes :
  (forall data m m' n e,
     coderv0.Decode data m = (m', (n, Some e)) ->
     n = -1 /\
     ((e = ErrMessageTruncated /\ len data < 4 /\ m' = m) \/
      (e = ErrMessageInvalidVersion /\ Z.shiftr (at_ data 0) 6 <> 0 /\ m' = m) \/
      (e = ErrInvalidRCRC16 /\
       LittleEndian_Uint16 (upto 2 (from 2 data)) <> CRC16Bytes (from 4 data) /\
       m' = mkMessage Version0 (Token m) (Opts m) (Code m) (Some (from 4 data))
              (MessageID m) (Z.land (at_ data 0) 3) (Z.shiftr (at_ data 1) 4)
              (Z.land (at_ data 1) 15) (LittleEndian_Uint16 (upto 2 (from 2 data)))
              (Rsum8 m)))) /\
  (forall data m m' n e,
     coderv1.Decode data m = (m', (n, Some e)) ->
     n = -1 /\
     ((e = ErrMessageTruncated /\ len data < 4 /\ m' = m) \/
      (e = ErrMessageInvalidVersion /\ Z.shiftr (at_ data 0) 6 <> 1 /\ m' = m) \/
      (e = ErrInvalidTokenLen /\ 8 < Z.land (at_ data 0) 15 /\ m' = m) \/
      (e = ErrMessageTruncated /\
       len (from 4 data) < Z.land (at_ data 0) 15 /\ m' = m) \/
      (exists opts proc,
         Options_Unmarshal (Opts m)
           (from (Z.land (at_ data 0) 15) (from 4 data)) CoapOptionDefs =
           (opts, (proc, Some e)) /\
         m' = set_Opts m opts))) /\
  (forall data m m' n e,
     coderv2.Decode data m = (m', (n, Some e)) ->
     n = -1 /\
     ((e = ErrMessageTruncated /\ len data < 8 /\ m' = m) \/
      (e = ErrMessageInvalidRSUM8 /\ RSUM8 data <> 0 /\ m' = m) \/
      (e = ErrMessageInvalidVersion /\ Z.shiftr (at_ data 0) 6 <> 2 /\ m' = m) \/
      (e = ErrInvalidTokenLen /\ 8 < Z.land (Z.shiftr (at_ data 0) 2) 15 /\ m' = m) \/
      (e = ErrMessageTruncated /\
       len (from 8 data) < Z.land (Z.shiftr (at_ data 0) 2) 15 /\ m' = m) \/
      (exists opts proc,
         Options_Unmarshal (Opts m)
           (from (Z.land (Z.shiftr (at_ data 0) 2) 15) (from 8 data)) CoapOptionDefs =
           (opts, (proc, Some e)) /\
         m' = set_Opts m opts) \/
      (e = ErrInvalidRCRC16 /\
       exists m1 p,
         v2_parse data m = (m1, inr p) /\
         p_crc16 p <> CRC16Bytes (sbytes (p_payload p)) /\
         p_crc16 p = BigEndian_Uint16 (upto 2 (from 2 data)) /\
         m' = mkMessage (Ver m) (p_token p) (Opts m1) (p_code p) (p_payload p)
                (p_messageID p) (p_typ p) (p_eid p) (p_etp p) (p_crc16 p)
                (Rsum8 m)))).
Proof.
  split; [|split].
  - intros data m m' n e. unfold coderv0.Decode.
    destruct (Z.ltb_spec (len data) 4).
    { intros Hret. injection Hret as <- <- <-. split; [reflexivity|]. left. auto. }
    destruct (Z.eqb_spec (Z.shiftr (at_ data 0) 6) 0); cbn [negb].
    2:{ intros Hret. injection Hret as <- <- <-. split; [reflexivity|]. right. left. auto. }
    cbn [Crc16 Payload sbytes].
    destruct (Z.eqb_spec (LittleEndian_Uint16 (upto 2 (from 2 data)))
                         (CRC16Bytes (from 4 data))); cbn [negb].
    { intros Hret. discriminate Hret. }
    intros Hret. injection Hret as <- <- <-. split; [reflexivity|]. right. right. auto.
  - intros data m m' n e. unfold coderv1.Decode.
    destruct (Z.ltb_spec (len data) 4).
    { intros Hret. injection Hret as <- <- <-. split; [reflexivity|]. left. auto. }
    destruct (Z.eqb_spec (Z.shiftr (at_ data 0) 6) 1); cbn [negb].
    2:{ intros Hret. injection Hret as <- <- <-. split; [reflexivity|]. right. left. auto. }
    destruct (Z.ltb_spec 8 (Z.land (at_ data 0) 15)).
    { intros Hret. injection Hret as <- <- <-. split; [reflexivity|].
      right. right. left. auto. }
    destruct (Z.ltb_spec (len (from 4 data)) (Z.land (at_ data 0) 15)).
    { intros Hret. injection Hret as <- <- <-. split; [reflexivity|].
      right. right. right. left. auto. }
    destruct (Options_Unmarshal _ _ _) as (opts & (proc & [e'|])) eqn:HU.
    + intros Hret. injection Hret as <- <- <-. split; [reflexivity|].
      do 4 right. exists opts, proc. auto.
    + intros Hret. discriminate Hret.
  - intros data m m' n e. unfold coderv2.Decode.
    destruct (v2_parse data m) as (m1 & [e1 | p]) eqn:HP.
    + intros Hret. injection Hret as <- <- <-. split; [reflexivity|].
      destruct (v2_parse_failure _ _ _ _ HP)
        as [H | [H | [H | [H | [H | H]]]]]; tauto.
    + cbn [Crc16 Payload].
      destruct (Z.eqb_spec (p_crc16 p) (CRC16Bytes (sbytes (p_payload p))));
        cbn [negb]; intros Hret; [discriminate Hret|].
      injection Hret as <- <- <-. split; [reflexivity|].
      do 6 right. split; [reflexivity|]. exists m1, p.
      split; [reflexivity|]. split; [assumption|]. split; [|].
      * revert HP. unfold v2_parse.
        destruct (len data <? 8); [discriminate|].
        destruct (negb (RSUM8 data =? 0)); [discriminate|].
        destruct (negb (Z.shiftr (at_ data 0) 6 =? 2)); [discriminate|].
        destruct (8 <? Z.land (Z.shiftr (at_ data 0) 2) 15); [discriminate|].
        destruct (len (from 8 data) <? Z.land (Z.shiftr (at_ data 0) 2) 15);
          [discriminate|].
        destruct (Options_Unmarshal _ _ _) as (opts & (proc & [e'|]));
          [discriminate|].
        intros Hret. injection Hret as _ <-. reflexivity.
      * revert HP. unfold v2_parse.
        destruct (len data <? 8); [discriminate|].
        destruct (negb (RSUM8 data =? 0)); [discriminate|].
        destruct (negb (Z.shiftr (at_ data 0) 6 =? 2)); [discriminate|].
        destruct (8 <? Z.land (Z.shiftr (at_ data 0) 2) 15); [discriminate|].
        destruct (len (from 8 data) <? Z.land (Z.shiftr (at_ data 0) 2) 15);
          [discriminate|].
        destruct (Options_Unmarshal _ _ _) as (opts & (proc & [e'|]));
          [discriminate|].
        intros Hret. injection Hret as <- _. reflexivity.
Qed.

(** C3 (as amended).  [Decode] runs its checks in a fixed order and the
    first one that fails decides the result, which is -1 and the error of
    that check.  A frame that is too short, has the wrong version bits, a
    token length above 8, a truncated token or (in version 2) a wrong RSUM8
    leaves the message as it was.  An option parse error leaves every field
    but the option list as it was.  When all of these pass and the CRC16
    field (versions 0 and 2) does not match the CRC16 of the payload,
    [Decode] returns [ErrInvalidRCRC16] with the parsed fields and the
    payload already stored in the message; when it matches, and in
    version 1, [Decode] succeeds with the length of the input. *)
Theorem decode_failures_and_what_they_leave (data : list Z) (m : Message) :
  (* version 0 *)
  (len data < 4 ->
   coderv0.Decode data m = (m, (-1, Some ErrMessageTruncated))) /\
  (4 <= len data -> Z.shiftr (at_ data 0) 6 <> 0 ->
   coderv0.Decode data m = (m, (-1, Some ErrMessageInvalidVersion))) /\
  (4 <= len data -> Z.shiftr (at_ data 0) 6 = 0 ->
   let crc16 := LittleEndian_Uint16 (upto 2 (from 2 data)) in
   let stored :=
     mkMessage Version0 (Token m) (Opts m) (Code m) (Some (from 4 data))
       (MessageID m) (Z.land (at_ data 0) 3) (Z.shiftr (at_ data 1) 4)
       (Z.land (at_ data 1) 15) crc16 (Rsum8 m) in
   (crc16 <> CRC16Bytes (from 4 data) ->
    coderv0.Decode data m = (stored, (-1, Some ErrInvalidRCRC16))) /\
   (crc16 = CRC16Bytes (from 4 data) ->
    coderv0.Decode data m = (stored, (len data, None)))) /\
  (* version 1 *)
  (len data < 4 ->
   coderv1.Decode data m = (m, (-1, Some ErrMessageTruncated))) /\
  (4 <= len data -> Z.shiftr (at_ data 0) 6 <> 1 ->
   coderv1.Decode data m = (m, (-1, Some ErrMessageInvalidVersion))) /\
  (4 <= len data -> Z.shiftr (at_ data 0) 6 = 1 ->
   let tokenLen := Z.land (at_ data 0) 15 in
   (8 < tokenLen ->
    coderv1.Decode data m = (m, (-1, Some ErrInvalidTokenLen))) /\
   (tokenLen <= 8 -> len (from 4 data) < tokenLen ->
    coderv1.Decode data m = (m, (-1, Some ErrMessageTruncated))) /\
   (tokenLen <= 8 -> tokenLen <= len (from 4 data) ->
    forall opts proc err,
      Options_Unmarshal (Opts m) (from tokenLen (from 4 data)) CoapOptionDefs =
        (opts, (proc, err)) ->
      match err with
      | Some e => coderv1.Decode data m = (set_Opts m opts, (-1, Some e))
      | None =>
          coderv1.Decode data m =
            (mkMessage Version1 (nil_if_empty (Some (upto tokenLen (from 4 data))))
               opts (at_ data 1)
               (nil_if_empty (Some (from proc (from tokenLen (from 4 data)))))
               (BigEndian_Uint16 (upto 2 (from 2 data)))
               (Z.land (Z.shiftr (at_ data 0) 4) 3)
               (EncoderID m) (EncoderType m) (Crc16 m) (Rsum8 m),
             (len data, None))
      end)) /\
  (* version 2 *)
  (len data < 8 ->
   coderv2.Decode data m = (m, (-1, Some ErrMessageTruncated))) /\
  (8 <= len data -> RSUM8 data <> 0 ->
   coderv2.Decode data m = (m, (-1, Some ErrMessageInvalidRSUM8))) /\
  (8 <= len data -> RSUM8 data = 0 -> Z.shiftr (at_ data 0) 6 <> 2 ->
   coderv2.Decode data m = (m, (-1, Some ErrMessageInvalidVersion))) /\
  (8 <= len data -> RSUM8 data = 0 -> Z.shiftr (at_ data 0) 6 = 2 ->
   let tokenLen := Z.land (Z.shiftr (at_ data 0) 2) 15 in
   (8 < tokenLen ->
    coderv2.Decode data m = (m, (-1, Some ErrInvalidTokenLen))) /\
   (tokenLen <= 8 -> len (from 8 data) < tokenLen ->
    coderv2.Decode data m = (m, (-1, Some ErrMessageTruncated))) /\
   (tokenLen <= 8 -> tokenLen <= len (from 8 data) ->
    forall opts proc err,
      Options_Unmarshal (Opts m) (from tokenLen (from 8 data)) CoapOptionDefs =
        (opts, (proc, err)) ->
      match err with
      | Some e => coderv2.Decode data m = (set_Opts m opts, (-1, Some e))
      | None =>
          let crc16 := BigEndian_Uint16 (upto 2 (from 2 data)) in
          let payload := from proc (from tokenLen (from 8 data)) in
          let stored :=
            mkMessage (Ver m) (nil_if_empty (Some (upto tokenLen (from 8 data))))
              opts (at_ data 6) (nil_if_empty (Some payload))
              (BigEndian_Uint16 (upto 2 (from 4 data)))
              (Z.land (at_ data 0) 3) (Z.shiftr (at_ data 1) 4)
              (Z.land (at_ data 1) 15) crc16 (Rsum8 m) in
          (crc16 <> CRC16Bytes payload ->
           coderv2.Decode data m = (stored, (-1, Some ErrInvalidRCRC16))) /\
          (crc16 = CRC16Bytes payload ->
           coderv2.Decode data m = (stored, (len data, None)))
      end)) /\
  (* every failure *)
  (forall m' n e,
     coderv0.Decode data m = (m', (n, Some e)) \/
     coderv1.Decode data m = (m', (n, Some e)) \/
     coderv2.Decode data m = (m', (n, Some e)) -> n = -1).
Proof.
  assert (forall d : list Z,
            sbytes (if len d =? 0 then None else Some d) = d) as Hsb.
  { intros d. destruct (Z.eqb_spec (len d) 0) as [E | _]; [|reflexivity].
    symmetry. apply len_0_nil, E. }
  repeat match goal with |- _ /\ _ => split end.
  - intros Hlen. unfold coderv0.Decode.
    destruct (Z.ltb_spec (len data) 4); [reflexivity | lia].
  - intros Hlen Hver. unfold coderv0.Decode.
    destruct (Z.ltb_spec (len data) 4); [lia|].
    destruct (Z.eqb_spec (Z.shiftr (at_ data 0) 6) 0); [contradiction | reflexivity].
  - intros Hlen Hver. cbv zeta. unfold coderv0.Decode.
    destruct (Z.ltb_spec (len data) 4); [lia|].
    rewrite Hver. cbn [Z.eqb negb Crc16 Payload sbytes].
    split; intros Hcrc;
      destruct (Z.eqb_spec (LittleEndian_Uint16 (upto 2 (from 2 data)))
                           (CRC16Bytes (from 4 data)));
      try contradiction; reflexivity.
  - intros Hlen. unfold coderv1.Decode.
    destruct (Z.ltb_spec (len data) 4); [reflexivity | lia].
  - intros Hlen Hver. unfold coderv1.Decode.
    destruct (Z.ltb_spec (len data) 4); [lia|].
    destruct (Z.eqb_spec (Z.shiftr (at_ data 0) 6) 1); [contradiction | reflexivity].
  - intros Hlen Hver. cbv zeta. unfold coderv1.Decode.
    destruct (Z.ltb_spec (len data) 4); [lia|].
    rewrite Hver. cbn [Z.eqb Pos.eqb negb].
    split; [|split].
    + intros Htok. destruct (Z.ltb_spec 8 (Z.land (at_ data 0) 15)); [reflexivity | lia].
    + intros Htok Hshort.
      destruct (Z.ltb_spec 8 (Z.land (at_ data 0) 15)); [lia|].
      destruct (Z.ltb_spec (len (from 4 data)) (Z.land (at_ data 0) 15));
        [reflexivity | lia].
    + intros Htok Hfits opts proc err HU.
      destruct (Z.ltb_spec 8 (Z.land (at_ data 0) 15)); [lia|].
      destruct (Z.ltb_spec (len (from 4 data)) (Z.land (at_ data 0) 15)); [lia|].
      rewrite HU. destruct err; reflexivity.
  - intros Hlen. unfold coderv2.Decode, v2_parse.
    destruct (Z.ltb_spec (len data) 8); [reflexivity | lia].
  - intros Hlen Hsum. unfold coderv2.Decode, v2_parse.
    destruct (Z.ltb_spec (len data) 8); [lia|].
    destruct (Z.eqb_spec (RSUM8 data) 0); [contradiction | reflexivity].
  - intros Hlen Hsum Hver. unfold coderv2.Decode, v2_parse.
    destruct (Z.ltb_spec (len data) 8); [lia|].
    rewrite Hsum. cbn [Z.eqb negb].
    destruct (Z.eqb_spec (Z.shiftr (at_ data 0) 6) 2); [contradiction | reflexivity].
  - intros Hlen Hsum Hver. cbv zeta. unfold coderv2.Decode, v2_parse.
    destruct (Z.ltb_spec (len data) 8); [lia|].
    rewrite Hsum, Hver. cbn [Z.eqb Pos.eqb negb].
    split; [|split].
    + intros Htok.
      destruct (Z.ltb_spec 8 (Z.land (Z.shiftr (at_ data 0) 2) 15));
        [reflexivity | lia].
    + intros Htok Hshort.
      destruct (Z.ltb_spec 8 (Z.land (Z.shiftr (at_ data 0) 2) 15)); [lia|].
      destruct (Z.ltb_spec (len (from 8 data)) (Z.land (Z.shiftr (at_ data 0) 2) 15));
        [reflexivity | lia].
    + intros Htok Hfits opts proc err HU.
      destruct (Z.ltb_spec 8 (Z.land (Z.shiftr (at_ data 0) 2) 15)); [lia|].
      destruct (Z.ltb_spec (len (from 8 data)) (Z.land (Z.shiftr (at_ data 0) 2) 15));
        [lia|].
      rewrite HU. destruct err as [e|]; [reflexivity|].
      cbn [p_typ p_token p_eid p_etp p_crc16 p_messageID p_code p_payload
           Crc16 Payload Opts Ver Rsum8 set_Opts].
      rewrite Hsb.
      split; intros Hcrc;
        match goal with
        | |- context [negb (?a =? ?b)] => destruct (Z.eqb_spec a b)
        end; try contradiction; reflexivity.
  - destruct decode_failure_causes as (H0 & H1 & H2).
    intros m' n e [H | [H | H]];
      [apply H0 in H | apply H1 in H | apply H2 in H]; apply H.
Qed.

Lemma decode_failures_and_what_they_leave_witness :
  coderv0.Decode [0; 0; 0] sampleCore = (sampleCore, (-1, Some ErrMessageTruncated)) /\
  coderv1.Decode [128; 1; 18; 52] sampleCore =
    (sampleCore, (-1, Some ErrMessageInvalidVersion)) /\
  coderv2.Decode [129; 80; 94; 238; 0; 1; 2; 6; 255; 104; 105] sampleCore =
    (sampleCore, (-1, Some ErrMessageInvalidRSUM8)) /\
  coderv0.Decode [0; 0; 0; 0; 1] sampleCore =
    (mkMessage Version0 None (mkOptions [] 16) 0 (Some [1]) (-1) 0 0 0 0 0,
     (-1, Some ErrInvalidRCRC16)).
Proof.
  split; [|split; [|split]].
  - destruct (decode_failures_and_what_they_leave [0; 0; 0] sampleCore) as (H & _).
    apply H. vm_compute. reflexivity.
  - destruct (decode_failures_and_what_they_leave [128; 1; 18; 52] sampleCore)
      as (_ & _ & _ & _ & H & _).
    apply H; vm_compute; discriminate.
  - destruct (decode_failures_and_what_they_leave
                [129; 80; 94; 238; 0; 1; 2; 6; 255; 104; 105] sampleCore)
      as (_ & _ & _ & _ & _ & _ & _ & H & _).
    apply H; vm_compute; discriminate.
  - destruct (decode_failures_and_what_they_leave [0; 0; 0; 0; 1] sampleCore)
      as (_ & _ & H & _).
    apply H; [vm_compute; discriminate | vm_compute; reflexivity
             | vm_compute; discriminate].
Defined.

(** C3, counterexample.  A version-0 frame and a version-2 frame (its RSUM8
    is right) whose CRC16 field does not match the payload: [Decode] returns
    [ErrInvalidRCRC16], and the message is no longer what it was: version-0
    [Decode] has stored the version, type, encoder fields, CRC16 and
    payload, version-2 [Decode] the token, code, message id, type, encoder
    fields, CRC16 and payload. *)
Lemma crc16_mismatch_overwrites_the_message :
  snd (coderv0.Decode [0; 0; 0; 0; 1] sampleCore) = (-1, Some ErrInvalidRCRC16) /\
  fst (coderv0.Decode [0; 0; 0; 0; 1] sampleCore) <> sampleCore /\
  Payload (fst (coderv0.Decode [0; 0; 0; 0; 1] sampleCore)) = Some [1] /\
  snd (coderv2.Decode [129; 80; 94; 239; 0; 1; 2; 4; 255; 104; 105] sampleCore) =
    (-1, Some ErrInvalidRCRC16) /\
  fst (coderv2.Decode [129; 80; 94; 239; 0; 1; 2; 4; 255; 104; 105] sampleCore)
    <> sampleCore /\
  Payload (fst (coderv2.Decode [129; 80; 94; 239; 0; 1; 2; 4; 255; 104; 105] sampleCore))
    = Some [104; 105].
Proof.
  split; [vm_compute; reflexivity|].
  split; [intros H; vm_compute in H; discriminate H|].
  split; [vm_compute; reflexivity|].
  split; [vm_compute; reflexivity|].
  split; [intros H; vm_compute in H; discriminate H|].
  vm_compute; reflexivity.
Qed.

(** ** Options that the registry does not list *)

Lemma Option_Unmarshal_unlisted (o : Option) (optionID : Z) (data : list Z) :
  lookup CoapOptionDefs optionID = None ->
  Option_Unmarshal o CoapOptionDefs optionID data =
    (o, (-1, Some errUnrecognizedOption)).
Proof. intros H. unfold Option_Unmarshal. rewrite H. reflexivity. Qed.

Lemma CoapOptionDefs_formats_known :
  forallb (fun kd => match Format (snd kd) with ValueUnknown => false | _ => true end)
          CoapOptionDefs = true.
Proof. reflexivity. Qed.

Lemma parseOptionValue_unlisted (optionID : Z) (valueBuf : list Z) :
  lookup CoapOptionDefs optionID = None ->
  parseOptionValue optionID valueBuf = None.
Proof. intros H. unfold parseOptionValue, index. rewrite H. reflexivity. Qed.

(** C5, at the failing input.  Option number 2 is not in the registry.
    [Option.Unmarshal] returns the error "unrecognized option" for it, and
    the version-1 [Decode] fails the whole frame 40 01 12 34 20 with that
    error.  The legacy [UnmarshalBinary] decodes the same frame and leaves
    the option out, and both decoders leave out an option whose length is
    outside its bounds (an ETag of nine bytes). *)
Theorem unlisted_option_fails_the_v1_frame :
  lookup CoapOptionDefs 2 = None /\
  Option_Unmarshal zeroOption CoapOptionDefs 2 [] =
    (zeroOption, (-1, Some errUnrecognizedOption)) /\
  coderv1.Decode frameUnknownOption sampleCore =
    (sampleCore, (-1, Some errUnrecognizedOption)) /\
  secoap.UnmarshalBinary secoap.zeroMessage frameUnknownOption =
    (secoap.mkMessage None [] GET (Some []) 4660 Confirmable, None) /\
  coderv1.Decode frameLongETag sampleCore =
    (mkMessage Version1 None (mkOptions [] 16) GET None 4660 Confirmable 0 0 0 0,
     (14, None)) /\
  secoap.UnmarshalBinary secoap.zeroMessage frameLongETag =
    (secoap.mkMessage None [] GET (Some []) 4660 Confirmable, None).
Proof. vm_compute. repeat split. Qed.

(** ** RSUM8 in the version-2 encoder *)

(** C1, at the failing input.  src/coder/coderv2/coder.go advances [buf]
    past the header, the token, the options and the separator and then
    runs [buf[7] = RSUM8(buf[:size])] on the advanced slice.  For the
    message NonConfirmable POST, id 1, payload "hi" (size 11): with a buffer
    of exactly 11 bytes the slice [buf[:11]] exceeds the capacity left and
    the call panics; with a buffer of 256 bytes the sum is taken over bytes
    9..19 and stored at byte 16, byte 7 of the frame stays 0, RSUM8 of the
    frame is 5, not 0, and [Decode] rejects the frame.  The copy of the package in
    src/unnamed/part_001 keeps [buf] on the whole frame: it returns the
    frame with RSUM8 0, which [Decode] accepts. *)
Theorem coderv2_Encode_stores_rsum8_past_the_frame :
  coderv2.Size coreV2PostHi = Done (11, None) /\
  coderv2.Encode coreV2PostHi (repeat 0 11) [] = Panics /\
  (exists buf',
     coderv2.Encode coreV2PostHi (repeat 0 256) [] = Done (buf', (11, None)) /\
     upto 11 buf' = [129; 80; 94; 238; 0; 1; 2; 0; 255; 104; 105] /\
     at_ buf' 16 = 36 /\
     RSUM8 (upto 11 buf') = 5 /\
     coderv2.Decode (upto 11 buf') sampleCore =
       (sampleCore, (-1, Some ErrMessageInvalidRSUM8))) /\
  coderv2_pbuf.Encode coreV2PostHi (repeat 0 11) =
    Done ([129; 80; 94; 238; 0; 1; 2; 5; 255; 104; 105], (11, None)) /\
  RSUM8 [129; 80; 94; 238; 0; 1; 2; 5; 255; 104; 105] = 0 /\
  snd (coderv2.Decode [129; 80; 94; 238; 0; 1; 2; 5; 255; 104; 105] sampleCore) =
    (11, None).
Proof.
  split; [vm_compute; reflexivity|].
  split; [vm_compute; reflexivity|].
  split.
  - eexists. split; [vm_compute; reflexivity|].
    split; [vm_compute; reflexivity|].
    split; [vm_compute; reflexivity|].
    split; vm_compute; reflexivity.
  - split; [vm_compute; reflexivity|].
    split; vm_compute; reflexivity.
Qed.

(** ** The stable sort by ID *)

Lemma insert_by_ID_nondecreasing (o : Option) (l : list Option) (prev : Z) :
  prev <= ID o -> nondecreasing_from prev l ->
  nondecreasing_from prev (insert_by_ID o l).
Proof.
  revert prev. induction l as [|x l IH]; intros prev Ho Hl; cbn [insert_by_ID].
  - cbn. auto.
  - destruct Hl as [Hx Hl]. destruct (Z.leb_spec (ID o) (ID x)).
    + cbn [nondecreasing_from]. auto.
    + cbn [nondecreasing_from]. split; [exact Hx|]. apply IH; [lia | exact Hl].
Qed.

Lemma sort_Stable_nondecreasing (l : list Option) (prev : Z) :
  Forall (fun o => prev <= ID o) l -> nondecreasing_from prev (sort_Stable l).
Proof.
  induction 1 as [|x l Hx Hl IH]; cbn [sort_Stable fold_right]; [exact I|].
  apply insert_by_ID_nondecreasing; assumption.
Qed.

Lemma insert_by_ID_Permutation (o : Option) (l : list Option) :
  Permutation (insert_by_ID o l) (o :: l).
Proof.
  induction l as [|x l IH]; cbn [insert_by_ID]; [apply Permutation_refl|].
  destruct (ID o <=? ID x); [apply Permutation_refl|].
  apply Permutation_trans with (x :: o :: l);
    [apply perm_skip; exact IH | apply perm_swap].
Qed.

Lemma sort_Stable_Permutation (l : list Option) : Permutation (sort_Stable l) l.
Proof.
  induction l as [|x l IH]; cbn [sort_Stable fold_right]; [apply perm_nil|].
  apply Permutation_trans with (x :: sort_Stable l);
    [apply insert_by_ID_Permutation | apply perm_skip; exact IH].
Qed.

Lemma insert_by_ID_with_ID (id : Z) (o : Option) (l : list Option) :
  with_ID id (insert_by_ID o l) = with_ID id (o :: l).
Proof.
  induction l as [|x l IH]; cbn [insert_by_ID]; [reflexivity|].
  destruct (Z.leb_spec (ID o) (ID x)); [reflexivity|].
  unfold with_ID in *. cbn [filter] in *. rewrite IH.
  destruct (Z.eqb_spec (ID o) id), (Z.eqb_spec (ID x) id); try reflexivity.
  lia.
Qed.

Lemma sort_Stable_stable (id : Z) (l : list Option) :
  with_ID id (sort_Stable l) = with_ID id l.
Proof.
  induction l as [|x l IH]; cbn [sort_Stable fold_right]; [reflexivity|].
  fold (sort_Stable l). rewrite insert_by_ID_with_ID.
  unfold with_ID in *. cbn [filter]. rewrite IH. reflexivity.
Qed.

(** ** Reading an option header back *)

Lemma header_byte_nibbles (d l : Z) :
  0 <= d <= 14 -> 0 <= l <= 14 ->
  let b0 := Z.lor (byte (Z.shiftl d 4)) (byte l) in
  b0 <> 255 /\ Z.shiftr b0 4 = d /\ Z.land b0 15 = l.
Proof.
  intros Hd Hl.
  pose proof (forallb_range2
    (fun d l =>
       let b0 := Z.lor (byte (Z.shiftl d 4)) (byte l) in
       negb (b0 =? 255) && (Z.shiftr b0 4 =? d) && (Z.land b0 15 =? l))
    15 15 ltac:(vm_compute; reflexivity) d l ltac:(lia) ltac:(lia)) as H.
  cbv beta zeta in H. apply andb_prop in H. destruct H as [H H3].
  apply andb_prop in H. destruct H as [H1 H2].
  apply Z.eqb_eq in H2, H3. apply negb_true_iff, Z.eqb_neq in H1.
  cbv zeta. auto.
Qed.

Lemma extendOpt_nibble (v : Z) : 0 <= v -> 0 <= fst (extendOpt v) <= 14.
Proof.
  intros Hv. unfold extendOpt, ExtendOptionByteAddend, ExtendOptionWordAddend,
    ExtendOptionByteCode, ExtendOptionWordCode.
  destruct (Z.leb_spec 13 v); [|cbn [fst]; lia].
  destruct (Z.leb_spec 269 v); cbn [fst]; lia.
Qed.

Lemma parseExtOpt_ext_wire (v : Z) (rest : list Z) :
  0 <= v <= 65804 ->
  parseExtOpt (ext_wire (fst (extendOpt v)) (snd (extendOpt v)) ++ rest)
              (fst (extendOpt v)) =
    (len (ext_wire (fst (extendOpt v)) (snd (extendOpt v))), v, None).
Proof.
  intros Hv.
  destruct (Z.le_gt_cases v 12) as [H12 | H12].
  { rewrite extendOpt_direct by assumption. cbn [fst snd].
    unfold ext_wire, ExtendOptionByteCode, ExtendOptionWordCode.
    destruct (Z.eqb_spec v 13); [lia|]. destruct (Z.eqb_spec v 14); [lia|].
    cbn [app]. apply parseExtOpt_direct; lia. }
  destruct (Z.le_gt_cases v 268) as [H268 | H268].
  { rewrite extendOpt_byte by lia. cbn [fst snd].
    change (ext_wire 13 (v - 13)) with [byte (v - 13)].
    rewrite byte_small by lia. cbn [app]. rewrite parseExtOpt_byte.
    f_equal. f_equal. lia. }
  rewrite extendOpt_word by lia. cbn [fst snd].
  change (ext_wire 14 (v - 269)) with (BigEndian_bytes16 (uint16 (v - 269))).
  unfold uint16. rewrite Z.mod_small by lia.
  rewrite BigEndian_bytes16_small by lia. cbn [app].
  pose proof (Z.mod_pos_bound (v - 269) 256 ltac:(lia)).
  rewrite parseExtOpt_word by assumption.
  pose proof (Z.div_mod (v - 269) 256 ltac:(lia)).
  f_equal. f_equal. lia.
Qed.

(** ** Values read back by the registry *)

Lemma lookup_In (defs : OptionDefs) (id : Z) (d : OptionDef) :
  lookup defs id = Some d -> In (id, d) defs.
Proof.
  induction defs as [|[k d'] defs IH]; cbn [lookup]; [discriminate|].
  destruct (Z.eqb_spec k id) as [-> | Hne].
  - intros H. injection H as <-. left. reflexivity.
  - intros H. right. apply IH. exact H.
Qed.

Lemma CoapOptionDefs_bounds (id : Z) (d : OptionDef) :
  lookup CoapOptionDefs id = Some d ->
  1 <= id <= 65100 /\ 0 <= MinLen d /\ MaxLen d <= 1034.
Proof.
  intros H. apply lookup_In in H.
  assert (forallb (fun kd : Z * OptionDef =>
                     (1 <=? fst kd) && (fst kd <=? 65100) &&
                     (0 <=? MinLen (snd kd)) && (MaxLen (snd kd) <=? 1034))
                  CoapOptionDefs = true) as Hall by reflexivity.
  rewrite forallb_forall in Hall. specialize (Hall _ H). cbn [fst snd] in Hall.
  rewrite !andb_true_iff, !Z.leb_le in Hall. lia.
Qed.

Lemma encodeInt_minimal (v : Z) :
  0 <= v < 4294967296 -> encodeInt v = minimal_big_endian v.
Proof.
  intros Hv. unfold encodeInt, minimal_big_endian.
  destruct (Z.eqb_spec v 0); [reflexivity|].
  destruct (Z.ltb_spec v 256), (Z.leb_spec v 255); try lia.
  { rewrite byte_small by lia. reflexivity. }
  destruct (Z.ltb_spec v 65536), (Z.leb_spec v 65535); try lia.
  { unfold uint16. rewrite Z.mod_small by lia.
    apply BigEndian_bytes16_small. lia. }
  unfold uint32. rewrite Z.mod_small by lia.
  rewrite BigEndian_bytes32_small by lia.
  destruct (Z.ltb_spec v 16777216), (Z.leb_spec v 16777215); try lia; [|reflexivity].
  change (from 1 [v / 16777216; (v / 65536) mod 256; (v / 256) mod 256; v mod 256])
    with [(v / 65536) mod 256; (v / 256) mod 256; v mod 256].
  rewrite (Z.mod_small (v / 65536)) by (apply div_256_range; lia). reflexivity.
Qed.

Lemma decodeInt_encodeInt (v : Z) :
  0 <= v < 4294967296 -> decodeInt (encodeInt v) = v.
Proof.
  intros Hv. rewrite encodeInt_minimal by assumption.
  pose proof (DecodeUint32_minimal v Hv) as H.
  pose proof (minimal_big_endian_len v ltac:(lia)) as Hl.
  unfold DecodeUint32 in H.
  assert ((4 <? len (minimal_big_endian v)) = false) as E.
  { apply Z.ltb_ge. rewrite Hl.
    repeat match goal with |- context [if ?c then _ else _] => destruct c end; lia. }
  rewrite E in H. injection H as H. exact H.
Qed.

Lemma canonical_unmarshal (o : Option) :
  canonical o ->
  exists v,
    ToBytes o = Done v /\
    Option_Unmarshal zeroOption CoapOptionDefs (ID o) v = (o, (len v, None)) /\
    1 <= ID o <= 65100 /\ len v <= 1034.
Proof.
  unfold canonical. destruct o as [id val]. cbn [ID Value].
  destruct (lookup CoapOptionDefs id) as [def|] eqn:Hdef; [|contradiction].
  destruct (CoapOptionDefs_bounds id def Hdef) as (Hid & Hmin & Hmax).
  assert (forall n, MinLen def <= n <= MaxLen def ->
                    VerifyOptLen CoapOptionDefs id n = true) as Hver.
  { intros n Hn. unfold VerifyOptLen, index. rewrite Hdef.
    destruct (Z.ltb_spec n (MinLen def)); [lia|].
    destruct (Z.ltb_spec (MaxLen def) n); [lia|]. reflexivity. }
  unfold Option_Unmarshal, UnmarshalValue, ToBytes. cbn [ID Value].
  destruct (Format def) eqn:Hfmt; destruct val; try contradiction; intros Hc.
  - exists b. rewrite Hdef, Hfmt, (Hver _ Hc). cbn [negb ID].
    repeat split; lia.
  - exists b. rewrite Hdef, Hfmt, (Hver _ Hc). cbn [negb ID].
    repeat split; lia.
  - destruct Hc as (Hv & Hlen & Hcf & Hac).
    exists (encodeInt v). rewrite Hdef, Hfmt, (Hver _ Hlen). cbn [negb ID].
    rewrite decodeInt_encodeInt by assumption.
    destruct (Z.eqb_spec id ContentFormat); [contradiction|].
    destruct (Z.eqb_spec id Accept); [contradiction|].
    cbn [orb ID]. repeat split; lia.
  - exists s. rewrite Hdef, Hfmt, (Hver _ Hc). cbn [negb ID].
    repeat split; lia.
Qed.

(** ** Unmarshalling what was marshalled *)

Lemma from_1_cons (x : Z) (l : list Z) : from 1 (x :: l) = l.
Proof. reflexivity. Qed.

Lemma Options_Unmarshal_loop_wire (opts : list Option) :
  forall (prev : Z) (W tail : list Z) (acc : list Option) (fuel : nat)
         (processed cap : Z),
    options_wire prev opts = Done W ->
    Forall canonical opts ->
    nondecreasing_from prev opts ->
    0 <= prev ->
    tail = [] \/ (exists p, tail = 255 :: p) ->
    len acc + len opts <= cap ->
    (length (W ++ tail) <= fuel)%nat ->
    Options_Unmarshal_loop fuel (mkOptions acc cap) CoapOptionDefs (W ++ tail)
                           prev processed =
      (mkOptions (acc ++ opts) cap,
       (processed + len W + match tail with [] => 0 | _ => 1 end, None)).
Proof.
  induction opts as [|o opts IH];
    intros prev W tail acc fuel processed cap HW Hcan Hsorted Hprev Htail Hcap Hfuel.
  - cbn in HW. injection HW as <-. cbn [app] in *. rewrite app_nil_r.
    change (len (@nil Z)) with 0. rewrite Z.add_0_r.
    destruct Htail as [-> | (p & ->)].
    + rewrite Z.add_0_r. destruct fuel; reflexivity.
    + destruct fuel as [|fuel]; [cbn in Hfuel; lia|]. reflexivity.
  - cbn [options_wire] in HW.
    destruct (ToBytes o) as [v|] eqn:Hv; [|discriminate HW]. cbn [bind] in HW.
    destruct (options_wire (ID o) opts) as [w|] eqn:Hw; [|discriminate HW].
    cbn [bind] in HW. injection HW as <-.
    inversion Hcan as [|? ? Hco Hcan']; subst.
    destruct Hsorted as [Hle Hsorted].
    destruct (canonical_unmarshal o Hco) as (v' & Hv' & Hun & Hid & Hvlen).
    rewrite Hv in Hv'. injection Hv' as <-.
    pose proof (len_nonneg v) as Hvn.
    unfold option_wire, header_wire in *.
    pose proof (extendOpt_nibble (ID o - prev) ltac:(lia)) as Hd.
    pose proof (extendOpt_nibble (len v) Hvn) as Hl.
    pose proof (parseExtOpt_ext_wire (ID o - prev)) as Hpd.
    pose proof (parseExtOpt_ext_wire (len v)) as Hpl.
    destruct (extendOpt (ID o - prev)) as [d dx].
    destruct (extendOpt (len v)) as [l lx].
    cbn [fst snd] in *.
    destruct (header_byte_nibbles d l Hd Hl) as (Hff & Hhi & Hlo).
    set (b0 := Z.lor (byte (Z.shiftl d 4)) (byte l)) in *.
    rewrite <- !app_assoc in *. cbn [app] in *.
    destruct fuel as [|fuel]; [cbn in Hfuel; lia|].
    cbn [Options_Unmarshal_loop].
    destruct (Z.eqb_spec b0 255); [contradiction|].
    rewrite Hhi, Hlo. unfold ExtendOptionError.
    destruct (Z.eqb_spec d 15); [lia|]. destruct (Z.eqb_spec l 15); [lia|].
    cbn [orb]. rewrite from_1_cons.
    rewrite (Hpd (ext_wire l lx ++ v ++ w ++ tail)) by lia.
    rewrite from_app.
    rewrite (Hpl (v ++ w ++ tail)) by lia.
    rewrite from_app.
    assert ((len (v ++ w ++ tail) <? len v) = false) as ->.
    { apply Z.ltb_ge. rewrite len_app. pose proof (len_nonneg (w ++ tail)). lia. }
    assert (uint32 (prev + (ID o - prev)) = ID o) as ->.
    { unfold uint32. rewrite Z.mod_small by lia. lia. }
    rewrite upto_app, Hun, from_app.
    destruct (Z.eqb_spec (ID o) 0); [lia|].
    cbn [items capacity].
    rewrite len_cons in Hcap. pose proof (len_nonneg opts).
    destruct (Z.eqb_spec (len acc) cap); [lia|].
    rewrite (IH (ID o) w tail (acc ++ [o]) fuel _ cap Hw Hcan' Hsorted ltac:(lia) Htail).
    + rewrite <- app_assoc. cbn [app]. rewrite len_cons, !len_app.
      f_equal. f_equal. f_equal. lia.
    + rewrite len_app. change (len [o]) with 1. lia.
    + cbn [length] in Hfuel. rewrite !length_app in Hfuel. rewrite length_app. lia.
Qed.

Lemma canonical_ID_positive (opts : list Option) :
  Forall canonical opts -> Forall (fun o => 0 <= ID o) opts.
Proof.
  apply Forall_impl. intros o Hc.
  destruct (canonical_unmarshal o Hc) as (_ & _ & _ & Hid & _). lia.
Qed.

Lemma canonical_marshalable (opts : list Option) :
  Forall canonical opts -> Forall marshalable opts.
Proof.
  apply Forall_impl. intros o Hc.
  destruct (canonical_unmarshal o Hc) as (v & Hv & _). exists v. exact Hv.
Qed.

Lemma payload_wire_cases (p : option (list Z)) :
  (payload_wire p = [] /\ nil_if_empty p = None) \/
  (payload_wire p = 255 :: sbytes p /\ nil_if_empty p = Some (sbytes p) /\
   0 < len (sbytes p)).
Proof.
  unfold payload_wire, nil_if_empty. pose proof (slen_nonneg p).
  destruct (Z.ltb_spec 0 (slen p)), (Z.eqb_spec (slen p) 0); try lia.
  - right. rewrite slen_sbytes. auto.
  - left. auto.
Qed.

Lemma upto_exact (n : Z) (l rest : list Z) : len l = n -> upto n (l ++ rest) = l.
Proof. intros <-. apply upto_app. Qed.

Lemma from_exact (n : Z) (l rest : list Z) : len l = n -> from n (l ++ rest) = rest.
Proof. intros <-. apply from_app. Qed.

Lemma v1_Decode_frame (m dst : Message) (W : list Z) :
  slen (Token m) <= 8 ->
  ValidateMID (MessageID m) = true ->
  0 <= Type_ m <= 3 ->
  0 <= Code m <= 255 ->
  options_wire 0 (sort_Stable (items (Opts m))) = Done W ->
  Forall canonical (items (Opts m)) ->
  items (Opts dst) = [] ->
  len (items (Opts m)) <= capacity (Opts dst) ->
  coderv1.Decode (v1_frame m W) dst =
    (mkMessage Version1 (nil_if_empty (Token m))
       (mkOptions (sort_Stable (items (Opts m))) (capacity (Opts dst)))
       (Code m) (nil_if_empty (Payload m)) (MessageID m) (Type_ m)
       (EncoderID dst) (EncoderType dst) (Crc16 dst) (Rsum8 dst),
     (len (v1_frame m W), None)).
Proof.
  intros Htok Hmid Htyp Hcode HW Hcan Hempty Hcap.
  apply ValidateMID_spec in Hmid.
  pose proof (slen_nonneg (Token m)) as Htn.
  pose proof (len_nonneg W) as HWn.
  pose proof (len_nonneg (payload_wire (Payload m))) as Hpn.
  unfold coderv1.Decode. rewrite v1_frame_len.
  destruct (Z.ltb_spec (4 + slen (Token m) + len W + len (payload_wire (Payload m))) 4);
    [lia|].
  rewrite v1_frame_at_0.
  destruct (v1_header_bits (Type_ m) (slen (Token m)) ltac:(lia) ltac:(lia))
    as (Hv & Hty & Hk).
  rewrite Hv, Hty, Hk. rewrite (Z.mod_small (Type_ m) 4) by lia.
  assert (Z.testbit (Type_ m) 3 = false) as ->.
  { assert (Type_ m = 0 \/ Type_ m = 1 \/ Type_ m = 2 \/ Type_ m = 3) as Hc by lia.
    destruct Hc as [-> | [-> | [-> | ->]]]; reflexivity. }
  cbn [Z.eqb Pos.eqb negb].
  destruct (Z.ltb_spec 8 (slen (Token m))); [lia|].
  assert (at_ (v1_frame m W) 1 = byte (Code m)) as -> by reflexivity.
  assert (upto 2 (from 2 (v1_frame m W)) = BigEndian_bytes16 (uint16 (MessageID m)))
    as -> by reflexivity.
  assert (from 4 (v1_frame m W) = sbytes (Token m) ++ W ++ payload_wire (Payload m))
    as -> by reflexivity.
  rewrite byte_small by lia.
  unfold uint16. rewrite (Z.mod_small (MessageID m)) by (unfold MaxUint16 in *; lia).
  rewrite BigEndian_roundtrip by lia.
  rewrite (upto_exact _ _ _ (slen_sbytes (Token m))).
  rewrite (from_exact _ _ _ (slen_sbytes (Token m))).
  rewrite len_app, slen_sbytes.
  destruct (Z.ltb_spec (slen (Token m) + len (W ++ payload_wire (Payload m)))
                       (slen (Token m)));
    [pose proof (len_nonneg (W ++ payload_wire (Payload m))); lia|].
  change (if slen (Token m) =? 0 then None else Some (sbytes (Token m)))
    with (nil_if_empty (Token m)).
  unfold Options_Unmarshal.
  destruct (Opts dst) as [ditems dcap] eqn:Hdst. cbn [items capacity] in *. subst ditems.
  assert (tail_ok : payload_wire (Payload m) = [] \/
                    (exists p, payload_wire (Payload m) = 255 :: p)).
  { destruct (payload_wire_cases (Payload m)) as [(-> & _) | (-> & _)];
      [left; reflexivity | right; eexists; reflexivity]. }
  rewrite (Options_Unmarshal_loop_wire (sort_Stable (items (Opts m))) 0 W
             (payload_wire (Payload m)) [] _ 0 dcap HW
             (sort_Stable_Forall _ _ Hcan)
             (sort_Stable_nondecreasing _ 0 (canonical_ID_positive _ Hcan))
             ltac:(lia) tail_ok).
  2:{ change (len (@nil Option)) with 0. unfold len in *.
      rewrite sort_Stable_length. lia. }
  2:{ apply Nat.le_refl. }
  cbn [app set_Opts Opts EncoderID EncoderType Crc16 Rsum8].
  rewrite Z.add_0_l.
  destruct (payload_wire_cases (Payload m)) as [(Hpw & Hnil) | (Hpw & Hnil & Hpos)];
    rewrite Hpw, Hnil.
  - rewrite Z.add_0_r, app_nil_r.
    replace W with (W ++ []) at 2 by apply app_nil_r. rewrite from_app.
    change (len (@nil Z) =? 0) with true. cbv iota.
    change (len (@nil Z)) with 0. rewrite Z.add_0_r. reflexivity.
  - replace (len W + 1) with (len (W ++ [255])) by (rewrite len_app; reflexivity).
    change (W ++ 255 :: sbytes (Payload m)) with (W ++ [255] ++ sbytes (Payload m)).
    rewrite app_assoc, from_app.
    destruct (Z.eqb_spec (len (sbytes (Payload m))) 0); [lia|].
    rewrite len_cons. f_equal.
Qed.

(** ** The version-1 round trip *)

(** C2 (as amended).  Take a message with a token of at most 8 bytes, a
    message id in 0..65535, a type in 0..3, a code in 0..255 and options
    that are canonical: registered ID, value of the Go type the registered
    format decodes to, length within the registered bounds (ContentFormat
    and Accept aside).  Take a destination whose option list is empty and
    has room for the options.  Then [Encode] into any buffer that is large
    enough succeeds, and [Decode] of the bytes it wrote succeeds and gives
    version 1, the token and the payload (nil when empty), the code, the
    message id, the type, and the options sorted by ID: in nondecreasing
    order, a permutation of the original list, options of equal ID in their
    original order. *)
Theorem v1_decode_inverts_encode (m dst : Message) :
  slen (Token m) <= 8 ->
  ValidateMID (MessageID m) = true ->
  0 <= Type_ m <= 3 ->
  0 <= Code m <= 255 ->
  Forall canonical (items (Opts m)) ->
  items (Opts dst) = [] ->
  len (items (Opts m)) <= capacity (Opts dst) ->
  let sorted := sort_Stable (items (Opts m)) in
  let decoded :=
    mkMessage Version1 (nil_if_empty (Token m))
      (mkOptions sorted (capacity (Opts dst)))
      (Code m) (nil_if_empty (Payload m)) (MessageID m) (Type_ m)
      (EncoderID dst) (EncoderType dst) (Crc16 dst) (Rsum8 dst) in
  (exists size,
     coderv1.Size m = Done (size, None) /\
     forall buf, size <= len buf ->
       exists out,
         coderv1.Encode m buf = Done (out, (size, None)) /\
         coderv1.Decode (upto size out) dst = (decoded, (size, None))) /\
  nondecreasing_from 0 sorted /\
  Permutation sorted (items (Opts m)) /\
  (forall id, with_ID id sorted = with_ID id (items (Opts m))).
Proof.
  intros Htok Hmid Htyp Hcode Hcan Hempty Hcap sorted decoded.
  assert (ValidateType (Type_ m) = true) as Hvt by (apply ValidateType_spec; lia).
  destruct (options_wire_defined _
              (sort_Stable_Forall _ _ (canonical_marshalable _ Hcan)) 0) as (W & HW).
  split; [|split; [|split]].
  - exists (len (v1_frame m W)). split; [apply v1_Size_probe; assumption|].
    intros buf Hbuf. eexists. split; [apply v1_Encode_fits; assumption|].
    rewrite upto_app. apply v1_Decode_frame; assumption.
  - apply sort_Stable_nondecreasing, canonical_ID_positive, Hcan.
  - apply sort_Stable_Permutation.
  - intros id. apply sort_Stable_stable.
Qed.

Lemma v1_decode_inverts_encode_witness :
  exists out,
    coderv1.Encode coreFull (repeat 0 40) = Done (out, (26, None)) /\
    coderv1.Decode (upto 26 out) sampleCore =
      (mkMessage Version1 (Some [1; 2; 3])
         (mkOptions [mkOption Observe (VUint32 256);
                     mkOption URIPath (VString [112]);
                     mkOption URIPath (VString [113]);
                     mkOption URIQuery (VString [122; 61; 49]);
                     mkOption GiterLabID (VString [105; 100])] 16)
         POST (Some [104; 105]) 4660 NonConfirmable 0 0 0 0,
       (26, None)).
Proof.
  destruct (v1_decode_inverts_encode coreFull sampleCore)
    as ((size & Hsize & Hrt) & _).
  - vm_compute. discriminate.
  - reflexivity.
  - vm_compute. split; discriminate.
  - vm_compute. split; discriminate.
  - repeat constructor; cbn; try lia; discriminate.
  - reflexivity.
  - vm_compute. discriminate.
  - vm_compute in Hsize. injection Hsize as <-.
    destruct (Hrt (repeat 0 40)) as (out & He & Hd); [vm_compute; discriminate|].
    exists out. split; [exact He | exact Hd].
Defined.

(** C2, counterexample.  Uri-Host is a registered option, and a message
    carrying it with the empty string has valid fields: [Encode] writes the
    option (30), [Decode] succeeds and skips it because the registry wants
    at least one byte, so the decoded option list is empty.  The same
    happens to Observe = 16777216, four bytes where the registry allows
    three. *)
Lemma v1_round_trip_drops_out_of_bounds_options :
  lookup CoapOptionDefs URIHost = Some (mkOptionDef 1 255 ValueString) /\
  coderv1.Encode coreEmptyHost (repeat 0 5) = Done ([64; 1; 18; 52; 48], (5, None)) /\
  snd (coderv1.Decode [64; 1; 18; 52; 48] sampleCore) = (5, None) /\
  items (Opts (fst (coderv1.Decode [64; 1; 18; 52; 48] sampleCore))) = [] /\
  items (Opts (fst (coderv1.Decode [64; 1; 18; 52; 48] sampleCore)))
    <> sort_Stable (items (Opts coreEmptyHost)) /\
  coderv1.Encode coreWideObserve (repeat 0 9) =
    Done ([64; 1; 18; 52; 100; 1; 0; 0; 0], (9, None)) /\
  snd (coderv1.Decode [64; 1; 18; 52; 100; 1; 0; 0; 0] sampleCore) = (9, None) /\
  items (Opts (fst (coderv1.Decode [64; 1; 18; 52; 100; 1; 0; 0; 0] sampleCore)))
    <> sort_Stable (items (Opts coreWideObserve)).
Proof.
  split; [reflexivity|].
  split; [vm_compute; reflexivity|].
  split; [vm_compute; reflexivity|].
  split; [vm_compute; reflexivity|].
  split; [intros H; vm_compute in H; discriminate H|].
  split; [vm_compute; reflexivity|].
  split; [vm_compute; reflexivity|].
  intros H; vm_compute in H; discriminate H.
Qed.

(** ** RSUM8 in the version-2 encoder, for every message *)

Lemma len_8_inv (l : list Z) :
  len l = 8 -> exists a b c d e f g h, l = [a; b; c; d; e; f; g; h].
Proof.
  destruct l as [|a [|b [|c [|d [|e [|f [|g [|h [|i l]]]]]]]]];
    unfold len; cbn [length]; try lia.
  intros _. exists a, b, c, d, e, f, g, h. reflexivity.
Qed.

Lemma v2_header_len (m : Message) : len (v2_header m) = 8.
Proof. reflexivity. Qed.

Lemma store_v2_header_app (w p rest : list Z) (m : Message) :
  len p = 8 ->
  store_v2_header (mkCursor w (p ++ rest)) m =
    Done (mkCursor w (v2_header m ++ rest)).
Proof.
  intros H. destruct (len_8_inv p H) as (a & b & c & d & e & f & g & h & ->).
  unfold store_v2_header.
  set (hd := v2_header m).
  change (hd ++ rest) with ([at_ hd 0; at_ hd 1; at_ hd 2; at_ hd 3;
                             at_ hd 4; at_ hd 5; at_ hd 6; at_ hd 7] ++ rest).
  clearbody hd. cbv zeta.
  cbn [app].
  rewrite_app (store_exact w [] a (b :: c :: d :: e :: f :: g :: h :: rest) 0 (at_ hd 0) eq_refl).
  cbn [bind].
  rewrite_app (store_exact w [at_ hd 0] b (c :: d :: e :: f :: g :: h :: rest) 1 (at_ hd 1) eq_refl).
  cbn [bind].
  rewrite_app (store_exact w [at_ hd 0; at_ hd 1] c (d :: e :: f :: g :: h :: rest) 2 (at_ hd 2) eq_refl).
  cbn [bind].
  rewrite_app (store_exact w [at_ hd 0; at_ hd 1; at_ hd 2] d (e :: f :: g :: h :: rest) 3 (at_ hd 3) eq_refl).
  cbn [bind].
  rewrite_app (store_exact w [at_ hd 0; at_ hd 1; at_ hd 2; at_ hd 3] e (f :: g :: h :: rest) 4 (at_ hd 4) eq_refl).
  cbn [bind].
  rewrite_app (store_exact w [at_ hd 0; at_ hd 1; at_ hd 2; at_ hd 3; at_ hd 4] f (g :: h :: rest) 5 (at_ hd 5) eq_refl).
  cbn [bind].
  rewrite_app (store_exact w [at_ hd 0; at_ hd 1; at_ hd 2; at_ hd 3; at_ hd 4; at_ hd 5] g (h :: rest) 6 (at_ hd 6) eq_refl).
  cbn [bind].
  rewrite_app (store_exact w [at_ hd 0; at_ hd 1; at_ hd 2; at_ hd 3; at_ hd 4; at_ hd 5; at_ hd 6] h rest 7 (at_ hd 7) eq_refl).
  reflexivity.
Qed.

Lemma v2_frame0_len (m : Message) (W : list Z) :
  len (v2_frame0 m W) =
  8 + slen (Token m) + len W + len (payload_wire (Payload m)).
Proof.
  unfold v2_frame0. rewrite !len_app, v2_header_len, slen_sbytes. lia.
Qed.

Lemma v2_Size_probe (m : Message) (W : list Z) :
  slen (Token m) <= 8 ->
  options_wire 0 (sort_Stable (items (Opts m))) = Done W ->
  v2_Size m = Done (len (v2_frame0 m W), None).
Proof.
  intros Htok HW. unfold v2_Size, MaxTokenSize.
  destruct (Z.ltb_spec 8 (slen (Token m))); [lia|].
  unfold Options_Marshal.
  rewrite (Options_Marshal_loop_probe _ 0 W [] 0 HW). cbn [bind].
  rewrite v2_frame0_len, payload_wire_len. f_equal. f_equal. lia.
Qed.
Lemma RSUM8_fold (data : list Z) (acc : Z) :
  fold_left (fun sum b => byte (sum + byte (Z.lnot b))) data (byte acc) =
  byte (acc + complement_sum data).
Proof.
  revert acc. induction data as [|b data IH]; intros acc; cbn [fold_left complement_sum].
  - rewrite Z.add_0_r. reflexivity.
  - replace (byte (byte acc + byte (Z.lnot b))) with (byte (acc + Z.lnot b)).
    + rewrite IH. f_equal. lia.
    + unfold byte. rewrite <- Z.add_mod by lia. reflexivity.
Qed.

Lemma RSUM8_complement_sum (data : list Z) :
  RSUM8 data = byte (complement_sum data).
Proof.
  unfold RSUM8. change 0 with (byte 0) at 1. rewrite RSUM8_fold. reflexivity.
Qed.

Lemma complement_sum_app (a b : list Z) :
  complement_sum (a ++ b) = complement_sum a + complement_sum b.
Proof. induction a as [|x a IH]; cbn [app complement_sum]; lia. Qed.

(** Storing the sum of a frame whose byte 7 is zero at byte 7 makes the sum
    of the frame zero. *)
Lemma RSUM8_patched (pre post : list Z) :
  RSUM8 (pre ++ RSUM8 (pre ++ 0 :: post) :: post) = 0.
Proof.
  rewrite !RSUM8_complement_sum, !complement_sum_app. cbn [complement_sum].
  unfold byte, Z.lnot.
  set (A := complement_sum pre). set (B := complement_sum post).
  replace (A + (Z.pred (- ((A + (Z.pred (- 0) + B)) mod 256)) + B))
    with ((A + (Z.pred (- 0) + B)) - (A + (Z.pred (- 0) + B)) mod 256) by lia.
  rewrite Zminus_mod_idemp_r, Z.sub_diag. reflexivity.
Qed.

Lemma v2_frame_len (m : Message) (W : list Z) :
  len (v2_frame m W) = len (v2_frame0 m W).
Proof.
  unfold v2_frame, v2_frame0. rewrite !len_app, len_cons, !len_app.
  change (len (upto 7 _)) with 7. rewrite v2_header_len. lia.
Qed.

Lemma v2_frame_RSUM8 (m : Message) (W : list Z) : RSUM8 (v2_frame m W) = 0.
Proof.
  unfold v2_frame.
  change (v2_frame0 m W) with
    (upto 7 (v2_header (set_Crc16 m (CRC16Bytes (sbytes (Payload m))))) ++
     0 :: sbytes (Token m) ++ W ++ payload_wire (Payload m)).
  apply RSUM8_patched.
Qed.

Lemma v2_validate_passes (m : Message) :
  ValidateMID (MessageID m) = true ->
  ValidateType (Type_ m) = true ->
  ValidateEID (EncoderID m) = true ->
  ValidateETP (EncoderType m) = true ->
  v2_validate m = None.
Proof. intros H1 H2 H3 H4. unfold v2_validate. rewrite H1, H2, H3, H4. reflexivity. Qed.

Lemma payload_wire_separator (p : option (list Z)) :
  payload_wire p = separator p ++ sbytes p.
Proof.
  unfold payload_wire, separator. destruct (Z.ltb_spec 0 (slen p)); [reflexivity|].
  symmetry. cbn [app]. apply len_0_nil. rewrite slen_sbytes.
  assert (0 <= slen p) by (rewrite <- slen_sbytes; apply len_nonneg). lia.
Qed.

(** [if len(m.Payload) > 0 { buf[0] = 0xff; buf = buf[1:] }] on a window
    that has room for the payload and its separator. *)
Lemma store_separator (w pp rest : list Z) (p : option (list Z)) :
  len pp = len (payload_wire p) ->
  exists pb,
    len pb = len (sbytes p) /\
    (if 0 <? slen p
     then c <- store (mkCursor w (pp ++ rest)) 0 255 ;; advance c 1
     else Done (mkCursor w (pp ++ rest))) =
    Done (mkCursor (w ++ separator p) (pb ++ rest)).
Proof.
  intros Hpp. unfold payload_wire, separator in *.
  destruct (Z.ltb_spec 0 (slen p)) as [Hpay | Hpay].
  - rewrite len_cons in Hpp.
    destruct (len_split pp 1 (len (sbytes p)) ltac:(lia) (len_nonneg _) Hpp)
      as (ps & pb & -> & Hps & Hpb).
    destruct (len_1_inv ps Hps) as (x & ->). cbn [app].
    exists pb. split; [exact Hpb|].
    rewrite_app (store_exact w [] x (pb ++ rest) 0 255 eq_refl). cbn [bind].
    rewrite_app (advance_exact w [255] (pb ++ rest) 1 eq_refl). reflexivity.
  - apply len_0_nil in Hpp. subst pp. exists []. split.
    + rewrite slen_sbytes.
      assert (0 <= slen p) by (rewrite <- slen_sbytes; apply len_nonneg).
      unfold len at 1. cbn [length]. lia.
    + rewrite app_nil_r. reflexivity.
Qed.

Lemma v2_pbuf_Encode_fits (m : Message) (W buf : list Z) :
  v2_validate m = None ->
  slen (Token m) <= 8 ->
  options_wire 0 (sort_Stable (items (Opts m))) = Done W ->
  len (v2_frame0 m W) <= len buf ->
  coderv2_pbuf.Encode m buf =
    Done (v2_frame m W ++ from (len (v2_frame0 m W)) buf,
          (len (v2_frame0 m W), None)).
Proof.
  intros Hval Htok HW Hlen. unfold coderv2_pbuf.Encode, coderv2_pbuf.Size.
  rewrite Hval.
  rewrite (v2_Size_probe m W Htok HW). cbn [bind].
  destruct (Z.ltb_spec (len buf) (len (v2_frame0 m W))); [lia|].
  destruct (split_at (len (v2_frame0 m W)) buf ltac:(pose proof (len_nonneg (v2_frame0 m W)); lia))
    as (pre & rest & -> & Hpre).
  rewrite <- Hpre at 1. rewrite from_app.
  pose proof Hpre as Hsize.
  rewrite v2_frame0_len in Hpre.
  pose proof (len_nonneg W) as HWn. pose proof (len_nonneg (payload_wire (Payload m))) as HPn.
  assert (0 <= slen (Token m)) as Htn by (rewrite <- slen_sbytes; apply len_nonneg).
  destruct (len_split pre 8 (slen (Token m) + len W + len (payload_wire (Payload m)))
              ltac:(lia) ltac:(lia) ltac:(lia)) as (ph & p1 & -> & Hph & Hp1).
  destruct (len_split p1 (slen (Token m)) (len W + len (payload_wire (Payload m)))
              ltac:(lia) ltac:(lia) ltac:(lia)) as (pt & p2 & -> & Hpt & Hp2).
  destruct (len_split p2 (len W) (len (payload_wire (Payload m)))
              ltac:(lia) ltac:(lia) ltac:(lia)) as (po & pp & -> & Hpo & Hpp).
  rewrite <- !app_assoc.
  rewrite (store_v2_header_app [] ph _ _ Hph). cbn [bind].
  rewrite (advance_exact [] _ _ 8 (v2_header_len _)). cbn [bind app].
  change (Token (set_Crc16 m _)) with (Token m).
  change (Payload (set_Crc16 m _)) with (Payload m).
  change (Opts (set_Crc16 m _)) with (Opts m).
  unfold MaxTokenSize. destruct (Z.ltb_spec 8 (slen (Token m))); [lia|].
  rewrite (copy_into_app _ pt _ (sbytes (Token m))) by (rewrite slen_sbytes; exact Hpt).
  rewrite (advance_exact _ (sbytes (Token m)) _ (slen (Token m)) (slen_sbytes _)).
  cbn [bind window written].
  unfold Options_Marshal.
  rewrite_app (Options_Marshal_loop_fits _ 0 W [] po (pp ++ rest) HW Hpo).
  cbn [bind app].
  rewrite (advance_exact _ W _ (len W) eq_refl). cbn [bind].
  destruct (store_separator ((v2_header (set_Crc16 m (CRC16Bytes (sbytes (Payload m)))) ++
             sbytes (Token m)) ++ W) pp rest (Payload m) Hpp) as (pb & Hpb & ->).
  cbn [bind]. rewrite (copy_into_app _ pb rest _ Hpb).
  unfold whole. cbn [written window].
  assert ((((v2_header (set_Crc16 m (CRC16Bytes (sbytes (Payload m)))) ++
             sbytes (Token m)) ++ W) ++ separator (Payload m)) ++
          sbytes (Payload m) ++ rest = v2_frame0 m W ++ rest) as ->.
  { unfold v2_frame0. rewrite payload_wire_separator, <- !app_assoc. reflexivity. }
  pose proof (len_nonneg (v2_frame0 m W)). pose proof (len_nonneg rest).
  destruct (Z.leb_spec 0 (len (v2_frame0 m W))); [|lia].
  destruct (Z.leb_spec (len (v2_frame0 m W)) (len (v2_frame0 m W ++ rest)));
    [|rewrite len_app in *; lia].
  cbn [andb]. rewrite upto_app.
  change (v2_frame0 m W ++ rest) with
    ((upto 7 (v2_header (set_Crc16 m (CRC16Bytes (sbytes (Payload m))))) ++
      0 :: sbytes (Token m) ++ W ++ payload_wire (Payload m)) ++ rest).
  rewrite <- app_assoc, <- app_comm_cons.
  rewrite (store_exact []
             (upto 7 (v2_header (set_Crc16 m (CRC16Bytes (sbytes (Payload m))))))
             0 _ 7 (RSUM8 (v2_frame0 m W)) eq_refl).
  cbn [bind written window app]. unfold v2_frame.
  repeat (rewrite <- app_assoc || rewrite <- app_comm_cons). reflexivity.
Qed.

(** src/coder/coderv2/coder.go, once the frame is laid out: [buf] is the
    window left after the header, the token, the options and the separator,
    and [buf[7] = RSUM8(buf[:size])] is run on that window. *)
Lemma v2_Encode_layout (m : Message) (W buf spare : list Z) :
  v2_validate m = None ->
  slen (Token m) <= 8 ->
  options_wire 0 (sort_Stable (items (Opts m))) = Done W ->
  len (v2_frame0 m W) <= len buf ->
  coderv2.Encode m buf spare =
    let size := len (v2_frame0 m W) in
    let c := mkCursor
               (v2_header (set_Crc16 m (CRC16Bytes (sbytes (Payload m)))) ++
                sbytes (Token m) ++ W ++ separator (Payload m))
               (sbytes (Payload m) ++ from size buf) in
    if size <=? len (window c) + len spare then
      c <- store c 7 (RSUM8 (upto size (window c ++ spare))) ;;
      Done (whole c, (size, None))
    else Panics.
Proof.
  intros Hval Htok HW Hlen. unfold coderv2.Encode, coderv2.Size.
  rewrite Hval.
  rewrite (v2_Size_probe m W Htok HW). cbn [bind].
  destruct (Z.ltb_spec (len buf) (len (v2_frame0 m W))); [lia|].
  destruct (split_at (len (v2_frame0 m W)) buf ltac:(pose proof (len_nonneg (v2_frame0 m W)); lia))
    as (pre & rest & -> & Hpre).
  cbv zeta. rewrite (from_exact (len (v2_frame0 m W)) pre rest Hpre).
  pose proof Hpre as Hsize.
  rewrite v2_frame0_len in Hpre.
  pose proof (len_nonneg W) as HWn. pose proof (len_nonneg (payload_wire (Payload m))) as HPn.
  assert (0 <= slen (Token m)) as Htn by (rewrite <- slen_sbytes; apply len_nonneg).
  destruct (len_split pre 8 (slen (Token m) + len W + len (payload_wire (Payload m)))
              ltac:(lia) ltac:(lia) ltac:(lia)) as (ph & p1 & -> & Hph & Hp1).
  destruct (len_split p1 (slen (Token m)) (len W + len (payload_wire (Payload m)))
              ltac:(lia) ltac:(lia) ltac:(lia)) as (pt & p2 & -> & Hpt & Hp2).
  destruct (len_split p2 (len W) (len (payload_wire (Payload m)))
              ltac:(lia) ltac:(lia) ltac:(lia)) as (po & pp & -> & Hpo & Hpp).
  rewrite <- !app_assoc.
  rewrite (store_v2_header_app [] ph _ _ Hph). cbn [bind].
  rewrite (advance_exact [] _ _ 8 (v2_header_len _)). cbn [bind app].
  change (Token (set_Crc16 m _)) with (Token m).
  change (Payload (set_Crc16 m _)) with (Payload m).
  change (Opts (set_Crc16 m _)) with (Opts m).
  unfold MaxTokenSize. destruct (Z.ltb_spec 8 (slen (Token m))); [lia|].
  rewrite (copy_into_app _ pt _ (sbytes (Token m))) by (rewrite slen_sbytes; exact Hpt).
  rewrite (advance_exact _ (sbytes (Token m)) _ (slen (Token m)) (slen_sbytes _)).
  cbn [bind window written].
  unfold Options_Marshal.
  rewrite_app (Options_Marshal_loop_fits _ 0 W [] po (pp ++ rest) HW Hpo).
  cbn [bind app].
  rewrite (advance_exact _ W _ (len W) eq_refl). cbn [bind].
  destruct (store_separator ((v2_header (set_Crc16 m (CRC16Bytes (sbytes (Payload m)))) ++
             sbytes (Token m)) ++ W) pp rest (Payload m) Hpp) as (pb & Hpb & ->).
  cbn [bind]. rewrite (copy_into_app _ pb rest _ Hpb).
  cbv zeta. cbn [written window].
  rewrite <- !app_assoc.
  pose proof (len_nonneg (v2_frame0 m W)).
  destruct (Z.leb_spec 0 (len (v2_frame0 m W))); [|lia].
  cbn [andb]. reflexivity.
Qed.

(** The slice [buf[:size]] starts [size - len(m.Payload)] bytes into the
    buffer: unless the backing array has that many bytes beyond the frame,
    the call panics.  A buffer of exactly [Size(m)] bytes always does. *)
Lemma v2_Encode_short_capacity_panics (m : Message) (W buf spare : list Z) :
  v2_validate m = None ->
  slen (Token m) <= 8 ->
  options_wire 0 (sort_Stable (items (Opts m))) = Done W ->
  len (v2_frame0 m W) <= len buf ->
  len buf + len spare < 2 * len (v2_frame0 m W) - slen (Payload m) ->
  coderv2.Encode m buf spare = Panics.
Proof.
  intros Hval Htok HW Hlen Hcap.
  rewrite (v2_Encode_layout m W buf spare Hval Htok HW Hlen). cbv zeta.
  cbn [window].
  destruct (split_at (len (v2_frame0 m W)) buf ltac:(pose proof (len_nonneg (v2_frame0 m W)); lia))
    as (pre & rest & -> & Hpre).
  rewrite (from_exact (len (v2_frame0 m W)) pre rest Hpre).
  rewrite !len_app, slen_sbytes in *.
  destruct (Z.leb_spec (len (v2_frame0 m W)) (slen (Payload m) + len rest + len spare));
    [lia | reflexivity].
Qed.

(** Whatever the capacity, byte 7 of the frame is never written again: a
    call that returns leaves the header as [store_v2_header] wrote it, with
    zero in the RSUM8 byte. *)
Lemma v2_Encode_leaves_byte_7 (m : Message) (W buf spare buf' : list Z)
  (r : Z * option error) :
  v2_validate m = None ->
  slen (Token m) <= 8 ->
  options_wire 0 (sort_Stable (items (Opts m))) = Done W ->
  len (v2_frame0 m W) <= len buf ->
  coderv2.Encode m buf spare = Done (buf', r) ->
  upto 8 buf' = v2_header (set_Crc16 m (CRC16Bytes (sbytes (Payload m)))) /\
  at_ buf' 7 = 0.
Proof.
  intros Hval Htok HW Hlen.
  rewrite (v2_Encode_layout m W buf spare Hval Htok HW Hlen). cbv zeta.
  destruct (_ <=? _); [|discriminate].
  unfold store. destruct (_ && _); [|discriminate].
  cbn [bind whole written window]. intros E. injection E as <- _.
  rewrite <- app_assoc. split; reflexivity.
Qed.

(** The copy of the package in src/unnamed/part_001 on every message with
    valid fields and option values that [ToBytes] accepts: [Encode] into a
    buffer of at least [Size(m)] bytes returns [Size(m)], the first
    [Size(m)] bytes of the buffer hold the frame with RSUM8 at byte 7, and
    RSUM8 of that frame is 0, which is the check of [Decode]. *)
Lemma v2_pbuf_Encode_RSUM8_zero (m : Message) (buf : list Z) :
  v2_validate m = None ->
  slen (Token m) <= 8 ->
  Forall marshalable (items (Opts m)) ->
  exists size,
    coderv2_pbuf.Size m = Done (size, None) /\
    (size <= len buf ->
     exists buf',
       coderv2_pbuf.Encode m buf = Done (buf', (size, None)) /\
       len buf' = len buf /\
       from size buf' = from size buf /\
       RSUM8 (upto size buf') = 0).
Proof.
  intros Hval Htok Hopts.
  destruct (options_wire_defined _ (sort_Stable_Forall _ _ Hopts) 0) as (W & HW).
  exists (len (v2_frame0 m W)). split.
  - apply (v2_Size_probe m W Htok HW).
  - intros Hlen. eexists. split.
    + apply (v2_pbuf_Encode_fits m W buf Hval Htok HW Hlen).
    + pose proof (len_nonneg (v2_frame0 m W)) as Hn.
      destruct (split_at (len (v2_frame0 m W)) buf ltac:(lia))
        as (pre & rest & -> & Hpre).
      rewrite (from_exact _ pre rest Hpre).
      rewrite <- v2_frame_len in Hpre |- *.
      rewrite upto_app, from_app, v2_frame_RSUM8, !len_app, Hpre.
      repeat split.
Qed.

(** src/coder/coderv2/coder.go on the same messages: [Encode] into a buffer
    of exactly [Size(m)] bytes panics, and a call on a longer buffer that
    returns has left zero at byte 7 of the frame. *)
Lemma v2_Encode_never_stores_RSUM8 (m : Message) :
  v2_validate m = None ->
  slen (Token m) <= 8 ->
  Forall marshalable (items (Opts m)) ->
  exists size,
    coderv2.Size m = Done (size, None) /\
    (forall buf, len buf = size -> coderv2.Encode m buf [] = Panics) /\
    (forall buf spare buf' r,
       size <= len buf ->
       coderv2.Encode m buf spare = Done (buf', r) -> at_ buf' 7 = 0).
Proof.
  intros Hval Htok Hopts.
  destruct (options_wire_defined _ (sort_Stable_Forall _ _ Hopts) 0) as (W & HW).
  exists (len (v2_frame0 m W)). split; [apply (v2_Size_probe m W Htok HW)|]. split.
  - intros buf Hbuf.
    apply (v2_Encode_short_capacity_panics m W buf [] Hval Htok HW); [lia|].
    rewrite Hbuf, v2_frame0_len, payload_wire_len.
    pose proof (len_nonneg W).
    assert (0 <= slen (Token m)) by (rewrite <- slen_sbytes; apply len_nonneg).
    assert (0 <= slen (Payload m)) by (rewrite <- slen_sbytes; apply len_nonneg).
    change (len (@nil Z)) with 0.
    destruct (0 <? slen (Payload m)); lia.
  - intros buf spare buf' r Hlen E.
    apply (v2_Encode_leaves_byte_7 m W buf spare buf' r Hval Htok HW Hlen E).
Qed.

(** The vectors of [TestRSUM8] (src/secoapcore/rsum_test.go). *)
Example RSUM8_test_vectors :
  RSUM8 [0; 1; 2] = 250 /\
  RSUM8 [0; 1; 2; 3] = 246 /\
  RSUM8 [0; 1; 2; 3; 4] = 241 /\
  RSUM8 [0; 1; 2; 3; 4; 5] = 235 /\
  RSUM8 [0; 1; 2; 3; 4; 5; 6] = 228.
Proof. repeat split. Qed.

(** * Further properties of the code *)

(** ** The version-0 coder, end to end *)

(** X1.  coderv0: for a message of type 0..3 with valid encoder id and
    encoder type and a buffer of at least [4 + len(Payload)] bytes,
    [Encode] returns that size, keeps the length of the buffer and the
    bytes past the frame, and [Decode] of the frame returns the size and
    stores version 0, the type, the encoder id, the encoder type, the
    CRC16 of the payload and the payload (a nil payload comes back as the
    empty slice); token, options, code, message id and RSUM8 of the
    destination are left as they were. *)
Theorem coderv0_decode_inverts_encode (m dst : Message) (buf : list Z) :
  0 <= Type_ m <= 3 ->
  ValidateEID (EncoderID m) = true ->
  ValidateETP (EncoderType m) = true ->
  4 + slen (Payload m) <= len buf ->
  let size := 4 + slen (Payload m) in
  exists buf',
    coderv0.Encode m buf = Done (buf', (size, None)) /\
    len buf' = len buf /\
    from size buf' = from size buf /\
    coderv0.Decode (upto size buf') dst =
      (mkMessage Version0 (Token dst) (Opts dst) (Code dst)
         (Some (sbytes (Payload m))) (MessageID dst) (Type_ m)
         (EncoderID m) (EncoderType m) (CRC16Bytes (sbytes (Payload m)))
         (Rsum8 dst),
       (size, None)).
Proof.
  intros Ht Heid Hetp Hlen size. subst size.
  assert (ValidateType (Type_ m) = true) as Htyp
    by (apply ValidateType_spec; lia).
  rewrite <- v0_frame_len in *.
  exists (v0_frame m ++ from (len (v0_frame m)) buf).
  split; [apply v0_Encode_fits; assumption|].
  pose proof (len_nonneg (v0_frame m)) as Hn.
  destruct (split_at (len (v0_frame m)) buf ltac:(lia)) as (pre & rest & -> & Hpre).
  rewrite (from_exact _ pre rest Hpre), from_app, upto_app, !len_app, Hpre.
  split; [reflexivity|]. split; [reflexivity|].
  rewrite (v0_Decode_accepted m dst ltac:(lia) Heid Hetp).
  rewrite Z.mod_small by lia. reflexivity.
Qed.

Lemma coderv0_decode_inverts_encode_witness :
  exists buf',
    coderv0.Encode coreV0Sample [9; 9; 9; 9; 9; 9; 9; 9] =
      Done (buf', (7, None)) /\
    len buf' = 8 /\
    from 7 buf' = [9] /\
    coderv0.Decode (upto 7 buf') coreEmptyAck =
      (mkMessage Version0 None (mkOptions [] 16) Empty (Some [0; 1; 2]) 4660
         NonConfirmable 5 2 (CRC16Bytes [0; 1; 2]) 0,
       (7, None)).
Proof.
  apply (coderv0_decode_inverts_encode coreV0Sample coreEmptyAck
           [9; 9; 9; 9; 9; 9; 9; 9]);
    [unfold coreV0Sample, NonConfirmable; simpl; lia
    | reflexivity | reflexivity | vm_compute; discriminate].
Defined.


(** ** The variable-length integer codecs on any input *)

(** X3.  EncodeUint32 on a buffer shorter than the minimal encoding of the
    value returns the number of bytes needed with [ErrTooSmall] and leaves
    the buffer as it was; the value 0 needs no byte and succeeds on any
    buffer, the nil one included. *)
Theorem EncodeUint32_too_small (v : Z) (buf : list Z) :
  0 <= v < 4294967296 ->
  len buf < len (minimal_big_endian v) ->
  EncodeUint32 buf v = (buf, (len (minimal_big_endian v), Some ErrTooSmall)) /\
  1 <= v /\
  EncodeUint32 buf 0 = (buf, (0, None)).
Proof.
  intros Hv Hshort. pose proof (len_nonneg buf) as Hnn.
  rewrite minimal_big_endian_len in * by lia.
  split; [|split; [|reflexivity]].
  - unfold EncodeUint32, max1ByteNumber, max2ByteNumber, max3ByteNumber.
    destruct (Z.eqb_spec v 0); [lia|].
    destruct (Z.leb_spec v 255).
    { destruct (Z.ltb_spec (len buf) 1); [reflexivity | lia]. }
    destruct (Z.leb_spec v 65535).
    { destruct (Z.ltb_spec (len buf) 2); [reflexivity | lia]. }
    destruct (Z.leb_spec v 16777215).
    { destruct (Z.ltb_spec (len buf) 3); [reflexivity | lia]. }
    destruct (Z.ltb_spec (len buf) 4); [reflexivity | lia].
  - destruct (Z.eqb_spec v 0); lia.
Qed.

Lemma EncodeUint32_too_small_witness :
  EncodeUint32 [7; 7] 65536 = ([7; 7], (3, Some ErrTooSmall)) /\
  1 <= 65536 /\
  EncodeUint32 [7; 7] 0 = ([7; 7], (0, None)).
Proof.
  apply (EncodeUint32_too_small 65536 [7; 7]); [lia | vm_compute; reflexivity].
Defined.

Lemma big_endian_value_bytes (a b c d : Z) :
  is_byte a -> is_byte b -> is_byte c -> is_byte d ->
  BigEndian_Uint32 [a; b; c; d] = big_endian_value [a; b; c; d] /\
  0 <= big_endian_value [a; b; c; d] < 4294967296.
Proof.
  unfold is_byte. intros Ha Hb Hc Hd.
  rewrite BigEndian_Uint32_bytes by assumption.
  unfold big_endian_value. cbn [fold_left]. lia.
Qed.

(** X4.  DecodeUint32 accepts any input: it never fails, reads the first
    four bytes at most and reports how many it read; the value is the
    big-endian number those bytes denote, so that leading zero bytes (a
    non-minimal encoding) change nothing and every byte after the fourth
    is ignored. *)
Theorem DecodeUint32_reads_at_most_four (buf : list Z) :
  bytes_ok buf ->
  DecodeUint32 buf =
    (big_endian_value (upto 4 buf), Z.min 4 (len buf), None) /\
  0 <= big_endian_value (upto 4 buf) < 4294967296 /\
  (len buf <= 3 -> DecodeUint32 (0 :: buf) = (big_endian_value buf, len buf + 1, None)) /\
  (forall more, 4 <= len buf ->
     fst (fst (DecodeUint32 (buf ++ more))) = fst (fst (DecodeUint32 buf))).
Proof.
  intros Hok.
  assert (forall a b c d, is_byte a -> is_byte b -> is_byte c -> is_byte d ->
            BigEndian_Uint32 [a; b; c; d] = big_endian_value [a; b; c; d])
    as Hval by (intros; apply big_endian_value_bytes; assumption).
  assert (is_byte 0) as H0 by (unfold is_byte; lia).
  destruct buf as [|a [|b [|c [|d rest]]]].
  - repeat split; try reflexivity; try (unfold len; cbn; lia).
  - inversion Hok as [|? ? Ha _]; subst.
    rewrite DecodeUint32_1, DecodeUint32_2, !Hval by assumption.
    pose proof (big_endian_value_bytes 0 0 0 a H0 H0 H0 Ha) as [_ Hr].
    repeat split; try reflexivity;
      try (unfold big_endian_value, upto, len, is_byte in *; simpl in *; lia).
  - inversion Hok as [|? ? Ha Hok1]; subst. inversion Hok1 as [|? ? Hb _]; subst.
    rewrite DecodeUint32_2, DecodeUint32_3, !Hval by assumption.
    pose proof (big_endian_value_bytes 0 0 a b H0 H0 Ha Hb) as [_ Hr].
    repeat split; try reflexivity;
      try (unfold big_endian_value, upto, len, is_byte in *; simpl in *; lia).
  - inversion Hok as [|? ? Ha Hok1]; subst. inversion Hok1 as [|? ? Hb Hok2]; subst.
    inversion Hok2 as [|? ? Hc _]; subst.
    rewrite DecodeUint32_3, DecodeUint32_4, !Hval by assumption.
    pose proof (big_endian_value_bytes 0 a b c H0 Ha Hb Hc) as [_ Hr].
    repeat split; try reflexivity;
      try (unfold big_endian_value, upto, len, is_byte in *; simpl in *; lia).
  - inversion Hok as [|? ? Ha Hok1]; subst. inversion Hok1 as [|? ? Hb Hok2]; subst.
    inversion Hok2 as [|? ? Hc Hok3]; subst. inversion Hok3 as [|? ? Hd _]; subst.
    pose proof (big_endian_value_bytes a b c d Ha Hb Hc Hd) as [Hv Hr].
    assert (forall tail, DecodeUint32 (a :: b :: c :: d :: tail) =
              (BigEndian_Uint32 [a; b; c; d], 4, None)) as Hdec.
    { intros tail. unfold DecodeUint32.
      pose proof (len_nonneg tail). rewrite !len_cons.
      destruct (Z.ltb_spec 4 (1 + (1 + (1 + (1 + len tail))))) as [Hl | Hl].
      - reflexivity.
      - assert (tail = []) as -> by (apply len_0_nil; lia). reflexivity. }
    change (upto 4 (a :: b :: c :: d :: rest)) with [a; b; c; d].
    rewrite Hdec, Hv.
    pose proof (len_nonneg rest). rewrite !len_cons.
    repeat split; try lia.
    + f_equal. f_equal. lia.
    + intros more _. cbn [app]. rewrite Hdec, Hv. reflexivity.
Qed.

Lemma DecodeUint32_reads_at_most_four_witness :
  DecodeUint32 [0; 1; 0; 2; 9; 9] = (65538, 4, None) /\
  DecodeUint32 [0; 0; 1; 0; 2] = (256, 4, None).
Proof.
  destruct (DecodeUint32_reads_at_most_four [0; 1; 0; 2; 9; 9]) as (H1 & _).
  - repeat constructor; unfold is_byte; lia.
  - split; [exact H1|].
    destruct (DecodeUint32_reads_at_most_four [0; 0; 1; 0; 2]) as (H2 & _).
    + repeat constructor; unfold is_byte; lia.
    + exact H2.
Defined.

(** ** Marshalling an option into any buffer *)

Lemma len_copy (dst src : list Z) : len (copy dst src) = len dst.
Proof. unfold len. rewrite copy_length. reflexivity. Qed.

Lemma len_from (i : Z) (buf : list Z) :
  0 <= i <= len buf -> len (from i buf) = len buf - i.
Proof. intros H. unfold from, len in *. rewrite length_skipn. lia. Qed.

Lemma len_upto (i : Z) (buf : list Z) :
  0 <= i <= len buf -> len (upto i buf) = i.
Proof. intros H. unfold upto, len in *. rewrite length_firstn. lia. Qed.

Lemma marshalOptionHeaderExt_any (buf : list Z) (opt ext : Z) :
  len (fst (marshalOptionHeaderExt buf opt ext)) = len buf /\
  snd (marshalOptionHeaderExt buf opt ext) =
    (len (ext_wire opt ext),
     if len buf <? len (ext_wire opt ext) then Some ErrTooSmall else None).
Proof.
  pose proof (len_nonneg buf) as Hn.
  unfold marshalOptionHeaderExt, ext_wire.
  destruct (opt =? ExtendOptionByteCode).
  { change (len [byte ext]) with 1.
    destruct (Z.ltb_spec 0 (len buf)), (Z.ltb_spec (len buf) 1); try lia;
      cbn [fst snd]; rewrite ?len_copy; split; reflexivity. }
  destruct (opt =? ExtendOptionWordCode).
  { change (len (BigEndian_bytes16 (uint16 ext))) with 2.
    destruct (Z.ltb_spec 1 (len buf)), (Z.ltb_spec (len buf) 2); try lia;
      cbn [fst snd]; rewrite ?len_copy; split; reflexivity. }
  change (len (@nil Z)) with 0.
  destruct (Z.ltb_spec (len buf) 0); [lia|]. split; reflexivity.
Qed.

Lemma ext_into_any (isnil : bool) (size : Z) (buf : list Z) (opt ext : Z) :
  (isnil = false -> 0 <= size <= len buf) ->
  len (fst (ext_into isnil size buf opt ext)) = len buf /\
  fst (snd (ext_into isnil size buf opt ext)) = len (ext_wire opt ext) /\
  too_small_or_fail isnil (snd (snd (ext_into isnil size buf opt ext))) =
    inl (isnil || (len buf - size <? len (ext_wire opt ext))).
Proof.
  intros Hsize. destruct isnil.
  - rewrite ext_into_nil. cbn [fst snd orb].
    destruct (len (ext_wire opt ext) =? 0); repeat split; reflexivity.
  - specialize (Hsize eq_refl). unfold ext_into.
    destruct (marshalOptionHeaderExt_any (from size buf) opt ext) as (Hl & Hr).
    destruct (marshalOptionHeaderExt (from size buf) opt ext) as [tail r].
    cbn [fst snd] in *. subst r. cbn [fst snd orb].
    rewrite len_from in * by exact Hsize.
    unfold splice. rewrite len_app, len_upto, Hl by exact Hsize.
    destruct (len buf - size <? len (ext_wire opt ext));
      repeat split; try reflexivity; lia.
Qed.

Lemma marshalOptionHeader_any (buf : list Z) (delta length : Z) :
  len (fst (marshalOptionHeader buf delta length)) = len buf /\
  snd (marshalOptionHeader buf delta length) =
    (len (header_wire delta length),
     if len buf <? len (header_wire delta length) then Some ErrTooSmall else None) /\
  (len (header_wire delta length) <= len buf ->
   fst (marshalOptionHeader buf delta length) =
     header_wire delta length ++ from (len (header_wire delta length)) buf).
Proof.
  pose proof (len_nonneg buf) as Hn.
  assert (len buf < len (header_wire delta length) \/
          len (header_wire delta length) <= len buf) as [Hshort | Hfits] by lia.
  - destruct (Z.ltb_spec (len buf) (len (header_wire delta length))); [|lia].
    assert (len (fst (marshalOptionHeader buf delta length)) = len buf /\
            snd (marshalOptionHeader buf delta length) =
              (len (header_wire delta length), Some ErrTooSmall)) as [H1 H2].
    2:{ split; [exact H1|]. split; [exact H2|]. lia. }
    revert Hshort. clear H.
    unfold marshalOptionHeader, header_wire.
    destruct (extendOpt delta) as [d dx], (extendOpt length) as [l lx].
    set (b0 := Z.lor (byte (Z.shiftl d 4)) (byte l)).
    rewrite !len_app. change (len [b0]) with 1.
    pose proof (len_nonneg (ext_wire d dx)) as E1.
    pose proof (len_nonneg (ext_wire l lx)) as E2.
    intros Hshort.
    set (start := if 0 <? len buf then (copy buf [b0], false, 0 + 1)
                  else (buf, true, 0 + 1)).
    assert (exists buf0 isnil0,
              start = (buf0, isnil0, 0 + 1) /\ len buf0 = len buf /\
              isnil0 = (len buf <? 1)) as (buf0 & isnil0 & -> & L0 & I0).
    { subst start. destruct (Z.ltb_spec 0 (len buf)), (Z.ltb_spec (len buf) 1);
        try lia; eexists _, _; (split; [reflexivity|]);
        rewrite ?len_copy; split; reflexivity. }
    destruct (ext_into_any isnil0 (0 + 1) buf0 d dx) as (L1 & N1 & T1).
    { subst isnil0. intros Hf. apply Z.ltb_ge in Hf. lia. }
    destruct (ext_into isnil0 (0 + 1) buf0 d dx) as [buf1 [n1 e1]].
    cbn [fst snd] in *. rewrite T1. subst n1.
    destruct (ext_into_any (isnil0 || (len buf0 - (0 + 1) <? len (ext_wire d dx)))
                (0 + 1 + len (ext_wire d dx)) buf1 l lx) as (L2 & N2 & T2).
    { subst isnil0. rewrite ?L1, ?L0. intros Hf. apply orb_false_elim in Hf.
      destruct Hf as [Hf1 Hf2]. apply Z.ltb_ge in Hf1, Hf2. lia. }
    destruct (ext_into _ (0 + 1 + len (ext_wire d dx)) buf1 l lx) as [buf2 [n2 e2]].
    cbn [fst snd] in *. rewrite T2. subst n2.
    assert ((isnil0 || (len buf0 - (0 + 1) <? len (ext_wire d dx)) ||
             (len buf1 - (0 + 1 + len (ext_wire d dx)) <? len (ext_wire l lx))) = true)
      as ->.
    { subst isnil0. rewrite ?L1, ?L0.
      destruct (Z.ltb_spec (len buf) 1); [reflexivity|].
      destruct (Z.ltb_spec (len buf - (0 + 1)) (len (ext_wire d dx))); [reflexivity|].
      destruct (Z.ltb_spec (len buf - (0 + 1 + len (ext_wire d dx))) (len (ext_wire l lx)));
        [reflexivity | lia]. }
    cbn [fst snd]. split; [lia|]. f_equal. lia.
  - destruct (Z.ltb_spec (len buf) (len (header_wire delta length))); [lia|].
    pose proof (header_wire_len delta length) as Hh.
    destruct (split_at (len (header_wire delta length)) buf ltac:(lia))
      as (pre & rest & -> & Hpre).
    rewrite (marshalOptionHeader_fits pre rest delta length Hpre).
    cbn [fst snd]. rewrite (from_exact _ pre rest Hpre), !len_app, Hpre.
    repeat split; reflexivity.
Qed.

(** X5.  marshalOptionHeader on any buffer returns the length of the
    header, one byte and the extension bytes of the delta and of the
    length (1 to 5 in all); the error is [ErrTooSmall] exactly when the
    buffer is shorter than that, and nil otherwise.  The buffer keeps its
    length, and a buffer that is long enough holds the header followed by
    its old bytes. *)
Theorem marshalOptionHeader_any_buffer (buf : list Z) (delta length : Z) :
  let n := len (header_wire delta length) in
  1 <= n <= 5 /\
  len (fst (marshalOptionHeader buf delta length)) = len buf /\
  snd (marshalOptionHeader buf delta length) =
    (n, if len buf <? n then Some ErrTooSmall else None) /\
  (n <= len buf ->
   fst (marshalOptionHeader buf delta length) =
     header_wire delta length ++ from n buf).
Proof.
  cbv zeta. split; [apply header_wire_len|].
  apply marshalOptionHeader_any.
Qed.

Lemma splice_from (i : Z) (buf : list Z) : splice i buf (from i buf) = buf.
Proof. unfold splice, upto, from. apply firstn_skipn. Qed.

Lemma Option_Marshal_any (o : Option) (v : list Z) (prev : Z) (buf : list Z) :
  ToBytes o = Done v ->
  exists buf',
    Option_Marshal o buf prev =
      Done (buf', (len (option_wire prev o v),
                   if len buf <? len (option_wire prev o v)
                   then Some ErrTooSmall else None)) /\
    len buf' = len buf /\
    (len (option_wire prev o v) <= len buf ->
     buf' = option_wire prev o v ++ from (len (option_wire prev o v)) buf).
Proof.
  intros Hv. pose proof (len_nonneg buf) as Hn. pose proof (len_nonneg v) as Hvn.
  pose proof (header_wire_len (ID o - prev) (len v)) as Hh.
  assert (len buf < len (option_wire prev o v) \/
          len (option_wire prev o v) <= len buf) as [Hshort | Hfits] by lia.
  - destruct (Z.ltb_spec (len buf) (len (option_wire prev o v))); [|lia].
    rewrite option_wire_len in *.
    unfold Option_Marshal. rewrite (MarshalValue_nil o v Hv). cbn [bind].
    destruct (marshalOptionHeader_any buf (ID o - prev) (len v)) as (L1 & R1 & _).
    destruct (marshalOptionHeader buf (ID o - prev) (len v)) as [buf1 [n1 e1]].
    cbn [fst snd] in *. injection R1 as -> ->.
    set (h := len (header_wire (ID o - prev) (len v))) in *.
    assert (forall kont : outcome (list Z * (Z * option error)),
              match (if len v =? 0 then None else Some ErrTooSmall) with
              | None | Some ErrTooSmall => kont
              | Some e => Done (buf, (-1, Some e))
              end = kont) as Hk
      by (intros kont; destruct (len v =? 0); reflexivity).
    rewrite Hk. clear Hk.
    destruct (Z.ltb_spec (len buf) h) as [Hh1 | Hh1]; cbn [too_small_or_fail].
    + unfold value_into. rewrite (MarshalValue_nil o v Hv). cbn [bind].
      exists buf1. split; [|split; [exact L1 | lia]].
      destruct (len v =? 0); reflexivity.
    + unfold value_into, MarshalValue. rewrite Hv. cbn [bind].
      rewrite len_from by lia.
      destruct (Z.ltb_spec (len buf1 - h) (len v)); [|lia].
      cbn [bind too_small_or_fail]. rewrite splice_from.
      exists buf1. split; [reflexivity|]. split; [exact L1 | lia].
  - destruct (Z.ltb_spec (len buf) (len (option_wire prev o v))); [lia|].
    pose proof (len_nonneg (option_wire prev o v)) as Hon.
    destruct (split_at (len (option_wire prev o v)) buf ltac:(lia))
      as (pre & rest & -> & Hpre).
    rewrite (Option_Marshal_fits o v prev pre rest Hv Hpre).
    eexists. split; [reflexivity|].
    rewrite (from_exact _ pre rest Hpre), !len_app, Hpre. split; reflexivity.
Qed.

(** X6.  Option.Marshal on any buffer: it panics exactly when [ToBytes]
    does (a value of a type it does not list); otherwise it returns the
    length of the option on the wire, header and value, with [ErrTooSmall]
    exactly when the buffer is shorter than that, keeps the length of the
    buffer, and a buffer that is long enough then holds the option followed
    by its old bytes. *)
Theorem Option_Marshal_any_buffer (o : Option) (prev : Z) (buf : list Z) :
  match ToBytes o with
  | Panics => Option_Marshal o buf prev = Panics
  | Done v =>
      let n := len (option_wire prev o v) in
      exists buf',
        Option_Marshal o buf prev =
          Done (buf', (n, if len buf <? n then Some ErrTooSmall else None)) /\
        len buf' = len buf /\
        (n <= len buf -> buf' = option_wire prev o v ++ from n buf)
  end.
Proof.
  destruct (ToBytes o) as [v|] eqn:Hv.
  - cbv zeta. apply Option_Marshal_any. exact Hv.
  - unfold Option_Marshal, MarshalValue. rewrite Hv. reflexivity.
Qed.

(** ** The integer values of options (message_option.go) *)

Lemma minimal_big_endian_bytes (v : Z) :
  0 <= v < 4294967296 ->
  bytes_ok (minimal_big_endian v) /\
  big_endian_value (minimal_big_endian v) = v /\
  (forall b rest, minimal_big_endian v = b :: rest -> b <> 0).
Proof.
  intros Hv. unfold minimal_big_endian, bytes_ok, is_byte, big_endian_value.
  destruct (Z.eqb_spec v 0) as [-> | Hnz].
  { split; [constructor | split; [reflexivity | discriminate]]. }
  destruct (Z.leb_spec v 255).
  { split; [repeat constructor; lia | split; [cbn; lia |]].
    intros b rest E. injection E as <- _. exact Hnz. }
  pose proof (Z.div_mod v 256 ltac:(lia)) as D1.
  pose proof (Z.mod_pos_bound v 256 ltac:(lia)) as M1.
  destruct (Z.leb_spec v 65535).
  { assert (1 <= v / 256 < 256)
      by (split; [apply Z.div_le_lower_bound | apply Z.div_lt_upper_bound]; lia).
    split; [repeat constructor; lia | split; [cbn [fold_left]; lia |]].
    intros b rest E. injection E as <- _. lia. }
  pose proof (Z.div_mod (v / 256) 256 ltac:(lia)) as D2.
  pose proof (Z.mod_pos_bound (v / 256) 256 ltac:(lia)) as M2.
  assert (v / 65536 = v / 256 / 256) as D3
    by (rewrite Z.div_div by lia; reflexivity).
  destruct (Z.leb_spec v 16777215).
  { assert (1 <= v / 65536 < 256)
      by (split; [apply Z.div_le_lower_bound | apply Z.div_lt_upper_bound]; lia).
    split; [repeat constructor; lia | split; [cbn [fold_left]; lia |]].
    intros b rest E. injection E as <- _. lia. }
  pose proof (Z.div_mod (v / 65536) 256 ltac:(lia)) as D4.
  pose proof (Z.mod_pos_bound (v / 65536) 256 ltac:(lia)) as M4.
  assert (v / 16777216 = v / 65536 / 256) as D5
    by (rewrite Z.div_div by lia; reflexivity).
  assert (1 <= v / 16777216 < 256)
    by (split; [apply Z.div_le_lower_bound | apply Z.div_lt_upper_bound]; lia).
  split; [repeat constructor; lia | split; [cbn [fold_left]; lia |]].
  intros b rest E. injection E as <- _. lia.
Qed.

(** X7.  encodeInt and decodeInt: for every uint32 value, [encodeInt]
    gives its shortest big-endian form (nil for 0, no leading zero byte,
    four bytes at most) and [decodeInt] reads the value back, so that
    [encodeInt] is injective; [decodeInt] also accepts the longer forms: on
    any one to four bytes it returns the big-endian number they denote. *)
Theorem encodeInt_decodeInt_round_trip (v : Z) :
  0 <= v < 4294967296 ->
  decodeInt (encodeInt v) = v /\
  big_endian_value (encodeInt v) = v /\
  bytes_ok (encodeInt v) /\
  len (encodeInt v) <= 4 /\
  (encodeInt v = [] <-> v = 0) /\
  (forall b rest, encodeInt v = b :: rest -> b <> 0) /\
  (forall w, 0 <= w < 4294967296 -> encodeInt w = encodeInt v -> w = v) /\
  (forall b, bytes_ok b -> len b <= 4 -> decodeInt b = big_endian_value b).
Proof.
  intros Hv.
  destruct (minimal_big_endian_bytes v Hv) as (Hok & Hval & Hlead).
  rewrite (encodeInt_minimal v Hv).
  split; [rewrite <- (encodeInt_minimal v Hv); apply decodeInt_encodeInt; exact Hv|].
  split; [exact Hval|]. split; [exact Hok|].
  split.
  { rewrite minimal_big_endian_len by lia.
    repeat match goal with |- context [if ?c then _ else _] => destruct c end; lia. }
  split.
  { split.
    - intros E. rewrite E in Hval. cbn in Hval. lia.
    - intros ->. reflexivity. }
  split; [exact Hlead|].
  split.
  { intros w Hw E. rewrite (encodeInt_minimal w Hw) in E.
    destruct (minimal_big_endian_bytes w Hw) as (_ & Hvalw & _).
    rewrite E, Hval in Hvalw. lia. }
  intros b Hb Hlen.
  destruct b as [|a [|b [|c [|d [|e rest]]]]]; unfold bytes_ok in Hb.
  - reflexivity.
  - inversion Hb as [|? ? Ha _]; subst.
    change (decodeInt [a]) with (BigEndian_Uint32 [0; 0; 0; a]).
    rewrite BigEndian_Uint32_bytes by (unfold is_byte in *; lia).
    unfold big_endian_value. cbn [fold_left]. lia.
  - inversion Hb as [|? ? Ha Hb1]; subst. inversion Hb1 as [|? ? Hb2 _]; subst.
    change (decodeInt [a; b]) with (BigEndian_Uint32 [0; 0; a; b]).
    rewrite BigEndian_Uint32_bytes by (unfold is_byte in *; lia).
    unfold big_endian_value. cbn [fold_left]. lia.
  - inversion Hb as [|? ? Ha Hb1]; subst. inversion Hb1 as [|? ? Hb2 Hb3]; subst.
    inversion Hb3 as [|? ? Hc _]; subst.
    change (decodeInt [a; b; c]) with (BigEndian_Uint32 [0; a; b; c]).
    rewrite BigEndian_Uint32_bytes by (unfold is_byte in *; lia).
    unfold big_endian_value. cbn [fold_left]. lia.
  - inversion Hb as [|? ? Ha Hb1]; subst. inversion Hb1 as [|? ? Hb2 Hb3]; subst.
    inversion Hb3 as [|? ? Hc Hb4]; subst. inversion Hb4 as [|? ? Hd _]; subst.
    change (decodeInt [a; b; c; d]) with (BigEndian_Uint32 [a; b; c; d]).
    rewrite BigEndian_Uint32_bytes by (unfold is_byte in *; lia).
    unfold big_endian_value. cbn [fold_left]. lia.
  - exfalso. rewrite !len_cons in Hlen. pose proof (len_nonneg rest). lia.
Qed.

Lemma encodeInt_decodeInt_round_trip_witness :
  decodeInt (encodeInt 65536) = 65536 /\ encodeInt 65536 = [1; 0; 0] /\
  decodeInt [0; 1; 0; 0] = 65536.
Proof.
  destruct (encodeInt_decodeInt_round_trip 65536 ltac:(lia))
    as (H1 & _ & _ & _ & _ & _ & _ & H8).
  split; [exact H1|]. split; [reflexivity|].
  apply (H8 [0; 1; 0; 0]); [repeat constructor; unfold is_byte; lia | vm_compute; discriminate].
Defined.

(** ** Unmarshalling the value of a registered option *)

(** The value [UnmarshalValue] stores for a format of the registry. *)
Lemma CoapOptionDefs_format_known (id : Z) (def : OptionDef) :
  lookup CoapOptionDefs id = Some def -> Format def <> ValueUnknown.
Proof.
  intros H. apply lookup_In in H.
  pose proof CoapOptionDefs_formats_known as Hall.
  rewrite forallb_forall in Hall. specialize (Hall _ H). cbn [snd] in Hall.
  intros E. rewrite E in Hall. discriminate.
Qed.

Lemma VerifyOptLen_registered (id : Z) (def : OptionDef) (n : Z) :
  lookup CoapOptionDefs id = Some def ->
  VerifyOptLen CoapOptionDefs id n = true <-> MinLen def <= n <= MaxLen def.
Proof.
  intros H. unfold VerifyOptLen, index. rewrite H.
  destruct (Z.ltb_spec n (MinLen def)), (Z.ltb_spec (MaxLen def) n);
    cbn [orb]; split; intros; try lia; try discriminate; reflexivity.
Qed.

Lemma Option_Unmarshal_in_bounds (dst : Option) (id : Z) (def : OptionDef)
  (data : list Z) :
  lookup CoapOptionDefs id = Some def ->
  MinLen def <= len data <= MaxLen def ->
  Option_Unmarshal dst CoapOptionDefs id data =
    (mkOption id (stored_value def data), (len data, None)).
Proof.
  intros Hdef Hlen.
  pose proof (CoapOptionDefs_format_known id def Hdef) as Hfmt.
  pose proof (proj2 (VerifyOptLen_registered id def (len data) Hdef) Hlen) as Hver.
  unfold Option_Unmarshal, UnmarshalValue, stored_value. cbn [ID Value].
  rewrite Hdef, Hver. cbn [negb].
  destruct (Format def); try contradiction; try reflexivity.
  destruct ((id =? ContentFormat) || (id =? Accept)); reflexivity.
Qed.

(** X8.  Option.Unmarshal on an ID of the registry never returns an
    error.  A value whose length is outside the registered bounds is
    skipped: the call returns the length and leaves the option as it was.
    A value within the bounds is stored with the ID: the uint32 that
    [decodeInt] reads (format uint), the string (format string) or the bytes
    (formats opaque and empty).  The legacy [parseOptionValue] skips and
    keeps the same values, but for ContentFormat and Accept, which it
    returns as a MediaType where [UnmarshalValue] leaves a uint32. *)
Theorem Option_Unmarshal_registered (dst : Option) (id : Z) (def : OptionDef)
  (data : list Z) :
  lookup CoapOptionDefs id = Some def ->
  (len data < MinLen def \/ MaxLen def < len data ->
   Option_Unmarshal dst CoapOptionDefs id data = (dst, (len data, None)) /\
   parseOptionValue id data = None) /\
  (MinLen def <= len data <= MaxLen def ->
   Option_Unmarshal dst CoapOptionDefs id data =
     (mkOption id (stored_value def data), (len data, None)) /\
   parseOptionValue id data =
     Some (if (id =? ContentFormat) || (id =? Accept)
           then VMediaType (uint16 (decodeInt data))
           else stored_value def data)).
Proof.
  intros Hdef.
  pose proof (CoapOptionDefs_format_known id def Hdef) as Hfmt.
  split.
  - intros Hout.
    assert (VerifyOptLen CoapOptionDefs id (len data) = false) as Hver.
    { destruct (VerifyOptLen CoapOptionDefs id (len data)) eqn:E; [|reflexivity].
      apply (VerifyOptLen_registered id def _ Hdef) in E. lia. }
    split.
    + unfold Option_Unmarshal. rewrite Hdef, Hver. cbn [negb].
      destruct (Format def); try contradiction; reflexivity.
    + unfold parseOptionValue, index. rewrite Hdef.
      assert (((len data <? MinLen def) || (MaxLen def <? len data)) = true) as ->.
      { destruct Hout as [H | H].
        - apply Z.ltb_lt in H. rewrite H. reflexivity.
        - apply Z.ltb_lt in H. rewrite H. apply orb_true_r. }
      destruct (Format def); reflexivity.
  - intros Hin. split; [apply Option_Unmarshal_in_bounds; assumption|].
    unfold parseOptionValue, index, stored_value. rewrite Hdef.
    destruct (Z.ltb_spec (len data) (MinLen def)); [lia|].
    destruct (Z.ltb_spec (MaxLen def) (len data)); [lia|]. cbn [orb].
    assert (Format def <> ValueUint ->
            ((id =? ContentFormat) || (id =? Accept)) = false) as Hnot.
    { intros Hnu.
      destruct (Z.eqb_spec id ContentFormat) as [-> | _];
        [vm_compute in Hdef; injection Hdef as <-; exfalso; apply Hnu; reflexivity|].
      destruct (Z.eqb_spec id Accept) as [-> | _];
        [vm_compute in Hdef; injection Hdef as <-; exfalso; apply Hnu; reflexivity|].
      reflexivity. }
    destruct (Format def); try contradiction;
      try (rewrite Hnot by discriminate; reflexivity).
    destruct ((id =? ContentFormat) || (id =? Accept)); reflexivity.
Qed.

Lemma Option_Unmarshal_registered_witness :
  Option_Unmarshal zeroOption CoapOptionDefs ETag [1; 2; 3; 4; 5; 6; 7; 8; 9] =
    (zeroOption, (9, None)) /\
  Option_Unmarshal zeroOption CoapOptionDefs ContentFormat [50] =
    (mkOption ContentFormat (VUint32 50), (1, None)) /\
  parseOptionValue ContentFormat [50] = Some (VMediaType 50).
Proof.
  destruct (Option_Unmarshal_registered zeroOption ETag (mkOptionDef 1 8 ValueOpaque)
              [1; 2; 3; 4; 5; 6; 7; 8; 9] eq_refl) as (Hskip & _).
  destruct (Hskip ltac:(right; vm_compute; reflexivity)) as (H1 & _).
  destruct (Option_Unmarshal_registered zeroOption ContentFormat
              (mkOptionDef 0 2 ValueUint) [50] eq_refl) as (_ & Hin).
  destruct (Hin ltac:(split; vm_compute; discriminate)) as (H2 & H3).
  split; [exact H1|]. split; [exact H2 | exact H3].
Defined.

(** X9.  Option.Marshal then Option.Unmarshal: for an option whose ID is
    registered, whose value has the type and a length the registry
    prescribes, and a buffer that is long enough, [Marshal] writes the header
    and the value, and [Unmarshal] of the value bytes gives the option back,
    whatever the destination held. *)
Theorem Option_Unmarshal_inverts_Marshal (o dst : Option) (prev : Z)
  (buf : list Z) :
  canonical o ->
  (forall v, ToBytes o = Done v -> len (option_wire prev o v) <= len buf) ->
  exists v buf',
    ToBytes o = Done v /\
    let h := len (header_wire (ID o - prev) (len v)) in
    Option_Marshal o buf prev = Done (buf', (h + len v, None)) /\
    Option_Unmarshal dst CoapOptionDefs (ID o) (upto (len v) (from h buf')) =
      (o, (len v, None)).
Proof.
  intros Hcan Hfits.
  destruct (canonical_unmarshal o Hcan) as (v & Hv & Hun & _).
  specialize (Hfits v Hv).
  exists v. destruct (Option_Marshal_any o v prev buf Hv) as (buf' & Hm & _ & Hbuf').
  exists buf'. split; [exact Hv|]. cbv zeta.
  destruct (Z.ltb_spec (len buf) (len (option_wire prev o v))); [lia|].
  rewrite option_wire_len in Hm. split; [exact Hm|].
  rewrite (Hbuf' Hfits). unfold option_wire. rewrite <- app_assoc.
  rewrite from_app, upto_app.
  (* the destination does not matter *)
  unfold canonical in Hcan.
  destruct (lookup CoapOptionDefs (ID o)) as [def|] eqn:Hdef; [|contradiction].
  assert (MinLen def <= len v <= MaxLen def) as Hlen.
  { unfold ToBytes in Hv. destruct (Format def), (Value o); try contradiction;
      injection Hv as <-; tauto. }
  rewrite (Option_Unmarshal_in_bounds dst (ID o) def v Hdef Hlen).
  rewrite (Option_Unmarshal_in_bounds zeroOption (ID o) def v Hdef Hlen) in Hun.
  exact Hun.
Qed.

Lemma Option_Unmarshal_inverts_Marshal_witness :
  exists buf',
    Option_Marshal (mkOption URIPath (VString [97])) [9; 9; 9] 0 =
      Done (buf', (2, None)) /\
    buf' = [177; 97; 9] /\
    Option_Unmarshal zeroOption CoapOptionDefs URIPath (upto 1 (from 1 buf')) =
      (mkOption URIPath (VString [97]), (1, None)).
Proof.
  destruct (Option_Unmarshal_inverts_Marshal (mkOption URIPath (VString [97]))
              zeroOption 0 [9; 9; 9]) as (v & buf' & Hv & Hm & Hu).
  - vm_compute. split; discriminate.
  - intros v Hv. injection Hv as <-. vm_compute. discriminate.
  - injection Hv as <-. exists buf'. split; [exact Hm|].
    split; [|exact Hu].
    vm_compute in Hm. injection Hm as <-. reflexivity.
Defined.

(** ** The version bits of an encoded frame *)

(** Inverts a step of a computation that returned. *)
Ltac bind_inv H x E :=
  match type of H with
  | bind ?c _ = Done _ =>
      destruct c as [x|] eqn:E; [cbn [bind] in H | discriminate H]
  end.

Lemma store_first (win : list Z) (i v : Z) (c : cursor) :
  store (mkCursor [] win) i v = Done c ->
  written c = [] /\
  at_ (window c) 0 = (if i =? 0 then v else at_ win 0).
Proof.
  unfold store. cbn [written window].
  destruct (Z.leb_spec 0 i); [|discriminate].
  destruct (Z.ltb_spec i (len win)); [|discriminate].
  cbn [andb]. intros E. injection E as <-. cbn [written window].
  split; [reflexivity|].
  destruct (Z.eqb_spec i 0) as [-> | Hne].
  - reflexivity.
  - unfold upto, at_. destruct win as [|x win]; [unfold len in *; cbn in *; lia|].
    destruct (Z.to_nat i) as [|k] eqn:Ek; [lia|]. reflexivity.
Qed.

Lemma advance_first (win : list Z) (k : Z) (c : cursor) :
  1 <= k ->
  advance (mkCursor [] win) k = Done c -> has_first (at_ win 0) c.
Proof.
  intros Hk. unfold advance. cbn [written window].
  destruct (Z.leb_spec 0 k); [|discriminate].
  destruct (Z.leb_spec k (len win)); [|discriminate].
  cbn [andb]. intros E. injection E as <-. unfold has_first. cbn [written app].
  unfold upto, at_. destruct win as [|x win]; [unfold len in *; cbn in *; lia|].
  destruct (Z.to_nat k) as [|n] eqn:Ek; [lia|]. eexists. reflexivity.
Qed.

Lemma store_keeps_first (b0 : Z) (c c' : cursor) (i v : Z) :
  has_first b0 c -> store c i v = Done c' -> has_first b0 c'.
Proof.
  intros Hc. unfold store. destruct (_ && _); [|discriminate].
  intros E. injection E as <-. exact Hc.
Qed.

Lemma advance_keeps_first (b0 : Z) (c c' : cursor) (k : Z) :
  has_first b0 c -> advance c k = Done c' -> has_first b0 c'.
Proof.
  intros (tl & Hc). unfold advance. destruct (_ && _); [|discriminate].
  intros E. injection E as <-. unfold has_first. cbn [written].
  rewrite Hc. eexists. reflexivity.
Qed.

Lemma whole_first (b0 : Z) (c : cursor) :
  has_first b0 c -> at_ (whole c) 0 = b0 /\ 1 <= len (whole c).
Proof.
  intros (tl & Hc). unfold whole. rewrite Hc. cbn [app].
  split; [reflexivity|]. rewrite len_cons. pose proof (len_nonneg (tl ++ window c)). lia.
Qed.

(** The four header bytes of versions 0 and 1, then [buf = buf[4:]]. *)
Lemma header4_first {B : Type} (win : list Z) (v0 v1 v2 v3 : Z)
  (k : cursor -> outcome B) (r : B) :
  (c <- store (mkCursor [] win) 0 v0 ;;
   c <- store c 1 v1 ;;
   c <- store c 2 v2 ;;
   c <- store c 3 v3 ;;
   c <- advance c 4 ;;
   k c) = Done r ->
  exists c, has_first v0 c /\ k c = Done r.
Proof.
  intros H.
  bind_inv H c0 S0. destruct c0 as [w0 win0]. apply store_first in S0 as [E0 F0].
  cbn [written window] in *. subst w0.
  bind_inv H c1 S1. destruct c1 as [w1 win1]. apply store_first in S1 as [E1 F1].
  cbn [written window] in *. subst w1.
  bind_inv H c2 S2. destruct c2 as [w2 win2]. apply store_first in S2 as [E2 F2].
  cbn [written window] in *. subst w2.
  bind_inv H c3 S3. destruct c3 as [w3 win3]. apply store_first in S3 as [E3 F3].
  cbn [written window] in *. subst w3.
  bind_inv H c4 S4. exists c4. split; [|exact H].
  apply advance_first in S4; [|lia].
  rewrite F3, F2, F1, F0 in S4. exact S4.
Qed.

(** The eight header bytes of version 2, then [buf = buf[8:]]. *)
Lemma header8_first {B : Type} (win : list Z) (m : Message)
  (k : cursor -> outcome B) (r : B) :
  (c <- store_v2_header (mkCursor [] win) m ;;
   c <- advance c 8 ;;
   k c) = Done r ->
  exists c, has_first (at_ (v2_header m) 0) c /\ k c = Done r.
Proof.
  intros H. bind_inv H c7 S7. unfold store_v2_header in S7.
  bind_inv S7 c0 S0. destruct c0 as [w0 win0]. apply store_first in S0 as [E0 F0].
  cbn [written window] in *. subst w0.
  bind_inv S7 c1 S1. destruct c1 as [w1 win1]. apply store_first in S1 as [E1 F1].
  cbn [written window] in *. subst w1.
  bind_inv S7 c2 S2. destruct c2 as [w2 win2]. apply store_first in S2 as [E2 F2].
  cbn [written window] in *. subst w2.
  bind_inv S7 c3 S3. destruct c3 as [w3 win3]. apply store_first in S3 as [E3 F3].
  cbn [written window] in *. subst w3.
  bind_inv S7 c4 S4. destruct c4 as [w4 win4]. apply store_first in S4 as [E4 F4].
  cbn [written window] in *. subst w4.
  bind_inv S7 c5 S5. destruct c5 as [w5 win5]. apply store_first in S5 as [E5 F5].
  cbn [written window] in *. subst w5.
  bind_inv S7 c6 S6. destruct c6 as [w6 win6]. apply store_first in S6 as [E6 F6].
  cbn [written window] in *. subst w6.
  destruct c7 as [w7 win7]. apply store_first in S7 as [E7 F7].
  cbn [written window] in *. subst w7.
  bind_inv H c8 S8. exists c8. split; [|exact H].
  apply advance_first in S8; [|lia].
  rewrite F7, F6, F5, F4, F3, F2, F1, F0 in S8. exact S8.
Qed.

Lemma v2_header_bits (t k : Z) :
  0 <= t < 4 -> 0 <= k < 9 ->
  Z.shiftr (Z.lor (Z.lor (Z.shiftl 2 6) (byte (Z.shiftl (byte (Z.land 15 k)) 2)))
                  (byte t)) 6 = 2.
Proof.
  intros Ht Hk.
  pose proof (forallb_range2
    (fun t k =>
       Z.shiftr (Z.lor (Z.lor (Z.shiftl 2 6) (byte (Z.shiftl (byte (Z.land 15 k)) 2)))
                       (byte t)) 6 =? 2)
    4 9 ltac:(vm_compute; reflexivity) t k Ht Hk) as H.
  cbv beta in H. apply Z.eqb_eq in H. exact H.
Qed.

Lemma GetVersion_first (b0 ver : Z) (c : cursor) :
  has_first b0 c -> Z.shiftr b0 6 = ver -> GetVersion (whole c) = (ver, None).
Proof.
  intros Hc Hb. destruct (whole_first b0 c Hc) as [H0 Hlen].
  unfold GetVersion. destruct (Z.eqb_spec (len (whole c)) 0); [lia|].
  rewrite H0, Hb. reflexivity.
Qed.

Lemma v1_Encode_version (m : Message) (buf buf' : list Z) (n : Z) :
  0 <= Type_ m <= 3 ->
  coderv1.Encode m buf = Done (buf', (n, None)) ->
  GetVersion buf' = (Version1, None).
Proof.
  intros Ht H. unfold coderv1.Encode in H.
  destruct (negb (ValidateMID (MessageID m))); [discriminate|].
  destruct (negb (ValidateType (Type_ m))); [discriminate|].
  assert (slen (Token m) <= 8) as Htok.
  { destruct (Z.ltb_spec MaxTokenSize (slen (Token m))) as [Hl | Hl];
      [|unfold MaxTokenSize in Hl; exact Hl].
    unfold coderv1.Size in H.
    destruct (MaxTokenSize <? slen (Token m)) eqn:E; [discriminate H|].
    apply Z.ltb_ge in E. lia. }
  bind_inv H se ES. destruct se as [size err].
  destruct err as [e|]; [discriminate|].
  destruct (len buf <? size); [discriminate|]. cbv zeta in H.
  apply header4_first in H as (c & Hc & H).
  unfold MaxTokenSize in H. destruct (Z.ltb_spec 8 (slen (Token m))); [lia|].
  bind_inv H c1 S1.
  assert (has_first
            (Z.lor (Z.lor (Z.shiftl 1 6) (byte (Z.shiftl (byte (Type_ m)) 4)))
                   (byte (Z.land 15 (slen (Token m))))) c1) as Hc1
    by (apply (advance_keeps_first _ (copy_into c (sbytes (Token m))) _ _ Hc S1)).
  bind_inv H om EO. destruct om as [w [optionsLen err]].
  destruct err as [e|]; [destruct e; discriminate|].
  bind_inv H c2 S2.
  assert (has_first
            (Z.lor (Z.lor (Z.shiftl 1 6) (byte (Z.shiftl (byte (Type_ m)) 4)))
                   (byte (Z.land 15 (slen (Token m))))) c2) as Hc2
    by (apply (advance_keeps_first _ (mkCursor (written c1) w) _ _ Hc1 S2)).
  bind_inv H c3 S3.
  assert (has_first
            (Z.lor (Z.lor (Z.shiftl 1 6) (byte (Z.shiftl (byte (Type_ m)) 4)))
                   (byte (Z.land 15 (slen (Token m))))) c3) as Hc3.
  { destruct (0 <? slen (Payload m)).
    - bind_inv S3 c4 S4.
      apply (advance_keeps_first _ c4 _ _ (store_keeps_first _ _ _ _ _ Hc2 S4) S3).
    - injection S3 as <-. exact Hc2. }
  injection H as <- _.
  apply (GetVersion_first _ _ (copy_into c3 (sbytes (Payload m))) Hc3).
  pose proof (slen_nonneg (Token m)).
  destruct (v1_header_bits (Type_ m) (slen (Token m)) ltac:(lia) ltac:(lia)) as (Hv & _).
  rewrite Hv.
  assert (Z.testbit (Type_ m) 3 = false) as ->; [|reflexivity].
  assert (Type_ m = 0 \/ Type_ m = 1 \/ Type_ m = 2 \/ Type_ m = 3) as Hcases by lia.
  destruct Hcases as [-> | [-> | [-> | ->]]]; reflexivity.
Qed.

Lemma v0_Encode_version (m : Message) (buf buf' : list Z) (n : Z) :
  0 <= Type_ m <= 3 ->
  coderv0.Encode m buf = Done (buf', (n, None)) ->
  GetVersion buf' = (Version0, None).
Proof.
  intros Ht H. unfold coderv0.Encode, coderv0.Size in H.
  destruct (negb (ValidateType (Type_ m))); [discriminate|].
  destruct (negb (ValidateEID (EncoderID m))); [discriminate|].
  destruct (negb (ValidateETP (EncoderType m))); [discriminate|].
  destruct (len buf <? 4 + slen (Payload m)); [discriminate|]. cbv zeta in H.
  apply header4_first in H as (c & Hc & H).
  injection H as <- _.
  apply (GetVersion_first _ _ (copy_into c _) Hc).
  change (Type_ (set_Crc16 m _)) with (Type_ m).
  rewrite byte_small by lia. rewrite Z.shiftr_div_pow2 by lia.
  apply Z.div_small. change (2 ^ 6) with 64. lia.
Qed.

(** Both copies of the version-2 encoder up to the payload. *)
Lemma v2_body_first (b0 : Z) (c c3 : cursor) (m : Message) (w : list Z)
  (optionsLen : Z) :
  has_first b0 c ->
  (c2 <- advance (mkCursor (written c) w) optionsLen ;;
   (if 0 <? slen (Payload m)
    then c4 <- store c2 0 255 ;; advance c4 1
    else Done c2)) = Done c3 ->
  has_first b0 c3.
Proof.
  intros Hc H. bind_inv H c2 S2.
  pose proof (advance_keeps_first _ (mkCursor (written c) w) _ _ Hc S2) as Hc2.
  destruct (0 <? slen (Payload m)).
  - bind_inv H c4 S4.
    apply (advance_keeps_first _ c4 _ _ (store_keeps_first _ _ _ _ _ Hc2 S4) H).
  - injection H as <-. exact Hc2.
Qed.

Lemma v2_Encode_header_version (m : Message) :
  0 <= Type_ m <= 3 -> slen (Token m) <= 8 ->
  Z.shiftr (at_ (v2_header (set_Crc16 m (CRC16Bytes (sbytes (Payload m))))) 0) 6
    = Version2.
Proof.
  intros Ht Htok. pose proof (slen_nonneg (Token m)).
  apply (v2_header_bits (Type_ m) (slen (Token m))); lia.
Qed.

Lemma v2_Size_token (m : Message) (size : Z) :
  v2_Size m = Done (size, None) -> slen (Token m) <= 8.
Proof.
  unfold v2_Size, MaxTokenSize.
  destruct (Z.ltb_spec 8 (slen (Token m))); [discriminate | intros _; assumption].
Qed.

Lemma v2_pbuf_Encode_version (m : Message) (buf buf' : list Z) (n : Z) :
  0 <= Type_ m <= 3 ->
  coderv2_pbuf.Encode m buf = Done (buf', (n, None)) ->
  GetVersion buf' = (Version2, None).
Proof.
  intros Ht H. unfold coderv2_pbuf.Encode, coderv2_pbuf.Size in H.
  destruct (v2_validate m); [discriminate|].
  bind_inv H se ES. destruct se as [size err].
  destruct err as [e|]; [discriminate|].
  pose proof (v2_Size_token m size ES) as Htok.
  destruct (len buf <? size); [discriminate|]. cbv zeta in H.
  apply header8_first in H as (c & Hc & H).
  change (Token (set_Crc16 m _)) with (Token m) in H.
  change (Payload (set_Crc16 m _)) with (Payload m) in H.
  unfold MaxTokenSize in H. destruct (Z.ltb_spec 8 (slen (Token m))); [lia|].
  bind_inv H c1 S1.
  pose proof (advance_keeps_first _ (copy_into c (sbytes (Token m))) _ _ Hc S1) as Hc1.
  bind_inv H om EO. destruct om as [w [optionsLen err]].
  destruct err as [e|]; [destruct e; discriminate|].
  bind_inv H c2 S2. bind_inv H c3 S3.
  assert (has_first
            (at_ (v2_header (set_Crc16 m (CRC16Bytes (sbytes (Payload m))))) 0) c3)
    as Hc3.
  { apply (v2_body_first _ c1 c3 m w optionsLen Hc1).
    rewrite S2. cbn [bind]. exact S3. }
  match type of H with
  | context [if ?b then _ else _] => destruct b; [|discriminate H]
  end.
  bind_inv H c5 S5. injection H as <- _.
  destruct (whole_first _ _ Hc3) as [Hw0 Hwlen].
  cbn [written window] in S5. unfold store in S5.
  match type of S5 with
  | context [if ?b then _ else _] => destruct b; [|discriminate S5]
  end.
  injection S5 as <-.
  set (all := whole (copy_into c3 (sbytes (Payload m)))) in *.
  unfold whole. cbn [written window app].
  unfold GetVersion.
  assert (at_ all 0 = at_ (whole c3) 0 /\ len all = len (whole c3)) as [A0 AL].
  { subst all. unfold whole, copy_into. cbn [written window].
    destruct Hc3 as (tl & ->). cbn [app]. split; [reflexivity|].
    rewrite !len_cons, !len_app, len_copy. reflexivity. }
  assert (len (upto 7 all ++ RSUM8 (upto size all) :: from 8 all) <> 0) as Hne.
  { rewrite len_app, len_cons.
    pose proof (len_nonneg (upto 7 all)). pose proof (len_nonneg (from 8 all)). lia. }
  destruct (Z.eqb_spec (len (upto 7 all ++ RSUM8 (upto size all) :: from 8 all)) 0);
    [contradiction|].
  assert (at_ (upto 7 all ++ RSUM8 (upto size all) :: from 8 all) 0 = at_ all 0)
    as ->.
  { unfold upto, at_. destruct all as [|x all']; [unfold len in *; cbn in *; lia|].
    reflexivity. }
  rewrite A0, Hw0. f_equal. apply v2_Encode_header_version; assumption.
Qed.

Lemma v2_Encode_version (m : Message) (buf spare buf' : list Z) (n : Z) :
  0 <= Type_ m <= 3 ->
  coderv2.Encode m buf spare = Done (buf', (n, None)) ->
  GetVersion buf' = (Version2, None).
Proof.
  intros Ht H. unfold coderv2.Encode, coderv2.Size in H.
  destruct (v2_validate m); [discriminate|].
  bind_inv H se ES. destruct se as [size err].
  destruct err as [e|]; [discriminate|].
  pose proof (v2_Size_token m size ES) as Htok.
  destruct (len buf <? size); [discriminate|]. cbv zeta in H.
  apply header8_first in H as (c & Hc & H).
  change (Token (set_Crc16 m _)) with (Token m) in H.
  change (Payload (set_Crc16 m _)) with (Payload m) in H.
  unfold MaxTokenSize in H. destruct (Z.ltb_spec 8 (slen (Token m))); [lia|].
  bind_inv H c1 S1.
  pose proof (advance_keeps_first _ (copy_into c (sbytes (Token m))) _ _ Hc S1) as Hc1.
  bind_inv H om EO. destruct om as [w [optionsLen err]].
  destruct err as [e|]; [destruct e; discriminate|].
  bind_inv H c2 S2. bind_inv H c3 S3.
  assert (has_first
            (at_ (v2_header (set_Crc16 m (CRC16Bytes (sbytes (Payload m))))) 0) c3)
    as Hc3.
  { apply (v2_body_first _ c1 c3 m w optionsLen Hc1).
    rewrite S2. cbn [bind]. exact S3. }
  match type of H with
  | context [if ?b then _ else _] => destruct b; [|discriminate H]
  end.
  bind_inv H c5 S5. injection H as <- _.
  apply (GetVersion_first _ _ c5
           (store_keeps_first _ (copy_into c3 (sbytes (Payload m))) _ _ _ Hc3 S5)).
  apply v2_Encode_header_version; assumption.
Qed.

(** X10.  GetVersion on an encoded frame: whenever an encoder returns
    without error for a message of type 0..3, the top two bits of the first
    byte of the buffer are the version of that encoder (0 for coderv0, 1 for
    coderv1, 2 for both copies of coderv2), and [GetVersion] reads it;
    [GetVersion] of an empty input is the error "empty payload". *)
Theorem GetVersion_of_an_encoded_frame (m : Message) (buf buf' : list Z) (n : Z) :
  0 <= Type_ m <= 3 ->
  (coderv0.Encode m buf = Done (buf', (n, None)) ->
   GetVersion buf' = (Version0, None)) /\
  (coderv1.Encode m buf = Done (buf', (n, None)) ->
   GetVersion buf' = (Version1, None)) /\
  (coderv2_pbuf.Encode m buf = Done (buf', (n, None)) ->
   GetVersion buf' = (Version2, None)) /\
  (forall spare,
     coderv2.Encode m buf spare = Done (buf', (n, None)) ->
     GetVersion buf' = (Version2, None)) /\
  GetVersion [] = (0, Some errEmptyPayload).
Proof.
  intros Ht.
  split; [apply v0_Encode_version; exact Ht|].
  split; [apply v1_Encode_version; exact Ht|].
  split; [apply v2_pbuf_Encode_version; exact Ht|].
  split; [intros spare; apply v2_Encode_version; exact Ht | reflexivity].
Qed.

Lemma GetVersion_of_an_encoded_frame_witness :
  GetVersion [1; 82; 241; 145; 0; 1; 2] = (Version0, None) /\
  GetVersion [96; 0; 18; 52] = (Version1, None).
Proof.
  split.
  - apply (GetVersion_of_an_encoded_frame coreV0Sample (repeat 0 7)
             [1; 82; 241; 145; 0; 1; 2] 7);
      [unfold coreV0Sample, NonConfirmable; cbn; lia | vm_compute; reflexivity].
  - apply (GetVersion_of_an_encoded_frame coreEmptyAck [9; 9; 9; 9]
             [96; 0; 18; 52] 4);
      [unfold coreEmptyAck, Acknowledgement; cbn; lia | vm_compute; reflexivity].
Defined.

(** ** Names of payload encodings *)

(** X11.  GetEncoderType and GetEncoder are inverse on the seven encodings
    the code lists: a pair (encoderType 0..6, encoderID 0) is named and
    [GetEncoder] gives the pair back; every other pair is named
    none/userdefine and comes back as (0, 0).  Every name of the list comes
    back through [GetEncoderType], every other string is read as (0, 0);
    what [GetEncoder] returns always passes [ValidateETP] and
    [ValidateEID]. *)
Theorem GetEncoder_inverts_GetEncoderType (t id : Z) (s : string) :
  GetEncoder (GetEncoderType t id) =
    (if (0 <=? t) && (t <=? 6) && (id =? 0) then (t, 0) else (0, 0)) /\
  In (GetEncoderType t id) encoder_names /\
  GetEncoderType (fst (GetEncoder s)) (snd (GetEncoder s)) =
    (if in_dec string_dec s encoder_names then s else EncoderTypeNoneUserDefine) /\
  ValidateETP (fst (GetEncoder s)) = true /\
  ValidateEID (snd (GetEncoder s)) = true.
Proof.
  split; [|split; [|split]].
  - unfold GetEncoderType.
    destruct (Z.eqb_spec id 0) as [-> | Hid].
    + repeat match goal with
             | |- context [if ?x =? ?y then _ else _] =>
                 destruct (Z.eqb_spec x y) as [-> | ?]; [reflexivity|]
             end.
      destruct (Z.leb_spec 0 t), (Z.leb_spec t 6); try reflexivity. lia.
    + rewrite andb_false_r.
      repeat match goal with
             | |- context [if ?x =? ?y then _ else _] =>
                 destruct (Z.eqb_spec x y); [reflexivity|]
             end.
      reflexivity.
  - unfold GetEncoderType, encoder_names.
    destruct (id =? 0);
      repeat match goal with
             | |- context [if ?x =? ?y then _ else _] =>
                 destruct (Z.eqb_spec x y); [cbn [In]; tauto|]
             end;
      cbn [In]; tauto.
  - unfold GetEncoder.
    repeat match goal with
           | |- context [if String.eqb s ?n then _ else _] =>
               destruct (String.eqb_spec s n) as [-> | ?]; [reflexivity|]
           end.
    destruct (in_dec string_dec s encoder_names) as [Hin | _]; [|reflexivity].
    unfold encoder_names in Hin. cbn [In] in Hin.
    repeat (destruct Hin as [Hin | Hin]; [congruence|]). contradiction.
  - unfold GetEncoder.
    repeat match goal with
           | |- context [if String.eqb s ?n then _ else _] =>
               destruct (String.eqb s n); [split; reflexivity|]
           end.
    split; reflexivity.
Qed.

(** ** Validation in the version-1 and version-2 encoders *)

(** X12.  coderv1 and coderv2 [Encode] validate the message before they
    touch the buffer, in a fixed order: message id, type, (version 2:
    encoder id, encoder type), token length.  The first field that fails
    decides the error, the count returned is -1 and the buffer, of any
    length, is left as it was.  A message whose id and type are still unset
    (-1) is therefore refused with the message-id error. *)
Theorem Encode_validates_before_writing (m : Message) (buf spare : list Z) :
  (ValidateMID (MessageID m) = false ->
   coderv1.Encode m buf = Done (buf, (-1, Some errInvalidMessageID)) /\
   coderv2.Encode m buf spare = Done (buf, (-1, Some errInvalidMessageID)) /\
   coderv2_pbuf.Encode m buf = Done (buf, (-1, Some errInvalidMessageID))) /\
  (ValidateMID (MessageID m) = true -> ValidateType (Type_ m) = false ->
   coderv1.Encode m buf = Done (buf, (-1, Some errInvalidType)) /\
   coderv2.Encode m buf spare = Done (buf, (-1, Some errInvalidType)) /\
   coderv2_pbuf.Encode m buf = Done (buf, (-1, Some errInvalidType))) /\
  (ValidateMID (MessageID m) = true -> ValidateType (Type_ m) = true ->
   (8 < slen (Token m) ->
    coderv1.Encode m buf = Done (buf, (-1, Some ErrInvalidTokenLen))) /\
   (ValidateEID (EncoderID m) = false ->
    coderv2.Encode m buf spare = Done (buf, (-1, Some errInvalidEncoderID)) /\
    coderv2_pbuf.Encode m buf = Done (buf, (-1, Some errInvalidEncoderID))) /\
   (ValidateEID (EncoderID m) = true -> ValidateETP (EncoderType m) = false ->
    coderv2.Encode m buf spare = Done (buf, (-1, Some errInvalidEncoderType)) /\
    coderv2_pbuf.Encode m buf = Done (buf, (-1, Some errInvalidEncoderType))) /\
   (ValidateEID (EncoderID m) = true -> ValidateETP (EncoderType m) = true ->
    8 < slen (Token m) ->
    coderv2.Encode m buf spare = Done (buf, (-1, Some ErrInvalidTokenLen)) /\
    coderv2_pbuf.Encode m buf = Done (buf, (-1, Some ErrInvalidTokenLen)))) /\
  (MessageID m = -1 ->
   coderv1.Encode m buf = Done (buf, (-1, Some errInvalidMessageID))).
Proof.
  assert (8 < slen (Token m) ->
          v2_Size m = Done (-1, Some ErrInvalidTokenLen) /\
          coderv1.Size m = Done (-1, Some ErrInvalidTokenLen)) as Hsize.
  { intros Htok. unfold v2_Size, coderv1.Size, MaxTokenSize.
    destruct (Z.ltb_spec 8 (slen (Token m))); [|lia]. split; reflexivity. }
  unfold coderv1.Encode, coderv2.Encode, coderv2_pbuf.Encode, v2_validate,
    coderv2.Size, coderv2_pbuf.Size.
  split; [intros ->; cbn [negb]; repeat split|].
  split; [intros -> ->; cbn [negb]; repeat split|].
  split.
  - intros -> ->. cbn [negb].
    split.
    { intros Htok. destruct (Hsize Htok) as (_ & ->). reflexivity. }
    split; [intros ->; cbn [negb]; split; reflexivity|].
    split; [intros -> ->; cbn [negb]; split; reflexivity|].
    intros -> -> Htok. cbn [negb].
    destruct (Hsize Htok) as (-> & _). split; reflexivity.
  - intros Hmid. rewrite Hmid. reflexivity.
Qed.

(** ** The legacy decoder (package secoap, Message.UnmarshalBinary) *)





(** ** The legacy encoder and decoder, end to end *)

Lemma legacy_canonical_parse (o : Option) :
  legacy_canonical o ->
  exists v,
    ToBytes o = Done v /\
    parseOptionValue (ID o) v = Some (Value o) /\
    1 <= ID o <= 65100 /\ len v <= 1034.
Proof.
  unfold legacy_canonical. destruct o as [id val]. cbn [ID Value].
  destruct (lookup CoapOptionDefs id) as [def|] eqn:Hdef; [|contradiction].
  destruct (CoapOptionDefs_bounds id def Hdef) as (Hid & Hmin & Hmax).
  assert (forall n, MinLen def <= n <= MaxLen def ->
                    ((n <? MinLen def) || (MaxLen def <? n)) = false) as Hin.
  { intros n Hn. destruct (Z.ltb_spec n (MinLen def)); [lia|].
    destruct (Z.ltb_spec (MaxLen def) n); [lia|]. reflexivity. }
  unfold parseOptionValue, index, ToBytes. cbn [ID Value]. rewrite Hdef.
  destruct (Format def) eqn:Hfmt; destruct val; try contradiction; intros Hc.
  - exists b. rewrite (Hin _ Hc). repeat split; lia.
  - exists b. rewrite (Hin _ Hc). repeat split; lia.
  - destruct Hc as (Hv & Hlen & Hcf).
    exists (encodeInt (uint32 v)). unfold uint32. rewrite Z.mod_small by lia.
    rewrite (Hin _ Hlen), decodeInt_encodeInt by lia.
    assert (((id =? ContentFormat) || (id =? Accept)) = true) as ->.
    { destruct Hcf as [-> | ->]; reflexivity. }
    unfold uint16. rewrite Z.mod_small by lia. repeat split; lia.
  - destruct Hc as (Hv & Hlen & Hcf & Hac).
    exists (encodeInt v). rewrite (Hin _ Hlen), decodeInt_encodeInt by lia.
    destruct (Z.eqb_spec id ContentFormat); [contradiction|].
    destruct (Z.eqb_spec id Accept); [contradiction|].
    cbn [orb]. repeat split; lia.
  - exists s. rewrite (Hin _ Hc). repeat split; lia.
Qed.

Lemma legacy_canonical_marshalable (opts : list Option) :
  Forall legacy_canonical opts -> Forall marshalable opts.
Proof.
  apply Forall_impl. intros o Hc.
  destruct (legacy_canonical_parse o Hc) as (v & Hv & _). exists v. exact Hv.
Qed.

Lemma legacy_canonical_ID_positive (opts : list Option) :
  Forall legacy_canonical opts -> Forall (fun o => 0 <= ID o) opts.
Proof.
  apply Forall_impl. intros o Hc.
  destruct (legacy_canonical_parse o Hc) as (_ & _ & _ & Hid & _). lia.
Qed.

Lemma writeExt_wire (buf : list Z) (opt ext : Z) :
  secoap.writeExt buf opt ext = buf ++ ext_wire opt ext.
Proof.
  unfold secoap.writeExt, ext_wire.
  destruct (opt =? ExtendOptionByteCode); [reflexivity|].
  destruct (opt =? ExtendOptionWordCode); [reflexivity|].
  symmetry. apply app_nil_r.
Qed.

Lemma writeOptHeader_wire (buf : list Z) (delta length : Z) :
  secoap.writeOptHeader buf delta length = buf ++ header_wire delta length.
Proof.
  unfold secoap.writeOptHeader, header_wire.
  destruct (extendOpt delta) as [d dx], (extendOpt length) as [l lx].
  rewrite !writeExt_wire, <- !app_assoc. reflexivity.
Qed.

(** The closure [writeOptHeader] and the loop over the options write what
    [Option.Marshal] writes. *)
Lemma writeOpts_wire (opts : list Option) :
  forall (buf : list Z) (prev : Z),
    secoap.writeOpts buf prev opts =
      (W <- options_wire prev opts ;; Done (buf ++ W)).
Proof.
  induction opts as [|o opts IH]; intros buf prev;
    cbn [secoap.writeOpts options_wire bind].
  - rewrite app_nil_r. reflexivity.
  - destruct (ToBytes o) as [v|]; cbn [bind]; [|reflexivity].
    rewrite IH, writeOptHeader_wire.
    destruct (options_wire (ID o) opts) as [w|]; cbn [bind]; [|reflexivity].
    unfold option_wire. rewrite <- !app_assoc. reflexivity.
Qed.

Lemma legacy_parseExtOpt_wire (v : Z) (rest : list Z) :
  0 <= v <= 65804 ->
  secoap.parseExtOpt (ext_wire (fst (extendOpt v)) (snd (extendOpt v)) ++ rest)
                     (fst (extendOpt v)) =
    (rest, (v, None)).
Proof.
  intros Hv. pose proof (parseExtOpt_ext_wire v rest Hv) as H.
  set (x := ext_wire (fst (extendOpt v)) (snd (extendOpt v))) in *.
  unfold parseExtOpt in H. unfold secoap.parseExtOpt.
  destruct (fst (extendOpt v) =? ExtendOptionByteCode).
  { destruct (len (x ++ rest) <? 1); [discriminate|].
    injection H as H1 H2. rewrite H2, H1, from_app. reflexivity. }
  destruct (fst (extendOpt v) =? ExtendOptionWordCode).
  { destruct (len (x ++ rest) <? 2); [discriminate|].
    injection H as H1 H2. rewrite H2, H1, from_app. reflexivity. }
  injection H as H1 H2. rewrite H2.
  assert (x = []) as -> by (apply len_0_nil; lia). reflexivity.
Qed.

Lemma parseOptions_wire (opts : list Option) :
  forall (prev : Z) (W tail : list Z) (acc : list Option) (fuel : nat),
    options_wire prev opts = Done W ->
    Forall legacy_canonical opts ->
    nondecreasing_from prev opts ->
    0 <= prev ->
    tail = [] \/ (exists p, tail = 255 :: p) ->
    (length (W ++ tail) <= fuel)%nat ->
    secoap.parseOptions fuel acc (W ++ tail) prev =
      (acc ++ opts, (from 1 tail, None)).
Proof.
  induction opts as [|o opts IH];
    intros prev W tail acc fuel HW Hcan Hsorted Hprev Htail Hfuel.
  - cbn in HW. injection HW as <-. cbn [app] in *. rewrite app_nil_r.
    destruct Htail as [-> | (p & ->)].
    + destruct fuel; reflexivity.
    + destruct fuel as [|fuel]; [cbn in Hfuel; lia|]. reflexivity.
  - cbn [options_wire] in HW.
    destruct (ToBytes o) as [v|] eqn:Hv; [|discriminate HW]. cbn [bind] in HW.
    destruct (options_wire (ID o) opts) as [w|] eqn:Hw; [|discriminate HW].
    cbn [bind] in HW. injection HW as <-.
    inversion Hcan as [|? ? Hco Hcan']; subst.
    destruct Hsorted as [Hle Hsorted].
    destruct (legacy_canonical_parse o Hco) as (v' & Hv' & Hparse & Hid & Hvlen).
    rewrite Hv in Hv'. injection Hv' as <-.
    pose proof (len_nonneg v) as Hvn.
    unfold option_wire, header_wire in *.
    pose proof (extendOpt_nibble (ID o - prev) ltac:(lia)) as Hd.
    pose proof (extendOpt_nibble (len v) Hvn) as Hl.
    pose proof (legacy_parseExtOpt_wire (ID o - prev)) as Hpd.
    pose proof (legacy_parseExtOpt_wire (len v)) as Hpl.
    destruct (extendOpt (ID o - prev)) as [d dx].
    destruct (extendOpt (len v)) as [l lx].
    cbn [fst snd] in *.
    destruct (header_byte_nibbles d l Hd Hl) as (Hff & Hhi & Hlo).
    set (b0 := Z.lor (byte (Z.shiftl d 4)) (byte l)) in *.
    rewrite <- !app_assoc in *. cbn [app] in *.
    destruct fuel as [|fuel]; [cbn in Hfuel; lia|].
    cbn [secoap.parseOptions].
    destruct (Z.eqb_spec b0 255); [contradiction|].
    rewrite Hhi, Hlo. unfold ExtendOptionError.
    destruct (Z.eqb_spec d 15); [lia|]. destruct (Z.eqb_spec l 15); [lia|].
    cbn [orb]. rewrite from_1_cons.
    rewrite (Hpd (ext_wire l lx ++ v ++ w ++ tail)) by lia.
    rewrite (Hpl (v ++ w ++ tail)) by lia.
    assert ((len (v ++ w ++ tail) <? len v) = false) as ->.
    { apply Z.ltb_ge. rewrite len_app. pose proof (len_nonneg (w ++ tail)). lia. }
    assert (uint32 (prev + (ID o - prev)) = ID o) as ->.
    { unfold uint32. rewrite Z.mod_small by lia. lia. }
    rewrite upto_app, Hparse, from_app.
    rewrite (IH (ID o) w tail (acc ++ [mkOption (ID o) (Value o)]) fuel Hw Hcan'
               Hsorted ltac:(lia) Htail).
    + rewrite <- app_assoc. destruct o. reflexivity.
    + cbn [length] in Hfuel. rewrite !length_app in Hfuel. rewrite length_app. lia.
Qed.

Lemma payload_wire_tail (p : option (list Z)) :
  payload_wire p = [] \/ (exists q, payload_wire p = 255 :: q).
Proof.
  destruct (payload_wire_cases p) as [(-> & _) | (-> & _)];
    [left; reflexivity | right; eexists; reflexivity].
Qed.

Lemma legacy_MarshalBinary_frame (m : secoap.Message) (W : list Z) :
  options_wire 0 (sort_Stable (secoap.Opts m)) = Done W ->
  secoap.MarshalBinary m =
    Done (secoap.mkMessage (secoap.Token m) (sort_Stable (secoap.Opts m))
            (secoap.Code m) (secoap.Payload m) (secoap.MessageID m)
            (secoap.Type_ m),
          (legacy_frame m W, None)).
Proof.
  intros HW. unfold secoap.MarshalBinary.
  cbn [secoap.Token secoap.Opts secoap.Code secoap.Payload secoap.MessageID
       secoap.Type_].
  rewrite writeOpts_wire, HW. cbn [bind].
  unfold legacy_frame, payload_wire, BigEndian_bytes16, at_. cbn [nth].
  destruct (Z.ltb_spec 0 (slen (secoap.Payload m))) as [Hpos | Hzero]; cbn [app].
  - rewrite <- !app_assoc. reflexivity.
  - assert (sbytes (secoap.Payload m) = []) as ->.
    { apply len_0_nil. rewrite slen_sbytes.
      pose proof (slen_nonneg (secoap.Payload m)). lia. }
    rewrite !app_nil_r. reflexivity.
Qed.

(** [UnmarshalBinary] on a frame whose option bytes [W] the option loop
    reads as [parsed]. *)
Lemma legacy_UnmarshalBinary_frame (m dst : secoap.Message) (W : list Z)
  (parsed : list Option) :
  slen (secoap.Token m) <= 8 ->
  0 <= secoap.Type_ m <= 3 ->
  0 <= secoap.Code m <= 255 ->
  0 <= secoap.MessageID m <= 65535 ->
  secoap.parseOptions
    (length (W ++ payload_wire (secoap.Payload m)))
    (secoap.Opts dst) (W ++ payload_wire (secoap.Payload m)) 0 =
    (secoap.Opts dst ++ parsed,
     (from 1 (payload_wire (secoap.Payload m)), None)) ->
  secoap.UnmarshalBinary dst (legacy_frame m W) =
    (secoap.mkMessage
       (if 0 <? slen (secoap.Token m) then Some (sbytes (secoap.Token m))
        else secoap.Token dst)
       (secoap.Opts dst ++ parsed) (secoap.Code m)
       (Some (sbytes (secoap.Payload m))) (secoap.MessageID m) (secoap.Type_ m),
     None).
Proof.
  intros Htok Htyp Hcode Hmid Hparse.
  pose proof (slen_nonneg (secoap.Token m)) as Htn.
  pose proof (len_nonneg W) as HWn.
  pose proof (len_nonneg (payload_wire (secoap.Payload m))) as Hpn.
  assert (len (legacy_frame m W) =
          4 + slen (secoap.Token m) + len W + len (payload_wire (secoap.Payload m)))
    as Hlen.
  { unfold legacy_frame. rewrite !len_app, slen_sbytes.
    change (len [_; _]) with 2. change (len (BigEndian_bytes16 _)) with 2. lia. }
  unfold secoap.UnmarshalBinary. rewrite Hlen.
  destruct (Z.ltb_spec (4 + slen (secoap.Token m) + len W +
                        len (payload_wire (secoap.Payload m))) 4); [lia|].
  assert (at_ (legacy_frame m W) 0 =
          Z.lor (Z.lor (Z.shiftl 1 6) (byte (Z.shiftl (byte (secoap.Type_ m)) 4)))
                (byte (Z.land 15 (slen (secoap.Token m))))) as -> by reflexivity.
  destruct (v1_header_bits (secoap.Type_ m) (slen (secoap.Token m))
              ltac:(lia) ltac:(lia)) as (Hv & Hty & Hk).
  rewrite Hv, Hty, Hk. rewrite (Z.mod_small (secoap.Type_ m) 4) by lia.
  assert (Z.testbit (secoap.Type_ m) 3 = false) as ->.
  { assert (secoap.Type_ m = 0 \/ secoap.Type_ m = 1 \/ secoap.Type_ m = 2 \/
            secoap.Type_ m = 3) as Hc by lia.
    destruct Hc as [-> | [-> | [-> | ->]]]; reflexivity. }
  cbn [Z.eqb Pos.eqb negb].
  cbn [secoap.Token secoap.Opts secoap.Code secoap.Payload secoap.MessageID
       secoap.Type_].
  destruct (Z.ltb_spec 8 (slen (secoap.Token m))); [lia|].
  assert (at_ (legacy_frame m W) 1 = byte (secoap.Code m)) as -> by reflexivity.
  assert (upto 2 (from 2 (legacy_frame m W)) =
          BigEndian_bytes16 (uint16 (secoap.MessageID m))) as -> by reflexivity.
  assert (from 4 (legacy_frame m W) =
          sbytes (secoap.Token m) ++ W ++ payload_wire (secoap.Payload m))
    as Hfrom4 by reflexivity.
  rewrite byte_small by lia.
  unfold uint16. rewrite (Z.mod_small (secoap.MessageID m)) by lia.
  rewrite BigEndian_roundtrip by lia.
  destruct (Z.ltb_spec (4 + slen (secoap.Token m) + len W +
                        len (payload_wire (secoap.Payload m)))
                       (4 + slen (secoap.Token m))); [lia|].
  assert (from (4 + slen (secoap.Token m)) (legacy_frame m W) =
          W ++ payload_wire (secoap.Payload m)) as ->.
  { unfold legacy_frame.
    rewrite (app_assoc [_; _]), (app_assoc ([_; _] ++ _)).
    apply from_exact. rewrite !len_app, slen_sbytes.
    change (len [_; _]) with 2. change (len (BigEndian_bytes16 _)) with 2. lia. }
  assert (from 1 (payload_wire (secoap.Payload m)) = sbytes (secoap.Payload m))
    as Hpay.
  { destruct (payload_wire_cases (secoap.Payload m)) as [(Hpw & _) | (Hpw & _)].
    - rewrite Hpw. symmetry. apply len_0_nil. rewrite slen_sbytes.
      unfold payload_wire in Hpw.
      destruct (Z.ltb_spec 0 (slen (secoap.Payload m))); [discriminate|].
      pose proof (slen_nonneg (secoap.Payload m)). lia.
    - rewrite Hpw. reflexivity. }
  destruct (Z.ltb_spec 0 (slen (secoap.Token m))) as [Hpos | Hzero];
    cbn [secoap.Token secoap.Opts secoap.Code secoap.Payload secoap.MessageID
         secoap.Type_].
  - rewrite Hparse, Hpay.
    cbn [secoap.Token secoap.Opts secoap.Code secoap.Payload secoap.MessageID
         secoap.Type_].
    rewrite Hfrom4, (upto_exact _ _ _ (slen_sbytes (secoap.Token m))).
    f_equal. f_equal. f_equal.
    unfold copy. rewrite repeat_length.
    pose proof (slen_sbytes (secoap.Token m)) as Hl. unfold len in Hl.
    rewrite firstn_all2 by lia.
    rewrite skipn_all2 by (rewrite repeat_length; lia).
    apply app_nil_r.
  - assert (slen (secoap.Token m) = 0) as Hz by lia.
    assert (forall t : option (list Z),
              secoap.Opts
                match t with
                | Some t' =>
                    secoap.mkMessage
                      (Some (copy t' (upto (slen (secoap.Token m))
                                           (from 4 (legacy_frame m W)))))
                      (secoap.Opts dst) (secoap.Code m) (secoap.Payload dst)
                      (secoap.MessageID m) (secoap.Type_ m)
                | None =>
                    secoap.mkMessage t (secoap.Opts dst) (secoap.Code m)
                      (secoap.Payload dst) (secoap.MessageID m) (secoap.Type_ m)
                end = secoap.Opts dst) as HO by (intros [t'|]; reflexivity).
    rewrite HO, Hparse, Hpay.
    destruct (secoap.Token dst) as [t|];
      cbn [secoap.Token secoap.Opts secoap.Code secoap.Payload secoap.MessageID
           secoap.Type_]; [|reflexivity].
    rewrite Hz. change (upto 0 _) with (@nil Z).
    unfold copy. cbn [length firstn skipn]. destruct t; reflexivity.
Qed.

(** X14.  The legacy MarshalBinary and UnmarshalBinary: for a message
    with a token of at most 8 bytes, type 0..3, code 0..255, message id
    0..65535 and options that are registered, typed as the registry says
    and within its length bounds, [MarshalBinary] sorts the options of the
    message by ID and returns the frame with no error, and
    [UnmarshalBinary] of that frame returns no error and stores type, code
    and message id, the token (an empty token leaves the one of the
    destination), the payload (empty when there is none) and the sorted
    options, appended to the options the destination already held. *)
Theorem legacy_UnmarshalBinary_inverts_MarshalBinary (m dst : secoap.Message) :
  slen (secoap.Token m) <= 8 ->
  0 <= secoap.Type_ m <= 3 ->
  0 <= secoap.Code m <= 255 ->
  0 <= secoap.MessageID m <= 65535 ->
  Forall legacy_canonical (secoap.Opts m) ->
  exists data,
    secoap.MarshalBinary m =
      Done (secoap.mkMessage (secoap.Token m) (sort_Stable (secoap.Opts m))
              (secoap.Code m) (secoap.Payload m) (secoap.MessageID m)
              (secoap.Type_ m),
            (data, None)) /\
    secoap.UnmarshalBinary dst data =
      (secoap.mkMessage
         (if 0 <? slen (secoap.Token m) then Some (sbytes (secoap.Token m))
          else secoap.Token dst)
         (secoap.Opts dst ++ sort_Stable (secoap.Opts m)) (secoap.Code m)
         (Some (sbytes (secoap.Payload m))) (secoap.MessageID m)
         (secoap.Type_ m),
       None).
Proof.
  intros Htok Htyp Hcode Hmid Hcan.
  destruct (options_wire_defined _
              (sort_Stable_Forall _ _ (legacy_canonical_marshalable _ Hcan)) 0)
    as (W & HW).
  exists (legacy_frame m W). split.
  - apply legacy_MarshalBinary_frame. exact HW.
  - apply legacy_UnmarshalBinary_frame; try assumption.
    apply (parseOptions_wire (sort_Stable (secoap.Opts m)) 0 W
             (payload_wire (secoap.Payload m)) (secoap.Opts dst) _ HW
             (sort_Stable_Forall _ _ Hcan)
             (sort_Stable_nondecreasing _ 0 (legacy_canonical_ID_positive _ Hcan))
             ltac:(lia) (payload_wire_tail _)).
    apply Nat.le_refl.
Qed.

Lemma legacy_UnmarshalBinary_inverts_MarshalBinary_witness :
  exists data,
    secoap.MarshalBinary legacySample =
      Done (secoap.mkMessage (Some [7])
              [mkOption Observe (VUint32 5); mkOption URIPath (VString [97]);
               mkOption URIPath (VString [98]);
               mkOption ContentFormat (VMediaType 50)]
              GET (Some [104; 105]) 4660 NonConfirmable,
            (data, None)) /\
    secoap.UnmarshalBinary secoap.zeroMessage data =
      (secoap.mkMessage (Some [7])
         [mkOption Observe (VUint32 5); mkOption URIPath (VString [97]);
          mkOption URIPath (VString [98]);
          mkOption ContentFormat (VMediaType 50)]
         GET (Some [104; 105]) 4660 NonConfirmable,
       None).
Proof.
  apply (legacy_UnmarshalBinary_inverts_MarshalBinary legacySample
           secoap.zeroMessage).
  - vm_compute. discriminate.
  - unfold legacySample, NonConfirmable. cbn. lia.
  - unfold legacySample, GET. cbn. lia.
  - unfold legacySample. cbn. lia.
  - unfold legacySample. repeat constructor; vm_compute; intuition discriminate.
Defined.

(** ** Options the legacy decoder cannot use *)

Lemma parseOptions_raw (raws : list (Z * list Z)) :
  forall (prev : Z) (W tail : list Z) (acc : list Option) (fuel : nat),
    options_wire prev (map raw_option raws) = Done W ->
    encodable_from prev raws ->
    0 <= prev ->
    tail = [] \/ (exists p, tail = 255 :: p) ->
    (length (W ++ tail) <= fuel)%nat ->
    secoap.parseOptions fuel acc (W ++ tail) prev =
      (acc ++ kept_by_legacy raws, (from 1 tail, None)).
Proof.
  induction raws as [|[id v] raws IH];
    intros prev W tail acc fuel HW Henc Hprev Htail Hfuel.
  - cbn in HW. injection HW as <-. cbn [app kept_by_legacy flat_map] in *.
    rewrite app_nil_r.
    destruct Htail as [-> | (p & ->)].
    + destruct fuel; reflexivity.
    + destruct fuel as [|fuel]; [cbn in Hfuel; lia|]. reflexivity.
  - cbn [map options_wire raw_option fst snd ToBytes Value bind ID] in HW.
    destruct (options_wire id (map raw_option raws)) as [w|] eqn:Hw;
      [|discriminate HW].
    cbn [bind] in HW. injection HW as <-.
    cbn [encodable_from fst snd] in Henc. destruct Henc as (Hgap & Hid & Hlen & Henc).
    pose proof (len_nonneg v) as Hvn.
    unfold option_wire, header_wire in *. cbn [ID raw_option fst snd] in *.
    pose proof (extendOpt_nibble (id - prev) ltac:(lia)) as Hd.
    pose proof (extendOpt_nibble (len v) Hvn) as Hl.
    pose proof (legacy_parseExtOpt_wire (id - prev)) as Hpd.
    pose proof (legacy_parseExtOpt_wire (len v)) as Hpl.
    destruct (extendOpt (id - prev)) as [d dx].
    destruct (extendOpt (len v)) as [l lx].
    cbn [fst snd] in *.
    destruct (header_byte_nibbles d l Hd Hl) as (Hff & Hhi & Hlo).
    set (b0 := Z.lor (byte (Z.shiftl d 4)) (byte l)) in *.
    rewrite <- !app_assoc in *. cbn [app] in *.
    destruct fuel as [|fuel]; [cbn in Hfuel; lia|].
    cbn [secoap.parseOptions].
    destruct (Z.eqb_spec b0 255); [contradiction|].
    rewrite Hhi, Hlo. unfold ExtendOptionError.
    destruct (Z.eqb_spec d 15); [lia|]. destruct (Z.eqb_spec l 15); [lia|].
    cbn [orb]. rewrite from_1_cons.
    rewrite (Hpd (ext_wire l lx ++ v ++ w ++ tail)) by lia.
    rewrite (Hpl (v ++ w ++ tail)) by lia.
    assert ((len (v ++ w ++ tail) <? len v) = false) as ->.
    { apply Z.ltb_ge. rewrite len_app. pose proof (len_nonneg (w ++ tail)). lia. }
    assert (uint32 (prev + (id - prev)) = id) as ->.
    { unfold uint32. rewrite Z.mod_small by lia. lia. }
    rewrite upto_app, from_app.
    assert ((length (w ++ tail) <= fuel)%nat) as Hfuel'.
    { cbn [length] in Hfuel. rewrite !length_app in Hfuel. rewrite length_app. lia. }
    cbn [kept_by_legacy flat_map fst snd]. fold (kept_by_legacy raws).
    destruct (parseOptionValue id v) as [x|].
    + rewrite (IH id w tail (acc ++ [mkOption id x]) fuel Hw Henc ltac:(lia) Htail Hfuel').
      rewrite <- app_assoc. reflexivity.
    + rewrite (IH id w tail acc fuel Hw Henc ltac:(lia) Htail Hfuel'). reflexivity.
Qed.

Lemma raw_options_wire (raws : list (Z * list Z)) (prev : Z) :
  exists W, options_wire prev (map raw_option raws) = Done W.
Proof.
  apply options_wire_defined. apply Forall_forall. intros o Ho.
  apply in_map_iff in Ho as (r & <- & _). exists (snd r). reflexivity.
Qed.

(** X15.  The legacy decoder never fails a frame because of an option it
    cannot use.  For a frame with a token of at most 8 bytes, type 0..3
    and any options in nondecreasing order, [UnmarshalBinary] returns no
    error and keeps, in their order, exactly the options that
    [parseOptionValue] accepts; it drops an option exactly when its number
    is not in the registry or the length of its value is outside the
    registered bounds, and goes on with the next one. *)
Theorem legacy_UnmarshalBinary_skips_options (m dst : secoap.Message)
  (raws : list (Z * list Z)) :
  slen (secoap.Token m) <= 8 ->
  0 <= secoap.Type_ m <= 3 ->
  0 <= secoap.Code m <= 255 ->
  0 <= secoap.MessageID m <= 65535 ->
  encodable_from 0 raws ->
  (exists W,
     options_wire 0 (map raw_option raws) = Done W /\
     secoap.UnmarshalBinary dst (legacy_frame m W) =
       (secoap.mkMessage
          (if 0 <? slen (secoap.Token m) then Some (sbytes (secoap.Token m))
           else secoap.Token dst)
          (secoap.Opts dst ++ kept_by_legacy raws) (secoap.Code m)
          (Some (sbytes (secoap.Payload m))) (secoap.MessageID m)
          (secoap.Type_ m),
        None)) /\
  (forall id v,
     parseOptionValue id v = None <->
     match lookup CoapOptionDefs id with
     | None => True
     | Some def => len v < MinLen def \/ MaxLen def < len v
     end).
Proof.
  intros Htok Htyp Hcode Hmid Henc. split.
  - destruct (raw_options_wire raws 0) as (W & HW). exists W.
    split; [exact HW|].
    apply legacy_UnmarshalBinary_frame; try assumption.
    apply (parseOptions_raw raws 0 W (payload_wire (secoap.Payload m))
             (secoap.Opts dst) _ HW Henc ltac:(lia) (payload_wire_tail _)).
    apply Nat.le_refl.
  - intros id v. destruct (lookup CoapOptionDefs id) as [def|] eqn:Hdef.
    + pose proof (CoapOptionDefs_format_known id def Hdef) as Hfmt.
      unfold parseOptionValue, index. rewrite Hdef.
      destruct (Z.ltb_spec (len v) (MinLen def)), (Z.ltb_spec (MaxLen def) (len v));
        cbn [orb];
        destruct (Format def); try contradiction;
        try (split; [intros _; lia | reflexivity]);
        try (destruct ((id =? ContentFormat) || (id =? Accept)));
        split; intros H'; try discriminate H'; lia.
    + rewrite (parseOptionValue_unlisted id v Hdef). tauto.
Qed.

Lemma legacy_UnmarshalBinary_skips_options_witness :
  exists W,
    options_wire 0 (map raw_option rawSample) = Done W /\
    secoap.UnmarshalBinary secoap.zeroMessage
      (legacy_frame (secoap.mkMessage None [] GET None 4660 Confirmable) W) =
      (secoap.mkMessage None [mkOption URIPath (VString [97])] GET (Some [])
         4660 Confirmable,
       None).
Proof.
  destruct (legacy_UnmarshalBinary_skips_options
              (secoap.mkMessage None [] GET None 4660 Confirmable)
              secoap.zeroMessage rawSample) as (H & _).
  - vm_compute. discriminate.
  - unfold Confirmable. cbn. lia.
  - unfold GET. cbn. lia.
  - cbn. lia.
  - unfold rawSample, ETag, URIPath. cbn. unfold len. cbn. lia.
  - exact H.
Defined.

(** ** Reading and adding options of a legacy message *)

Lemma first_value_filter (o : Z) (opts : list Option) :
  secoap.first_value o opts =
    hd_error (map Value (filter (fun v => o =? ID v) opts)).
Proof.
  induction opts as [|v opts IH]; cbn [secoap.first_value filter]; [reflexivity|].
  destruct (o =? ID v); [reflexivity | exact IH].
Qed.

Lemma optionStrings_of_app (a b : list OptionValue) :
  secoap.optionStrings_of (a ++ b) =
    (x <- secoap.optionStrings_of a ;;
     y <- secoap.optionStrings_of b ;; Done (x ++ y)).
Proof.
  induction a as [|v a IH]; cbn [app secoap.optionStrings_of bind].
  - destruct (secoap.optionStrings_of b); reflexivity.
  - destruct v; try reflexivity. rewrite IH.
    destruct (secoap.optionStrings_of a); [|reflexivity]. cbn [bind].
    destruct (secoap.optionStrings_of b); reflexivity.
Qed.

Lemma optionStrings_of_strings (l : list (list Z)) :
  secoap.optionStrings_of (map VString l) = Done l.
Proof.
  induction l as [|s l IH]; cbn [map secoap.optionStrings_of]; [reflexivity|].
  rewrite IH. reflexivity.
Qed.

Lemma optionStrings_of_elements (plain : bool) (l : list (list Z)) :
  secoap.optionStrings_of (map (secoap.element plain) l) =
    if plain then Done l
    else match l with [] => Done [] | _ :: _ => Panics end.
Proof.
  destruct plain; cbn [secoap.element].
  - apply optionStrings_of_strings.
  - destruct l; reflexivity.
Qed.

(** X16.  Options, Option, Path and AddOption of the legacy Message:
    [Option] is the first of the values [Options] returns (nil when there
    is none); [AddOption] only appends to the options, after those the
    message has: one option per element, in order, for a slice or array
    whose element kind is string ([]string, [N]string, named types), and
    one option for a value of any other type; so [Options] of another ID is
    unchanged.  [Path] after adding strings under URIPath returns the
    earlier segments followed by the new ones; after adding elements of a
    named string type it panics, on the type assertion. *)
Theorem legacy_AddOption_appends (m : secoap.Message) (id o : Z)
  (val : OptionValue) :
  let added :=
    match val with
    | VStrings l => map VString l
    | VStringSeq plain l => map (secoap.element plain) l
    | _ => [val]
    end in
  secoap.Option_ m o = hd_error (secoap.Options m o) /\
  secoap.Opts (secoap.AddOption m id val) =
    secoap.Opts m ++ map (mkOption id) added /\
  secoap.Options (secoap.AddOption m id val) o =
    secoap.Options m o ++ (if o =? id then added else []) /\
  (secoap.Token (secoap.AddOption m id val),
   secoap.Code (secoap.AddOption m id val),
   secoap.Payload (secoap.AddOption m id val),
   secoap.MessageID (secoap.AddOption m id val),
   secoap.Type_ (secoap.AddOption m id val)) =
    (secoap.Token m, secoap.Code m, secoap.Payload m, secoap.MessageID m,
     secoap.Type_ m) /\
  (forall l p,
     val = VStrings l \/ val = VStringSeq true l ->
     id = URIPath -> secoap.Path m = Done p ->
     secoap.Path (secoap.AddOption m id val) = Done (p ++ l)) /\
  (forall s l p,
     val = VStringSeq false (s :: l) ->
     id = URIPath -> secoap.Path m = Done p ->
     secoap.Path (secoap.AddOption m id val) = Panics).
Proof.
  cbv zeta. split; [apply first_value_filter|].
  assert (secoap.Opts (secoap.AddOption m id val) =
          secoap.Opts m ++
          map (mkOption id)
            match val with
            | VStrings l => map VString l
            | VStringSeq plain l => map (secoap.element plain) l
            | _ => [val]
            end) as Hopts.
  { destruct val; cbn [secoap.AddOption secoap.Opts map]; try reflexivity;
      rewrite map_map; reflexivity. }
  split; [exact Hopts|].
  assert (forall (k : Z) (vals : list OptionValue),
            map Value (filter (fun v => k =? ID v) (map (mkOption id) vals)) =
            if k =? id then vals else []) as Hfilter.
  { intros k vals. induction vals as [|x vals IH]; cbn [map filter ID].
    - destruct (k =? id); reflexivity.
    - destruct (k =? id); cbn [map Value]; [f_equal|]; exact IH. }
  split.
  { unfold secoap.Options. rewrite Hopts, filter_app, map_app, Hfilter.
    reflexivity. }
  split; [destruct val; reflexivity|].
  split.
  - intros l p Hval -> Hp.
    unfold secoap.Path, secoap.optionStrings, secoap.Options in *.
    rewrite Hopts, filter_app, map_app, Hfilter, Z.eqb_refl.
    rewrite optionStrings_of_app, Hp. cbn [bind].
    destruct Hval as [-> | ->].
    + rewrite optionStrings_of_strings. reflexivity.
    + rewrite (optionStrings_of_elements true). reflexivity.
  - intros s l p -> -> Hp.
    unfold secoap.Path, secoap.optionStrings, secoap.Options in *.
    rewrite Hopts, filter_app, map_app, Hfilter, Z.eqb_refl.
    rewrite optionStrings_of_app, Hp. cbn [bind].
    rewrite (optionStrings_of_elements false). reflexivity.
Qed.

Lemma parseOptions_parsed_values (fuel : nat) :
  forall (acc : list Option) (b : list Z) (prev : Z),
    Forall parsed_value acc ->
    Forall parsed_value (fst (secoap.parseOptions fuel acc b prev)).
Proof.
  induction fuel as [|fuel IH]; intros acc b prev Hacc; [exact Hacc|].
  cbn [secoap.parseOptions]. destruct b as [|b0 tl]; [exact Hacc|].
  destruct (b0 =? 255); [exact Hacc|].
  destruct (_ || _); [exact Hacc|].
  destruct (secoap.parseExtOpt (from 1 (b0 :: tl)) (Z.shiftr b0 4))
    as [b1 [delta [e|]]]; [exact Hacc|].
  destruct (secoap.parseExtOpt b1 (Z.land b0 15)) as [b2 [length [e|]]];
    [exact Hacc|].
  destruct (len b2 <? length); [exact Hacc|].
  destruct (parseOptionValue _ _) as [v|] eqn:Hv; apply IH; [|exact Hacc].
  apply Forall_app. split; [exact Hacc|].
  constructor; [|constructor]. eexists. exact Hv.
Qed.

Lemma legacy_UnmarshalBinary_parsed_values (dst : secoap.Message) (data : list Z) :
  Forall parsed_value (secoap.Opts dst) ->
  Forall parsed_value (secoap.Opts (fst (secoap.UnmarshalBinary dst data))).
Proof.
  intros Hdst. unfold secoap.UnmarshalBinary.
  destruct (len data <? 4); [exact Hdst|].
  destruct (negb _); [exact Hdst|].
  cbn [secoap.Token secoap.Opts secoap.Code secoap.Payload secoap.MessageID
       secoap.Type_].
  destruct (8 <? _); [exact Hdst|].
  set (tokenLen := Z.land (at_ data 0) 15).
  assert (forall t : secoap.Message,
            secoap.Opts t = secoap.Opts dst ->
            Forall parsed_value
              (secoap.Opts
                 (fst (let '(opts, (b, err)) :=
                         secoap.parseOptions
                           (length (from (4 + tokenLen) data)) (secoap.Opts t)
                           (from (4 + tokenLen) data) 0 in
                       match err with
                       | Some e =>
                           (secoap.mkMessage (secoap.Token t) opts (secoap.Code t)
                              (secoap.Payload t) (secoap.MessageID t)
                              (secoap.Type_ t), Some e)
                       | None =>
                           (secoap.mkMessage (secoap.Token t) opts (secoap.Code t)
                              (Some b) (secoap.MessageID t) (secoap.Type_ t), None)
                       end)))) as Hloop.
  { intros t Ht.
    pose proof (parseOptions_parsed_values (length (from (4 + tokenLen) data))
                  (secoap.Opts t) (from (4 + tokenLen) data) 0
                  ltac:(rewrite Ht; exact Hdst)) as H.
    destruct (secoap.parseOptions _ _ _ _) as [opts [b [e|]]]; exact H. }
  destruct (0 <? tokenLen);
    cbn [secoap.Token secoap.Opts secoap.Code secoap.Payload secoap.MessageID
         secoap.Type_];
    (destruct (len data <? 4 + tokenLen); [exact Hdst|]).
  - apply (Hloop (secoap.mkMessage _ _ _ _ _ _)). reflexivity.
  - destruct (secoap.Token dst);
      apply (Hloop (secoap.mkMessage _ _ _ _ _ _)); reflexivity.
Qed.

Lemma parsed_URIPath (o : Option) :
  parsed_value o -> ID o = URIPath ->
  exists s, Value o = VString s /\ len s <= 255.
Proof.
  intros (b & Hb) Hid. rewrite Hid in Hb.
  unfold parseOptionValue, index in Hb. cbn in Hb.
  destruct (Z.ltb_spec (len b) 0); [discriminate|].
  destruct (Z.ltb_spec 255 (len b)); [discriminate|]. cbn in Hb.
  injection Hb as <-. exists b. split; [reflexivity | assumption].
Qed.

(** X17.  Path after the legacy UnmarshalBinary: whatever the input, and
    whether or not the call fails, [Path] on the message does not panic on
    the type assertion, provided the options the message held before were
    parsed ones (none, for a fresh message): every URIPath option the
    decoder stores holds a string, of at most 255 bytes. *)
Theorem legacy_Path_after_UnmarshalBinary (dst : secoap.Message)
  (data : list Z) :
  Forall parsed_value (secoap.Opts dst) ->
  exists p,
    secoap.Path (fst (secoap.UnmarshalBinary dst data)) = Done p /\
    Forall (fun s => len s <= 255) p.
Proof.
  intros Hdst.
  pose proof (legacy_UnmarshalBinary_parsed_values dst data Hdst) as H.
  unfold secoap.Path, secoap.optionStrings, secoap.Options.
  induction H as [|o opts Ho _ IH]; cbn [filter map].
  - exists []. split; [reflexivity | constructor].
  - destruct IH as (p & Hp & Hlen).
    destruct (Z.eqb_spec URIPath (ID o)) as [Hid | _]; [|exists p; auto].
    destruct (parsed_URIPath o Ho (eq_sym Hid)) as (s & Hs & Hl).
    cbn [map secoap.optionStrings_of]. rewrite Hs, Hp. cbn [bind].
    exists (s :: p). split; [reflexivity | constructor; assumption].
Qed.

Lemma legacy_Path_after_UnmarshalBinary_witness :
  exists p,
    secoap.Path (fst (secoap.UnmarshalBinary secoap.zeroMessage
                        [64; 1; 18; 52; 177; 97; 1; 98])) = Done p /\
    Forall (fun s => len s <= 255) p.
Proof.
  apply (legacy_Path_after_UnmarshalBinary secoap.zeroMessage
           [64; 1; 18; 52; 177; 97; 1; 98]).
  constructor.
Defined.

(** ** What the RSUM8 check of version 2 detects *)

Lemma complement_sum_change (pre post : list Z) (b b' : Z) :
  complement_sum (pre ++ b' :: post) =
  complement_sum (pre ++ b :: post) + (b - b').
Proof.
  rewrite !complement_sum_app. cbn [complement_sum]. unfold Z.lnot. lia.
Qed.

(** X18.  The RSUM8 check of coderv2 [Decode]: a frame of at least 8
    bytes that differs in exactly one byte from a frame whose RSUM8 is 0 is
    rejected with [ErrMessageInvalidRSUM8], by both copies of the decoder
    and before anything is stored in the message. *)
Theorem coderv2_Decode_rejects_a_changed_byte (pre post : list Z) (b b' : Z)
  (m : Message) :
  RSUM8 (pre ++ b :: post) = 0 ->
  is_byte b -> is_byte b' -> b <> b' ->
  8 <= len (pre ++ b' :: post) ->
  RSUM8 (pre ++ b' :: post) <> 0 /\
  coderv2.Decode (pre ++ b' :: post) m = (m, (-1, Some ErrMessageInvalidRSUM8)) /\
  coderv2_pbuf.Decode (pre ++ b' :: post) m =
    (m, (-1, Some ErrMessageInvalidRSUM8)).
Proof.
  unfold is_byte. intros Hsum Hb Hb' Hne Hlen.
  assert (RSUM8 (pre ++ b' :: post) <> 0) as Hbad.
  { rewrite RSUM8_complement_sum in *.
    rewrite (complement_sum_change pre post b b').
    unfold byte in *.
    rewrite Z.add_mod, Hsum, Z.add_0_l, Z.mod_mod by lia.
    destruct (Z.lt_ge_cases b b') as [Hlt | Hge].
    - intros E. apply Z.mod_divide in E; [|lia].
      destruct E as (k & Hk). assert (k = 0 \/ k <= -1 \/ 1 <= k) as [-> | [H | H]] by lia; nia.
    - rewrite Z.mod_small by lia. lia. }
  split; [exact Hbad|].
  unfold coderv2.Decode, coderv2_pbuf.Decode, v2_parse.
  destruct (Z.ltb_spec (len (pre ++ b' :: post)) 8); [lia|].
  destruct (Z.eqb_spec (RSUM8 (pre ++ b' :: post)) 0); [contradiction|].
  cbn [negb]. split; reflexivity.
Qed.

Lemma coderv2_Decode_rejects_a_changed_byte_witness :
  coderv2_pbuf.Decode [129; 80; 94; 238; 0; 1; 2; 5; 255; 104; 104] sampleCore =
    (sampleCore, (-1, Some ErrMessageInvalidRSUM8)).
Proof.
  apply (coderv2_Decode_rejects_a_changed_byte
           [129; 80; 94; 238; 0; 1; 2; 5; 255; 104] [] 105 104 sampleCore);
    try (unfold is_byte; lia); vm_compute; (reflexivity || discriminate).
Defined.

(** ** The version-2 round trip *)

Lemma v2_header_fields (t k : Z) :
  0 <= t < 4 -> 0 <= k < 9 ->
  let b0 := Z.lor (Z.lor (Z.shiftl 2 6) (byte (Z.shiftl (byte (Z.land 15 k)) 2)))
                  (byte t) in
  Z.land b0 3 = t /\ Z.land (Z.shiftr b0 2) 15 = k.
Proof.
  intros Ht Hk.
  pose proof (forallb_range2
    (fun t k =>
       let b0 := Z.lor (Z.lor (Z.shiftl 2 6) (byte (Z.shiftl (byte (Z.land 15 k)) 2)))
                       (byte t) in
       (Z.land b0 3 =? t) && (Z.land (Z.shiftr b0 2) 15 =? k))
    4 9 ltac:(vm_compute; reflexivity) t k Ht Hk) as H.
  cbv beta zeta in H. andb_eqs. cbv zeta. split; assumption.
Qed.

Lemma v2_encoder_fields (eid etp : Z) :
  0 <= eid < 16 -> 0 <= etp < 16 ->
  let b1 := Z.lor (byte (Z.shiftl eid 4)) (byte etp) in
  Z.shiftr b1 4 = eid /\ Z.land b1 15 = etp.
Proof.
  intros He Ht.
  pose proof (forallb_range2
    (fun eid etp =>
       let b1 := Z.lor (byte (Z.shiftl eid 4)) (byte etp) in
       (Z.shiftr b1 4 =? eid) && (Z.land b1 15 =? etp))
    16 16 ltac:(vm_compute; reflexivity) eid etp He Ht) as H.
  cbv beta zeta in H. andb_eqs. cbv zeta. split; assumption.
Qed.

Lemma v2_parse_frame (m dst : Message) (W : list Z) :
  slen (Token m) <= 8 ->
  ValidateMID (MessageID m) = true ->
  0 <= Type_ m <= 3 ->
  0 <= Code m <= 255 ->
  ValidateEID (EncoderID m) = true ->
  ValidateETP (EncoderType m) = true ->
  options_wire 0 (sort_Stable (items (Opts m))) = Done W ->
  Forall canonical (items (Opts m)) ->
  items (Opts dst) = [] ->
  len (items (Opts m)) <= capacity (Opts dst) ->
  v2_parse (v2_frame m W) dst =
    (set_Opts dst (mkOptions (sort_Stable (items (Opts m))) (capacity (Opts dst))),
     inr (mkParsed (Type_ m) (nil_if_empty (Token m)) (EncoderID m) (EncoderType m)
            (CRC16Bytes (sbytes (Payload m))) (MessageID m) (Code m)
            (nil_if_empty (Payload m)))).
Proof.
  intros Htok Hmid Htyp Hcode Heid Hetp HW Hcan Hempty Hcap.
  apply ValidateMID_spec in Hmid. apply ValidateEID_spec in Heid.
  apply ValidateETP_spec in Hetp.
  pose proof (slen_nonneg (Token m)) as Htn.
  pose proof (len_nonneg W) as HWn.
  pose proof (len_nonneg (payload_wire (Payload m))) as Hpn.
  pose proof (CRC16Bytes_range (sbytes (Payload m))) as Hcrc.
  unfold v2_parse. rewrite v2_frame_len, v2_frame0_len, v2_frame_RSUM8.
  destruct (Z.ltb_spec (8 + slen (Token m) + len W + len (payload_wire (Payload m))) 8);
    [lia|].
  cbn [Z.eqb negb].
  assert (at_ (v2_frame m W) 0 =
          Z.lor (Z.lor (Z.shiftl 2 6)
                       (byte (Z.shiftl (byte (Z.land 15 (slen (Token m)))) 2)))
                (byte (Type_ m))) as -> by reflexivity.
  assert (at_ (v2_frame m W) 1 =
          Z.lor (byte (Z.shiftl (EncoderID m) 4)) (byte (EncoderType m)))
    as -> by reflexivity.
  assert (upto 2 (from 2 (v2_frame m W)) =
          BigEndian_bytes16 (CRC16Bytes (sbytes (Payload m)))) as -> by reflexivity.
  assert (upto 2 (from 4 (v2_frame m W)) = BigEndian_bytes16 (uint16 (MessageID m)))
    as -> by reflexivity.
  assert (at_ (v2_frame m W) 6 = byte (Code m)) as -> by reflexivity.
  assert (from 8 (v2_frame m W) = sbytes (Token m) ++ W ++ payload_wire (Payload m))
    as -> by reflexivity.
  rewrite (v2_header_bits (Type_ m) (slen (Token m))) by lia.
  destruct (v2_header_fields (Type_ m) (slen (Token m)) ltac:(lia) ltac:(lia))
    as (Hty & Hk).
  destruct (v2_encoder_fields (EncoderID m) (EncoderType m) ltac:(lia) ltac:(lia))
    as (He & Ht).
  cbv zeta in Hty, Hk, He, Ht. rewrite Hty, Hk, He, Ht.
  cbn [Z.eqb Pos.eqb negb].
  destruct (Z.ltb_spec 8 (slen (Token m))); [lia|].
  rewrite byte_small by lia.
  unfold uint16. rewrite (Z.mod_small (MessageID m)) by (unfold MaxUint16 in *; lia).
  rewrite !BigEndian_roundtrip by lia.
  rewrite (upto_exact _ _ _ (slen_sbytes (Token m))).
  rewrite (from_exact _ _ _ (slen_sbytes (Token m))).
  rewrite len_app, slen_sbytes.
  destruct (Z.ltb_spec (slen (Token m) + len (W ++ payload_wire (Payload m)))
                       (slen (Token m)));
    [pose proof (len_nonneg (W ++ payload_wire (Payload m))); lia|].
  change (if slen (Token m) =? 0 then None else Some (sbytes (Token m)))
    with (nil_if_empty (Token m)).
  unfold Options_Unmarshal.
  destruct (Opts dst) as [ditems dcap] eqn:Hdst. cbn [items capacity] in *. subst ditems.
  assert (tail_ok : payload_wire (Payload m) = [] \/
                    (exists p, payload_wire (Payload m) = 255 :: p)).
  { destruct (payload_wire_cases (Payload m)) as [(-> & _) | (-> & _)];
      [left; reflexivity | right; eexists; reflexivity]. }
  rewrite (Options_Unmarshal_loop_wire (sort_Stable (items (Opts m))) 0 W
             (payload_wire (Payload m)) [] _ 0 dcap HW
             (sort_Stable_Forall _ _ Hcan)
             (sort_Stable_nondecreasing _ 0 (canonical_ID_positive _ Hcan))
             ltac:(lia) tail_ok).
  2:{ change (len (@nil Option)) with 0. unfold len in *.
      rewrite sort_Stable_length. lia. }
  2:{ apply Nat.le_refl. }
  cbn [app]. rewrite Z.add_0_l.
  destruct (payload_wire_cases (Payload m)) as [(Hpw & Hnil) | (Hpw & Hnil & Hpos)];
    rewrite Hpw, Hnil.
  - rewrite Z.add_0_r, app_nil_r.
    replace W with (W ++ []) at 2 by apply app_nil_r. rewrite from_app.
    change (len (@nil Z) =? 0) with true. cbv iota. reflexivity.
  - replace (len W + 1) with (len (W ++ [255])) by (rewrite len_app; reflexivity).
    change (W ++ 255 :: sbytes (Payload m)) with (W ++ [255] ++ sbytes (Payload m)).
    rewrite app_assoc, from_app.
    destruct (Z.eqb_spec (len (sbytes (Payload m))) 0); [lia|]. reflexivity.
Qed.

Lemma sbytes_nil_if_empty (p : option (list Z)) : sbytes (nil_if_empty p) = sbytes p.
Proof.
  unfold nil_if_empty. destruct (Z.eqb_spec (slen p) 0) as [E | E]; [|reflexivity].
  symmetry. apply len_0_nil. rewrite slen_sbytes. exact E.
Qed.

(** X19.  The version-2 round trip of src/unnamed/part_001.  For a message
    with a token of at most 8 bytes, a message id in 0..65535, a type in
    0..3, a code in 0..255, encoder id and type in 0..15 and canonical
    options, and a destination with an empty option list that has room:
    [Encode] into any buffer of at least [Size] bytes succeeds, the frame
    it writes has RSUM8 0, and [Decode] of that frame succeeds and returns
    version 2, the token and the payload (nil when empty), the code, the
    message id, the type, the encoder id and type, the CRC16 of the payload
    and the options sorted by ID.  The [Decode] of
    src/coder/coderv2/coder.go reads the same frame to the same message,
    the version of the destination left as it was. *)
Theorem v2_decode_inverts_encode (m dst : Message) :
  slen (Token m) <= 8 ->
  ValidateMID (MessageID m) = true ->
  0 <= Type_ m <= 3 ->
  0 <= Code m <= 255 ->
  ValidateEID (EncoderID m) = true ->
  ValidateETP (EncoderType m) = true ->
  Forall canonical (items (Opts m)) ->
  items (Opts dst) = [] ->
  len (items (Opts m)) <= capacity (Opts dst) ->
  let decoded ver :=
    mkMessage ver (nil_if_empty (Token m))
      (mkOptions (sort_Stable (items (Opts m))) (capacity (Opts dst)))
      (Code m) (nil_if_empty (Payload m)) (MessageID m) (Type_ m)
      (EncoderID m) (EncoderType m) (CRC16Bytes (sbytes (Payload m))) (Rsum8 dst) in
  exists size,
    coderv2_pbuf.Size m = Done (size, None) /\
    forall buf, size <= len buf ->
      exists out,
        coderv2_pbuf.Encode m buf = Done (out, (size, None)) /\
        RSUM8 (upto size out) = 0 /\
        coderv2_pbuf.Decode (upto size out) dst = (decoded Version2, (size, None)) /\
        coderv2.Decode (upto size out) dst = (decoded (Ver dst), (size, None)).
Proof.
  intros Htok Hmid Htyp Hcode Heid Hetp Hcan Hempty Hcap decoded.
  assert (ValidateType (Type_ m) = true) as Hvt by (apply ValidateType_spec; lia).
  destruct (options_wire_defined _
              (sort_Stable_Forall _ _ (canonical_marshalable _ Hcan)) 0) as (W & HW).
  exists (len (v2_frame0 m W)). split; [apply v2_Size_probe; assumption|].
  intros buf Hbuf. eexists. split.
  { apply v2_pbuf_Encode_fits; try assumption. apply v2_validate_passes; assumption. }
  rewrite <- v2_frame_len, upto_app.
  split; [apply v2_frame_RSUM8|].
  unfold coderv2_pbuf.Decode, coderv2.Decode.
  rewrite (v2_parse_frame m dst W) by assumption.
  cbn [p_typ p_token p_eid p_etp p_crc16 p_messageID p_code p_payload
       Crc16 Payload Opts Ver Rsum8 set_Opts].
  rewrite sbytes_nil_if_empty, Z.eqb_refl. cbn [negb].
  split; reflexivity.
Qed.

Lemma v2_decode_inverts_encode_witness :
  exists out,
    coderv2_pbuf.Encode coreFull (repeat 0 40) = Done (out, (30, None)) /\
    RSUM8 (upto 30 out) = 0 /\
    coderv2_pbuf.Decode (upto 30 out) sampleCore =
      (mkMessage Version2 (Some [1; 2; 3])
         (mkOptions [mkOption Observe (VUint32 256);
                     mkOption URIPath (VString [112]);
                     mkOption URIPath (VString [113]);
                     mkOption URIQuery (VString [122; 61; 49]);
                     mkOption GiterLabID (VString [105; 100])] 16)
         POST (Some [104; 105]) 4660 NonConfirmable 0 0 24302 0,
       (30, None)).
Proof.
  destruct (v2_decode_inverts_encode coreFull sampleCore)
    as (size & Hsize & Hrt).
  - vm_compute. discriminate.
  - reflexivity.
  - vm_compute. split; discriminate.
  - vm_compute. split; discriminate.
  - reflexivity.
  - reflexivity.
  - repeat constructor; cbn; try lia; discriminate.
  - reflexivity.
  - vm_compute. discriminate.
  - vm_compute in Hsize. injection Hsize as <-.
    destruct (Hrt (repeat 0 40)) as (out & He & Hs & Hd & _); [vm_compute; discriminate|].
    exists out. split; [exact He | split; [exact Hs | exact Hd]].
Defined.

(** ** The upserts of the wrapper *)

(** X20.  [UpsertMessageID], [UpsertType], [UpsertEncoderID] and
    [UpsertEncoderType] keep the first valid value: after an upsert with a
    valid value the stored field is valid whatever it was before, and a
    second upsert of the same field changes nothing.  The encoder fields of
    a message start at 0, which is valid, so on a message whose encoder id
    (type) is 0, as [NewMessage] leaves it, [UpsertEncoderID]
    ([UpsertEncoderType]) changes nothing and does not mark the message
    modified. *)
Theorem Upsert_keeps_the_first_valid_value (r : message.Message) (v w : Z) :
  (ValidateMID v = true ->
   ValidateMID (message.MessageID (message.UpsertMessageID r v)) = true /\
   message.UpsertMessageID (message.UpsertMessageID r v) w =
     message.UpsertMessageID r v) /\
  (ValidateType v = true ->
   ValidateType (message.Type_ (message.UpsertType r v)) = true /\
   message.UpsertType (message.UpsertType r v) w = message.UpsertType r v) /\
  (ValidateEID v = true ->
   ValidateEID (message.EncoderID (message.UpsertEncoderID r v)) = true /\
   message.UpsertEncoderID (message.UpsertEncoderID r v) w =
     message.UpsertEncoderID r v) /\
  (ValidateETP v = true ->
   ValidateETP (message.EncoderType (message.UpsertEncoderType r v)) = true /\
   message.UpsertEncoderType (message.UpsertEncoderType r v) w =
     message.UpsertEncoderType r v) /\
  (message.EncoderID r = 0 -> message.UpsertEncoderID r v = r) /\
  (message.EncoderType r = 0 -> message.UpsertEncoderType r v = r).
Proof.
  unfold message.UpsertMessageID, message.UpsertType, message.UpsertEncoderID,
    message.UpsertEncoderType, message.MessageID, message.Type_,
    message.EncoderID, message.EncoderType.
  split; [|split; [|split; [|split; [|split]]]].
  - intros Hv. destruct (ValidateMID (MessageID (message.msg r))) eqn:E.
    + rewrite E. split; reflexivity.
    + cbn. rewrite Hv. split; reflexivity.
  - intros Hv. destruct (ValidateType (Type_ (message.msg r))) eqn:E.
    + rewrite E. split; reflexivity.
    + cbn. rewrite Hv. split; reflexivity.
  - intros Hv. destruct (ValidateEID (EncoderID (message.msg r))) eqn:E.
    + rewrite E. split; reflexivity.
    + cbn. rewrite Hv. split; reflexivity.
  - intros Hv. destruct (ValidateETP (EncoderType (message.msg r))) eqn:E.
    + rewrite E. split; reflexivity.
    + cbn. rewrite Hv. split; reflexivity.
  - intros ->. reflexivity.
  - intros ->. reflexivity.
Qed.

Lemma Upsert_keeps_the_first_valid_value_witness :
  message.UpsertMessageID (message.UpsertMessageID sampleWrapper 7) 9 =
    message.UpsertMessageID sampleWrapper 7 /\
  message.MessageID (message.UpsertMessageID sampleWrapper 7) = 7 /\
  message.UpsertEncoderID sampleWrapper 7 = sampleWrapper /\
  message.UpsertEncoderType sampleWrapper 7 = sampleWrapper.
Proof.
  destruct (Upsert_keeps_the_first_valid_value sampleWrapper 7 9)
    as (Hm & _ & _ & _ & He & Ht).
  split; [apply Hm; reflexivity|].
  split; [reflexivity|].
  split; [apply He; reflexivity | apply Ht; reflexivity].
Defined.

(** ** The retry loop of the wrapper *)

Lemma Options_Unmarshal_loop_full (opts : list Option) :
  forall (prev : Z) (W tail : list Z) (acc : list Option) (fuel : nat)
         (processed cap : Z),
    options_wire prev opts = Done W ->
    Forall canonical opts ->
    nondecreasing_from prev opts ->
    0 <= prev ->
    len acc <= cap < len acc + len opts ->
    (length (W ++ tail) <= fuel)%nat ->
    Options_Unmarshal_loop fuel (mkOptions acc cap) CoapOptionDefs (W ++ tail)
                           prev processed =
      (mkOptions (acc ++ firstn (Z.to_nat (cap - len acc)) opts) cap,
       (-1, Some ErrOptionsTooSmall)).
Proof.
  induction opts as [|o opts IH];
    intros prev W tail acc fuel processed cap HW Hcan Hsorted Hprev Hcap Hfuel.
  - change (len (@nil Option)) with 0 in Hcap. lia.
  - cbn [options_wire] in HW.
    destruct (ToBytes o) as [v|] eqn:Hv; [|discriminate HW]. cbn [bind] in HW.
    destruct (options_wire (ID o) opts) as [w|] eqn:Hw; [|discriminate HW].
    cbn [bind] in HW. injection HW as <-.
    inversion Hcan as [|? ? Hco Hcan']; subst.
    destruct Hsorted as [Hle Hsorted].
    destruct (canonical_unmarshal o Hco) as (v' & Hv' & Hun & Hid & Hvlen).
    rewrite Hv in Hv'. injection Hv' as <-.
    pose proof (len_nonneg v) as Hvn.
    unfold option_wire, header_wire in *.
    pose proof (extendOpt_nibble (ID o - prev) ltac:(lia)) as Hd.
    pose proof (extendOpt_nibble (len v) Hvn) as Hl.
    pose proof (parseExtOpt_ext_wire (ID o - prev)) as Hpd.
    pose proof (parseExtOpt_ext_wire (len v)) as Hpl.
    destruct (extendOpt (ID o - prev)) as [d dx].
    destruct (extendOpt (len v)) as [l lx].
    cbn [fst snd] in *.
    destruct (header_byte_nibbles d l Hd Hl) as (Hff & Hhi & Hlo).
    set (b0 := Z.lor (byte (Z.shiftl d 4)) (byte l)) in *.
    rewrite <- !app_assoc in *. cbn [app] in *.
    destruct fuel as [|fuel]; [cbn in Hfuel; lia|].
    cbn [Options_Unmarshal_loop].
    destruct (Z.eqb_spec b0 255); [contradiction|].
    rewrite Hhi, Hlo. unfold ExtendOptionError.
    destruct (Z.eqb_spec d 15); [lia|]. destruct (Z.eqb_spec l 15); [lia|].
    cbn [orb]. rewrite from_1_cons.
    rewrite (Hpd (ext_wire l lx ++ v ++ w ++ tail)) by lia.
    rewrite from_app.
    rewrite (Hpl (v ++ w ++ tail)) by lia.
    rewrite from_app.
    assert ((len (v ++ w ++ tail) <? len v) = false) as ->.
    { apply Z.ltb_ge. rewrite len_app. pose proof (len_nonneg (w ++ tail)). lia. }
    assert (uint32 (prev + (ID o - prev)) = ID o) as ->.
    { unfold uint32. rewrite Z.mod_small by lia. lia. }
    rewrite upto_app, Hun, from_app.
    destruct (Z.eqb_spec (ID o) 0); [lia|].
    cbn [items capacity].
    rewrite len_cons in Hcap. pose proof (len_nonneg opts).
    destruct (Z.eqb_spec (len acc) cap) as [E | E].
    + rewrite E, Z.sub_diag. cbn [Z.to_nat firstn]. rewrite app_nil_r. reflexivity.
    + rewrite (IH (ID o) w tail (acc ++ [o]) fuel _ cap Hw Hcan' Hsorted ltac:(lia)).
      * rewrite <- app_assoc. cbn [app]. rewrite len_app. change (len [o]) with 1.
        replace (Z.to_nat (cap - len acc)) with (S (Z.to_nat (cap - (len acc + 1))))
          by lia.
        reflexivity.
      * rewrite len_app. change (len [o]) with 1. lia.
      * cbn [length] in Hfuel. rewrite !length_app in Hfuel. rewrite length_app. lia.
Qed.

Lemma v1_Decode_frame_too_small (m dst : Message) (W : list Z) :
  slen (Token m) <= 8 ->
  ValidateMID (MessageID m) = true ->
  0 <= Type_ m <= 3 ->
  0 <= Code m <= 255 ->
  options_wire 0 (sort_Stable (items (Opts m))) = Done W ->
  Forall canonical (items (Opts m)) ->
  items (Opts dst) = [] ->
  0 <= capacity (Opts dst) < len (items (Opts m)) ->
  coderv1.Decode (v1_frame m W) dst =
    (set_Opts dst
       (mkOptions (firstn (Z.to_nat (capacity (Opts dst)))
                          (sort_Stable (items (Opts m))))
                  (capacity (Opts dst))),
     (-1, Some ErrOptionsTooSmall)).
Proof.
  intros Htok Hmid Htyp Hcode HW Hcan Hempty Hcap.
  apply ValidateMID_spec in Hmid.
  pose proof (slen_nonneg (Token m)) as Htn.
  pose proof (len_nonneg W) as HWn.
  pose proof (len_nonneg (payload_wire (Payload m))) as Hpn.
  unfold coderv1.Decode. rewrite v1_frame_len.
  destruct (Z.ltb_spec (4 + slen (Token m) + len W + len (payload_wire (Payload m))) 4);
    [lia|].
  rewrite v1_frame_at_0.
  destruct (v1_header_bits (Type_ m) (slen (Token m)) ltac:(lia) ltac:(lia))
    as (Hv & Hty & Hk).
  rewrite Hv, Hty, Hk. rewrite (Z.mod_small (Type_ m) 4) by lia.
  assert (Z.testbit (Type_ m) 3 = false) as ->.
  { assert (Type_ m = 0 \/ Type_ m = 1 \/ Type_ m = 2 \/ Type_ m = 3) as Hc by lia.
    destruct Hc as [-> | [-> | [-> | ->]]]; reflexivity. }
  cbn [Z.eqb Pos.eqb negb].
  destruct (Z.ltb_spec 8 (slen (Token m))); [lia|].
  assert (from 4 (v1_frame m W) = sbytes (Token m) ++ W ++ payload_wire (Payload m))
    as -> by reflexivity.
  rewrite (from_exact _ _ _ (slen_sbytes (Token m))).
  rewrite len_app, slen_sbytes.
  destruct (Z.ltb_spec (slen (Token m) + len (W ++ payload_wire (Payload m)))
                       (slen (Token m)));
    [pose proof (len_nonneg (W ++ payload_wire (Payload m))); lia|].
  unfold Options_Unmarshal.
  destruct (Opts dst) as [ditems dcap] eqn:Hdst. cbn [items capacity] in *. subst ditems.
  rewrite (Options_Unmarshal_loop_full (sort_Stable (items (Opts m))) 0 W
             (payload_wire (Payload m)) [] _ 0 dcap HW
             (sort_Stable_Forall _ _ Hcan)
             (sort_Stable_nondecreasing _ 0 (canonical_ID_positive _ Hcan))
             ltac:(lia)).
  2:{ change (len (@nil Option)) with 0. unfold len in *.
      rewrite sort_Stable_length. lia. }
  2:{ apply Nat.le_refl. }
  change (len (@nil Option)) with 0. rewrite Z.sub_0_r. reflexivity.
Qed.

Lemma v1_Encode_writes_frame (m : Message) (W buf out : list Z) (size : Z) :
  ValidateMID (MessageID m) = true ->
  ValidateType (Type_ m) = true ->
  slen (Token m) <= 8 ->
  options_wire 0 (sort_Stable (items (Opts m))) = Done W ->
  coderv1.Encode m buf = Done (out, (size, None)) ->
  size = len (v1_frame m W) /\ upto size out = v1_frame m W.
Proof.
  intros Hmid Htyp Htok HW He.
  destruct (Z.lt_ge_cases (len buf) (len (v1_frame m W))) as [Hlt | Hge].
  - rewrite (v1_Encode_too_small m W buf Hmid Htyp Htok HW Hlt) in He. discriminate He.
  - rewrite (v1_Encode_fits m W buf Hmid Htyp Htok HW ltac:(lia)) in He.
    injection He as Ho Hs. subst out size. split; [reflexivity | exact (upto_app (v1_frame m W) (from (len (v1_frame m W)) buf))].
Qed.

Lemma decode_step (decoder : message.Decoder) (fuel : nat) (r : message.Message) :
  message.decode decoder (S fuel) r =
    let '(m, (n, err)) := decoder (message.bufferUnmarshal r) (message.msg r) in
    let r := message.with_msg r m (message.isModified r) in
    if message.is_ErrOptionsTooSmall err then
      message.decode decoder fuel
        (message.with_msg r
           (set_Opts (message.msg r)
              (mkOptions [] (len (items (Opts (message.msg r))) * 2)))
           (message.isModified r))
    else Some (r, (n, err)).
Proof. reflexivity. Qed.

Lemma decode_v1_grows (m : Message) (W : list Z) :
  slen (Token m) <= 8 ->
  ValidateMID (MessageID m) = true ->
  0 <= Type_ m <= 3 ->
  0 <= Code m <= 255 ->
  options_wire 0 (sort_Stable (items (Opts m))) = Done W ->
  Forall canonical (items (Opts m)) ->
  forall (gap : nat) (r : message.Message),
    message.bufferUnmarshal r = v1_frame m W ->
    items (Opts (message.msg r)) = [] ->
    1 <= capacity (Opts (message.msg r)) ->
    (Z.to_nat (len (items (Opts m)) - capacity (Opts (message.msg r))) <= gap)%nat ->
    exists k : nat,
      let cap := capacity (Opts (message.msg r)) * 2 ^ Z.of_nat k in
      (forall extra : nat,
       message.decode coderv1.Decode (S k + extra) r =
        Some (message.with_msg r
                (mkMessage Version1 (nil_if_empty (Token m))
                   (mkOptions (sort_Stable (items (Opts m))) cap)
                   (Code m) (nil_if_empty (Payload m)) (MessageID m) (Type_ m)
                   (EncoderID (message.msg r)) (EncoderType (message.msg r))
                   (Crc16 (message.msg r)) (Rsum8 (message.msg r)))
                (message.isModified r),
              (len (v1_frame m W), None))) /\
      len (items (Opts m)) <= cap /\
      (forall j, 0 <= j < Z.of_nat k ->
         capacity (Opts (message.msg r)) * 2 ^ j < len (items (Opts m))).
Proof.
  intros Htok Hmid Htyp Hcode HW Hcan.
  induction gap as [|gap IH]; intros r Hbuf Hempty Hcap Hgap.
  - exists O. cbv zeta. change (2 ^ Z.of_nat 0) with 1. rewrite Z.mul_1_r.
    split; [|split; [lia | intros j Hj; lia]].
    intros extra. cbn [Nat.add]. rewrite decode_step, Hbuf.
    rewrite (v1_Decode_frame m (message.msg r) W) by (try assumption; lia).
    reflexivity.
  - destruct (Z.le_gt_cases (len (items (Opts m))) (capacity (Opts (message.msg r))))
      as [Hfit | Hfull].
    + exists O. cbv zeta. change (2 ^ Z.of_nat 0) with 1. rewrite Z.mul_1_r.
      split; [|split; [lia | intros j Hj; lia]].
      intros extra. cbn [Nat.add]. rewrite decode_step, Hbuf.
      rewrite (v1_Decode_frame m (message.msg r) W) by assumption.
      reflexivity.
    + set (c := capacity (Opts (message.msg r))) in *.
      set (r' := message.with_msg r
                   (set_Opts (message.msg r) (mkOptions [] (c * 2)))
                   (message.isModified r)).
      destruct (IH r') as (k & Hdec & Hle & Hmin).
      * exact Hbuf.
      * reflexivity.
      * cbn. lia.
      * cbn. lia.
      * exists (S k). cbv zeta in *.
        assert (capacity (Opts (message.msg r')) = c * 2) as Hc' by reflexivity.
        rewrite Hc' in *.
        replace (c * 2 ^ Z.of_nat (S k)) with (c * 2 * 2 ^ Z.of_nat k)
          by (rewrite Nat2Z.inj_succ, Z.pow_succ_r by lia; lia).
        split; [|split].
        -- intros extra. cbn [Nat.add]. rewrite decode_step.
           rewrite Hbuf.
           rewrite (v1_Decode_frame_too_small m (message.msg r) W)
             by (try assumption; fold c; lia).
           cbv zeta. cbn [message.is_ErrOptionsTooSmall].
           cbn [message.msg message.with_msg message.isModified set_Opts Opts items].
           fold c.
           assert (len (firstn (Z.to_nat c) (sort_Stable (items (Opts m)))) = c) as ->.
           { unfold len. rewrite length_firstn, sort_Stable_length.
             unfold len in Hfull. lia. }
           exact (Hdec extra).
        -- exact Hle.
        -- intros j Hj.
           destruct (Z.eq_dec j 0) as [-> | Hj0]; [change (2 ^ 0) with 1; lia|].
           replace j with (Z.succ (j - 1)) by lia.
           rewrite Z.pow_succ_r by lia.
           specialize (Hmin (j - 1) ltac:(lia)). lia.
Qed.

Lemma decode_v1_stuck (m : Message) (W : list Z) :
  slen (Token m) <= 8 ->
  ValidateMID (MessageID m) = true ->
  0 <= Type_ m <= 3 ->
  0 <= Code m <= 255 ->
  options_wire 0 (sort_Stable (items (Opts m))) = Done W ->
  Forall canonical (items (Opts m)) ->
  items (Opts m) <> [] ->
  forall (fuel : nat) (r : message.Message),
    message.bufferUnmarshal r = v1_frame m W ->
    items (Opts (message.msg r)) = [] ->
    capacity (Opts (message.msg r)) = 0 ->
    message.decode coderv1.Decode fuel r = None.
Proof.
  intros Htok Hmid Htyp Hcode HW Hcan Hne.
  assert (0 < len (items (Opts m))) as Hpos.
  { destruct (items (Opts m)); [contradiction|]. rewrite len_cons.
    pose proof (len_nonneg l). lia. }
  induction fuel as [|fuel IH]; intros r Hbuf Hempty Hcap; [reflexivity|].
  rewrite decode_step, Hbuf.
  rewrite (v1_Decode_frame_too_small m (message.msg r) W)
    by (try assumption; rewrite Hcap; lia).
  cbv zeta. cbn [message.is_ErrOptionsTooSmall]. rewrite Hcap.
  apply IH; [exact Hbuf | reflexivity | reflexivity].
Qed.

(** X21.  The retry loop of the wrapper, with the version-1 decoder on a
    frame that the version-1 encoder wrote for a message with canonical
    options: when the option list of the wrapper is empty and has capacity
    [c >= 1], the loop ends after [k] retries with the decoded message, the
    options in a list of capacity [c * 2^k], where [k] is the least number
    of doublings after which the options fit. *)
Theorem decode_doubles_until_the_options_fit
  (m : Message) (r : message.Message) (buf out : list Z) (size : Z) :
  slen (Token m) <= 8 ->
  ValidateMID (MessageID m) = true ->
  0 <= Type_ m <= 3 ->
  0 <= Code m <= 255 ->
  Forall canonical (items (Opts m)) ->
  coderv1.Encode m buf = Done (out, (size, None)) ->
  message.bufferUnmarshal r = upto size out ->
  items (Opts (message.msg r)) = [] ->
  1 <= capacity (Opts (message.msg r)) ->
  exists k : nat,
    let cap := capacity (Opts (message.msg r)) * 2 ^ Z.of_nat k in
    (forall fuel : nat, (k < fuel)%nat ->
     message.decode coderv1.Decode fuel r =
       Some (message.with_msg r
               (mkMessage Version1 (nil_if_empty (Token m))
                  (mkOptions (sort_Stable (items (Opts m))) cap)
                  (Code m) (nil_if_empty (Payload m)) (MessageID m) (Type_ m)
                  (EncoderID (message.msg r)) (EncoderType (message.msg r))
                  (Crc16 (message.msg r)) (Rsum8 (message.msg r)))
               (message.isModified r),
             (size, None))) /\
    len (items (Opts m)) <= cap /\
    (forall j, 0 <= j < Z.of_nat k ->
       capacity (Opts (message.msg r)) * 2 ^ j < len (items (Opts m))).
Proof.
  intros Htok Hmid Htyp Hcode Hcan He Hbuf Hempty Hcap.
  assert (ValidateType (Type_ m) = true) as Hvt by (apply ValidateType_spec; lia).
  destruct (options_wire_defined _
              (sort_Stable_Forall _ _ (canonical_marshalable _ Hcan)) 0) as (W & HW).
  destruct (v1_Encode_writes_frame m W buf out size Hmid Hvt Htok HW He) as (-> & Hout).
  rewrite Hout in Hbuf.
  destruct (decode_v1_grows m W Htok Hmid Htyp Hcode HW Hcan _ r Hbuf Hempty Hcap
              (Nat.le_refl _)) as (k & Hdec & Hle & Hmin).
  exists k. cbv zeta in *. split; [|split; assumption].
  intros fuel Hfuel. replace fuel with (S k + (fuel - S k))%nat by lia. apply Hdec.
Qed.

Lemma decode_doubles_until_the_options_fit_witness :
  exists k : nat,
    message.decode coderv1.Decode (S k)
      (message.mkMessage (set_Opts sampleCore (mkOptions [] 1)) false false [] 0
         [83; 2; 18; 52; 1; 2; 3; 98; 1; 0; 81; 112; 1; 113; 67; 122; 61; 49;
          226; 252; 204; 105; 100; 255; 104; 105] []) =
      Some (message.mkMessage
              (mkMessage Version1 (Some [1; 2; 3])
                 (mkOptions [mkOption Observe (VUint32 256);
                             mkOption URIPath (VString [112]);
                             mkOption URIPath (VString [113]);
                             mkOption URIQuery (VString [122; 61; 49]);
                             mkOption GiterLabID (VString [105; 100])]
                            (1 * 2 ^ Z.of_nat k))
                 POST (Some [104; 105]) 4660 NonConfirmable 0 0 0 0)
              false false [] 0
              [83; 2; 18; 52; 1; 2; 3; 98; 1; 0; 81; 112; 1; 113; 67; 122; 61; 49;
               226; 252; 204; 105; 100; 255; 104; 105] [],
            (26, None)) /\
    5 <= 1 * 2 ^ Z.of_nat k.
Proof.
  destruct (decode_doubles_until_the_options_fit coreFull
              (message.mkMessage (set_Opts sampleCore (mkOptions [] 1)) false false [] 0
                 [83; 2; 18; 52; 1; 2; 3; 98; 1; 0; 81; 112; 1; 113; 67; 122; 61; 49;
                  226; 252; 204; 105; 100; 255; 104; 105] [])
              (repeat 0 26)
              [83; 2; 18; 52; 1; 2; 3; 98; 1; 0; 81; 112; 1; 113; 67; 122; 61; 49;
               226; 252; 204; 105; 100; 255; 104; 105] 26)
    as (k & Hdec & Hle & _).
  - vm_compute. discriminate.
  - reflexivity.
  - vm_compute. split; discriminate.
  - vm_compute. split; discriminate.
  - repeat constructor; cbn; try lia; discriminate.
  - vm_compute. reflexivity.
  - reflexivity.
  - reflexivity.
  - vm_compute. discriminate.
  - exists k. split; [exact (Hdec (S k) (Nat.lt_succ_diag_r k)) | exact Hle].
Defined.

(** X22.  The same loop when the option list of the wrapper has capacity 0
    and the frame carries at least one option: every round ends with
    [ErrOptionsTooSmall] and an empty list, the next list has capacity
    [0 * 2 = 0], and the loop never returns. *)
Theorem decode_never_returns_at_capacity_0
  (m : Message) (r : message.Message) (buf out : list Z) (size : Z) :
  slen (Token m) <= 8 ->
  ValidateMID (MessageID m) = true ->
  0 <= Type_ m <= 3 ->
  0 <= Code m <= 255 ->
  Forall canonical (items (Opts m)) ->
  items (Opts m) <> [] ->
  coderv1.Encode m buf = Done (out, (size, None)) ->
  message.bufferUnmarshal r = upto size out ->
  items (Opts (message.msg r)) = [] ->
  capacity (Opts (message.msg r)) = 0 ->
  forall fuel : nat, message.decode coderv1.Decode fuel r = None.
Proof.
  intros Htok Hmid Htyp Hcode Hcan Hne He Hbuf Hempty Hcap fuel.
  assert (ValidateType (Type_ m) = true) as Hvt by (apply ValidateType_spec; lia).
  destruct (options_wire_defined _
              (sort_Stable_Forall _ _ (canonical_marshalable _ Hcan)) 0) as (W & HW).
  destruct (v1_Encode_writes_frame m W buf out size Hmid Hvt Htok HW He) as (-> & Hout).
  rewrite Hout in Hbuf.
  exact (decode_v1_stuck m W Htok Hmid Htyp Hcode HW Hcan Hne fuel r Hbuf Hempty Hcap).
Qed.

Lemma decode_never_returns_at_capacity_0_witness :
  message.decode coderv1.Decode 1000
    (message.mkMessage (set_Opts sampleCore (mkOptions [] 0)) false false [] 0
       [83; 2; 18; 52; 1; 2; 3; 98; 1; 0; 81; 112; 1; 113; 67; 122; 61; 49;
        226; 252; 204; 105; 100; 255; 104; 105] []) = None.
Proof.
  apply (decode_never_returns_at_capacity_0 coreFull _ (repeat 0 26)
           [83; 2; 18; 52; 1; 2; 3; 98; 1; 0; 81; 112; 1; 113; 67; 122; 61; 49;
            226; 252; 204; 105; 100; 255; 104; 105] 26).
  - vm_compute. discriminate.
  - reflexivity.
  - vm_compute. split; discriminate.
  - vm_compute. split; discriminate.
  - repeat constructor; cbn; try lia; discriminate.
  - discriminate.
  - vm_compute. reflexivity.
  - reflexivity.
  - reflexivity.
  - reflexivity.
Defined.

(** ** Names and back *)

Lemma name_of_In (m : names) (k : Z) (s : string) :
  name_of m k = Some s -> In (k, s) m.
Proof.
  induction m as [|[key val] m IH]; cbn [name_of]; [discriminate|].
  destruct (Z.eqb_spec key k) as [-> | _].
  - intros H. injection H as ->. left. reflexivity.
  - intros H. right. apply IH, H.
Qed.

Lemma range_find_present (visit : names) (k : Z) (s : string) :
  NoDup (map snd visit) -> In (k, s) visit -> range_find visit s = (k, None).
Proof.
  induction visit as [|[key val] visit IH]; intros Hnd Hin; [contradiction|].
  cbn [range_find]. cbn [map snd] in Hnd. inversion Hnd as [|? ? Hnot Hnd']; subst.
  destruct (String.eqb_spec val s) as [-> | Hne].
  - destruct Hin as [E | Hin]; [injection E as ->; reflexivity|].
    contradiction Hnot. apply (in_map snd) in Hin. exact Hin.
  - destruct Hin as [E | Hin]; [injection E as _ E'; contradiction|].
    apply IH; assumption.
Qed.

Lemma range_find_absent (visit : names) (s : string) :
  (forall k v, In (k, v) visit -> v <> s) ->
  range_find visit s = (0, Some (ErrorString "not found")).
Proof.
  induction visit as [|[key val] visit IH]; intros H; [reflexivity|].
  cbn [range_find].
  destruct (String.eqb_spec val s) as [E | _].
  - contradiction (H key val (or_introl eq_refl)).
  - apply IH. intros k v Hin. apply (H k v). right. exact Hin.
Qed.

Lemma range_find_table (table visit : names) (fallback : Z -> string) (c : Z) :
  NoDup (map snd table) ->
  (forall k v, In (k, v) table -> v <> fallback c) ->
  Permutation visit table ->
  range_find visit
    (match name_of table c with None => fallback c | Some str => str end) =
  match name_of table c with
  | None => (0, Some (ErrorString "not found"))
  | Some _ => (c, None)
  end.
Proof.
  intros Hnd Hfb Hperm.
  destruct (name_of table c) as [s|] eqn:E.
  - apply range_find_present.
    + apply (Permutation_NoDup (l := map snd table)); [|exact Hnd].
      apply Permutation_map, Permutation_sym, Hperm.
    + apply (Permutation_in _ (Permutation_sym Hperm)), name_of_In, E.
  - apply range_find_absent. intros k v Hin.
    apply (Hfb k v), (Permutation_in _ Hperm), Hin.
Qed.

Ltac names_distinct :=
  repeat (constructor; [cbn; intuition discriminate|]); constructor.

Ltac not_a_name :=
  intros k v Hin; cbn in Hin;
  repeat (destruct Hin as [E | Hin];
          [injection E as _ <-; cbn; discriminate|]);
  contradiction.

(** X23.  The names of types, versions and option IDs are pairwise
    distinct and none has the form the [String] methods give to a value
    outside the table, so whatever order [range] visits the maps in:
    [ToType], [ToVer] and [ToOptionID] applied to the [String] of a value
    return the value when it is in the table, and 0 with the error
    "not found" when it is not. *)
Theorem names_convert_back (visit : names) (c : Z) :
  (Permutation visit typeToString ->
   ToType visit (Type_String c) =
     match name_of typeToString c with
     | None => (0, Some (ErrorString "not found"))
     | Some _ => (c, None)
     end) /\
  (Permutation visit verToString ->
   ToVer visit (Ver_String c) =
     match name_of verToString c with
     | None => (0, Some (ErrorString "not found"))
     | Some _ => (c, None)
     end) /\
  (Permutation visit optionIDToString ->
   ToOptionID visit (OptionID_String c) =
     match name_of optionIDToString c with
     | None => (0, Some (ErrorString "not found"))
     | Some _ => (c, None)
     end).
Proof.
  unfold ToType, Type_String, ToVer, Ver_String, ToOptionID, OptionID_String.
  split; [|split]; intros Hperm.
  - apply (range_find_table typeToString visit
             (fun c => String.append "Type(" (String.append (FormatInt10 c) ")")));
      [names_distinct | not_a_name | exact Hperm].
  - apply (range_find_table verToString visit
             (fun c => String.append "Ver(" (String.append (FormatInt10 c) ")")));
      [names_distinct | not_a_name | exact Hperm].
  - apply (range_find_table optionIDToString visit
             (fun c => String.append "Option(" (String.append (FormatInt10 c) ")")));
      [names_distinct | not_a_name | exact Hperm].
Qed.

Lemma names_convert_back_witness :
  ToType (rev typeToString) (Type_String Acknowledgement) = (Acknowledgement, None) /\
  ToType (rev typeToString) (Type_String 7) = (0, Some (ErrorString "not found")) /\
  Type_String 7 = "Type(7)"%string.
Proof.
  destruct (names_convert_back (rev typeToString) Acknowledgement) as (Ha & _).
  destruct (names_convert_back (rev typeToString) 7) as (H7 & _).
  split; [apply Ha, Permutation_sym, Permutation_rev|].
  split; [apply H7, Permutation_sym, Permutation_rev | reflexivity].
Defined.

(** ** What a successful decode guarantees *)

Lemma at_byte (l : list Z) (i : nat) : bytes_ok l -> is_byte (at_ l i).
Proof.
  intros H. unfold at_. destruct (nth_in_or_default i l 0) as [Hin | ->].
  - unfold bytes_ok in H. rewrite Forall_forall in H. apply H, Hin.
  - unfold is_byte. lia.
Qed.

Lemma bytes_ok_from (i : Z) (l : list Z) : bytes_ok l -> bytes_ok (from i l).
Proof.
  unfold bytes_ok, from. intros H.
  rewrite <- (firstn_skipn (Z.to_nat i) l) in H. apply Forall_app in H. apply H.
Qed.

Lemma bytes_ok_upto (i : Z) (l : list Z) : bytes_ok l -> bytes_ok (upto i l).
Proof.
  unfold bytes_ok, upto. intros H.
  rewrite <- (firstn_skipn (Z.to_nat i) l) in H. apply Forall_app in H. apply H.
Qed.

Lemma byte_fields (b : Z) :
  is_byte b ->
  0 <= Z.land b 3 <= 3 /\ 0 <= Z.land (Z.shiftr b 4) 3 <= 3 /\
  0 <= Z.land b 15 <= 15 /\ 0 <= Z.shiftr b 4 <= 15 /\
  0 <= Z.land (Z.shiftr b 2) 15 <= 15.
Proof.
  intros Hb.
  pose proof (forallb_range
    (fun b =>
       (0 <=? Z.land b 3) && (Z.land b 3 <=? 3) &&
       (0 <=? Z.land (Z.shiftr b 4) 3) && (Z.land (Z.shiftr b 4) 3 <=? 3) &&
       (0 <=? Z.land b 15) && (Z.land b 15 <=? 15) &&
       (0 <=? Z.shiftr b 4) && (Z.shiftr b 4 <=? 15) &&
       (0 <=? Z.land (Z.shiftr b 2) 15) && (Z.land (Z.shiftr b 2) 15 <=? 15))
    256 ltac:(vm_compute; reflexivity) b Hb) as H.
  cbv beta in H. rewrite !andb_true_iff, !Z.leb_le in H. lia.
Qed.

Lemma BigEndian_Uint16_range (l : list Z) :
  bytes_ok l -> 0 <= BigEndian_Uint16 l <= 65535.
Proof.
  intros H. unfold BigEndian_Uint16.
  pose proof (at_byte l 0 H) as H0. pose proof (at_byte l 1 H) as H1.
  unfold is_byte in *. rewrite lor_shiftl_add by lia. lia.
Qed.

Lemma upto_short (n : Z) (l : list Z) : 0 <= n -> len (upto n l) <= n.
Proof.
  intros Hn. unfold len, upto. rewrite length_firstn. lia.
Qed.

(** X24.  What a successful [Decode] guarantees, whatever bytes it was
    given: the count returned is the length of the input, the version is
    the coder's, the type is in 0..3, and the other header fields the coder
    reads are in the ranges its [Encode] accepts (version 0: encoder id and
    type; version 1: message id, token of at most 8 bytes, code in 0..255;
    version 2: all of these, and the stored CRC16 is that of the
    payload). *)
Theorem decoded_fields_are_in_range (data : list Z) (dst m' : Message) (n : Z) :
  bytes_ok data ->
  (coderv0.Decode data dst = (m', (n, None)) ->
   n = len data /\ Ver m' = Version0 /\ 0 <= Type_ m' <= 3 /\
   ValidateEID (EncoderID m') = true /\ ValidateETP (EncoderType m') = true /\
   Crc16 m' = CRC16Bytes (sbytes (Payload m'))) /\
  (coderv1.Decode data dst = (m', (n, None)) ->
   n = len data /\ Ver m' = Version1 /\ 0 <= Type_ m' <= 3 /\
   ValidateMID (MessageID m') = true /\ slen (Token m') <= 8 /\
   0 <= Code m' <= 255) /\
  (coderv2_pbuf.Decode data dst = (m', (n, None)) ->
   n = len data /\ Ver m' = Version2 /\ 0 <= Type_ m' <= 3 /\
   v2_validate m' = None /\ slen (Token m') <= 8 /\ 0 <= Code m' <= 255 /\
   Crc16 m' = CRC16Bytes (sbytes (Payload m'))) /\
  (coderv2.Decode data dst = (m', (n, None)) ->
   n = len data /\ Ver m' = Ver dst /\ 0 <= Type_ m' <= 3 /\
   v2_validate m' = None /\ slen (Token m') <= 8 /\ 0 <= Code m' <= 255 /\
   Crc16 m' = CRC16Bytes (sbytes (Payload m'))).
Proof.
  intros Hok.
  pose proof (byte_fields _ (at_byte data 0 Hok)) as (Ht0 & Ht1 & Hk1 & _ & Hk2).
  pose proof (byte_fields _ (at_byte data 1 Hok)) as (_ & _ & Hetp & Heid & _).
  pose proof (at_byte data 1 Hok) as Hc1. pose proof (at_byte data 6 Hok) as Hc6.
  pose proof (BigEndian_Uint16_range _ (bytes_ok_upto 2 _ (bytes_ok_from 2 _ Hok)))
    as Hmid2.
  pose proof (BigEndian_Uint16_range _ (bytes_ok_upto 2 _ (bytes_ok_from 4 _ Hok)))
    as Hmid4.
  unfold is_byte in *.
  assert (forall typ eid etp tok opts code pay mid crc rs ver,
            0 <= typ <= 3 -> 0 <= eid <= 15 -> 0 <= etp <= 15 -> 0 <= mid <= 65535 ->
            v2_validate (mkMessage ver tok opts code pay mid typ eid etp crc rs) = None)
    as Hval.
  { intros. unfold v2_validate. cbn [MessageID Type_ EncoderID EncoderType].
    rewrite (proj2 (ValidateMID_spec _)) by lia.
    rewrite (proj2 (ValidateType_spec _)) by lia.
    rewrite (proj2 (ValidateEID_spec _)) by lia.
    rewrite (proj2 (ValidateETP_spec _)) by lia. reflexivity. }
  assert (forall k l, 0 <= k <= 8 ->
            slen (if len (upto k l) =? 0 then None else Some (upto k l)) <= 8) as Htok.
  { intros k l Hk. pose proof (upto_short k l ltac:(lia)).
    destruct (len (upto k l) =? 0); cbn [slen]; lia. }
  split; [|split; [|split]].
  - unfold coderv0.Decode.
    destruct (len data <? 4); [discriminate|].
    destruct (negb (Z.shiftr (at_ data 0) 6 =? 0)); [discriminate|].
    cbn [Crc16 Payload sbytes].
    destruct (Z.eqb_spec (LittleEndian_Uint16 (upto 2 (from 2 data)))
                         (CRC16Bytes (from 4 data))) as [E | _]; [|discriminate].
    cbn [negb]. intros Hdec. injection Hdec as <- <-.
    cbn [Ver Type_ EncoderID EncoderType Crc16 Payload sbytes].
    rewrite (proj2 (ValidateEID_spec _)) by lia.
    rewrite (proj2 (ValidateETP_spec _)) by lia.
    repeat split; try lia; try reflexivity; exact E.
  - unfold coderv1.Decode.
    destruct (len data <? 4); [discriminate|].
    destruct (negb (Z.shiftr (at_ data 0) 6 =? 1)); [discriminate|].
    destruct (Z.ltb_spec 8 (Z.land (at_ data 0) 15)); [discriminate|].
    destruct (len (from 4 data) <? Z.land (at_ data 0) 15); [discriminate|].
    destruct (Options_Unmarshal _ _ _) as (opts & (proc & [e|])); [discriminate|].
    intros Hdec. injection Hdec as <- <-.
    cbn [Ver Type_ MessageID Token Code].
    rewrite (proj2 (ValidateMID_spec _)) by (unfold MaxUint16; lia).
    repeat split; try lia; try reflexivity; apply Htok; lia.
  - unfold coderv2_pbuf.Decode, v2_parse.
    destruct (len data <? 8); [discriminate|].
    destruct (negb (RSUM8 data =? 0)); [discriminate|].
    destruct (negb (Z.shiftr (at_ data 0) 6 =? 2)); [discriminate|].
    destruct (Z.ltb_spec 8 (Z.land (Z.shiftr (at_ data 0) 2) 15)); [discriminate|].
    destruct (len (from 8 data) <? Z.land (Z.shiftr (at_ data 0) 2) 15);
      [discriminate|].
    destruct (Options_Unmarshal _ _ _) as (opts & (proc & [e|])); [discriminate|].
    cbn [p_typ p_token p_eid p_etp p_crc16 p_messageID p_code p_payload
         Crc16 Payload].
    match goal with
    | |- context [negb (?a =? ?b)] => destruct (Z.eqb_spec a b) as [E | _];
                                      [|discriminate]
    end.
    cbn [negb]. intros Hdec. injection Hdec as <- <-.
    cbn [Ver Type_ MessageID Token Code Crc16 Payload].
    rewrite Hval by lia.
    repeat split; try lia; try reflexivity; try exact E; apply Htok; lia.
  - unfold coderv2.Decode, v2_parse.
    destruct (len data <? 8); [discriminate|].
    destruct (negb (RSUM8 data =? 0)); [discriminate|].
    destruct (negb (Z.shiftr (at_ data 0) 6 =? 2)); [discriminate|].
    destruct (Z.ltb_spec 8 (Z.land (Z.shiftr (at_ data 0) 2) 15)); [discriminate|].
    destruct (len (from 8 data) <? Z.land (Z.shiftr (at_ data 0) 2) 15);
      [discriminate|].
    destruct (Options_Unmarshal _ _ _) as (opts & (proc & [e|])); [discriminate|].
    cbn [p_typ p_token p_eid p_etp p_crc16 p_messageID p_code p_payload
         Crc16 Payload].
    match goal with
    | |- context [negb (?a =? ?b)] => destruct (Z.eqb_spec a b) as [E | _];
                                      [|discriminate]
    end.
    cbn [negb]. intros Hdec. injection Hdec as <- <-.
    cbn [Ver Type_ MessageID Token Code Crc16 Payload set_Opts].
    rewrite Hval by lia.
    repeat split; try lia; try reflexivity; try exact E; apply Htok; lia.
Qed.

Lemma decoded_fields_are_in_range_witness :
  v2_validate
    (fst (coderv2_pbuf.Decode [129; 80; 94; 238; 0; 1; 2; 5; 255; 104; 105] sampleCore))
    = None.
Proof.
  destruct (decoded_fields_are_in_range
              [129; 80; 94; 238; 0; 1; 2; 5; 255; 104; 105] sampleCore
              (fst (coderv2_pbuf.Decode [129; 80; 94; 238; 0; 1; 2; 5; 255; 104; 105]
                      sampleCore)) 11) as (_ & _ & H & _).
  - repeat constructor; unfold is_byte; lia.
  - apply H. vm_compute. reflexivity.
Defined.
